(** * seclai-cli: a shallow embedding of [src/cli.ts]

    The command-line client is glue between three libraries: the
    argument parser (commander), the vendor SDK ([@seclai/sdk]) and the
    JavaScript built-ins [JSON.stringify] and [JSON.parse].  The
    functions of [cli.ts] are embedded one by one ([readStdinText],
    [readJsonInput], [createClient], [printJson], [printError], [run],
    the command tree and the action handlers of [createProgram], and
    [runCli]) over an explicit world: the two output sinks, the exit
    code, the [observedExitCode] that [runCli] captures, and a log of
    the SDK constructions and calls.  The libraries are modelled by
    their contract: the JSON built-ins after ECMAScript, commander's
    dispatch after its [_parseCommand], the SDK as a double whose
    answers are given by the host.  The version of the package
    ([getCliVersion]) and the guard that starts the program when the
    module is the entry point follow, then the script that renders the
    command reference, [scripts/generate-docs.mjs] ([escapeHtml],
    [slugify], [readPackageVersion] and the table [sections]). *)

From Stdlib Require Import List NArith ZArith Bool Lia String Ascii.
From Stdlib Require Import DecimalString.
From Stdlib Require DecimalPos.
Import ListNotations.
Open Scope string_scope.
Open Scope list_scope.


(** ** JavaScript strings

    A JavaScript string is a sequence of UTF-16 code units. *)

Abbreviation jsstring := (list N).

Definition js (s : string) : jsstring :=
  map N_of_ascii (list_ascii_of_string s).

Fixpoint jsstring_eqb (a b : jsstring) : bool :=
  match a, b with
  | [], [] => true
  | x :: a', y :: b' => N.eqb x y && jsstring_eqb a' b'
  | _, _ => false
  end.

(** [Array.prototype.join]. *)
Fixpoint join (sep : jsstring) (parts : list jsstring) : jsstring :=
  match parts with
  | [] => []
  | [p] => p
  | p :: rest => p ++ sep ++ join sep rest
  end.

(** Decimal rendering of an array index. *)
Definition index_key (i : N) : jsstring :=
  js (NilZero.string_of_uint (N.to_uint i)).

(** ** JavaScript numbers

    Numbers are IEEE doubles.  Their arithmetic is outside this
    development: the operations the program applies to them are the
    fields of an interface, instantiated below with an integer model. *)

Class JSNumber := {
  number : Type;
  NaN : number;
  (** [Number(v)] applied to a string. *)
  Number_of_string : jsstring -> number;
  (** [Number::toString], radix 10. *)
  Number_toString : number -> jsstring;
  Number_isFinite : number -> bool;
  (** [ToBoolean]: false on [+0], [-0] and [NaN]. *)
  Number_toBoolean : number -> bool;
  (** The element of a [Uint8Array] as a number. *)
  Number_of_byte : N -> number;
  (** The value of a token of the JSON number grammar; [None] when the
      token is not derivable from it. *)
  JSON_number : jsstring -> option number;
}.

(** ** JavaScript values *)

Section Values.
Context {JSN : JSNumber}.

Unset Elimination Schemes.
Inductive value : Type :=
| VUndefined
| VNull
| VBool (b : bool)
| VNum (n : number)
| VStr (s : jsstring)
| VArr (items : list value)
| VObj (props : list (jsstring * value))
    (** a plain object: own enumerable properties in property order *)
| VBytes (bytes : list N)
    (** a [Uint8Array] *)
| VCommand.
    (** commander's [Command] instance handed to an action handler *)
Set Elimination Schemes.

Section value_induction.
Variable P : value -> Prop.
Hypothesis Hundef : P VUndefined.
Hypothesis Hnull : P VNull.
Hypothesis Hbool : forall b, P (VBool b).
Hypothesis Hnum : forall n, P (VNum n).
Hypothesis Hstr : forall s, P (VStr s).
Hypothesis Harr : forall items, Forall P items -> P (VArr items).
Hypothesis Hobj : forall props, Forall (fun kv => P (snd kv)) props -> P (VObj props).
Hypothesis Hbytes : forall bs, P (VBytes bs).
Hypothesis Hcmd : P VCommand.

Fixpoint value_ind (v : value) : P v :=
  match v with
  | VUndefined => Hundef
  | VNull => Hnull
  | VBool b => Hbool b
  | VNum n => Hnum n
  | VStr s => Hstr s
  | VArr items =>
      Harr items ((fix go (l : list value) : Forall P l :=
               match l with
               | [] => Forall_nil _
               | x :: r => Forall_cons _ (value_ind x) (go r)
               end) items)
  | VObj props =>
      Hobj props ((fix go (l : list (jsstring * value)) : Forall (fun kv => P (snd kv)) l :=
               match l with
               | [] => Forall_nil _
               | kv :: r => Forall_cons _ (value_ind (snd kv)) (go r)
               end) props)
  | VBytes bs => Hbytes bs
  | VCommand => Hcmd
  end.
End value_induction.

(** Property lookup in a plain object. *)
Fixpoint lookup (k : jsstring) (props : list (jsstring * value)) : option value :=
  match props with
  | [] => None
  | (k', v) :: rest => if jsstring_eqb k k' then Some v else lookup k rest
  end.

Definition has_key (k : jsstring) (props : list (jsstring * value)) : bool :=
  match lookup k props with Some _ => true | None => false end.

(** [obj[k] = v] on a plain object: an existing property keeps its
    position, a new one is appended. *)
Fixpoint obj_set (k : jsstring) (v : value) (props : list (jsstring * value))
  : list (jsstring * value) :=
  match props with
  | [] => [(k, v)]
  | (k', v') :: rest =>
      if jsstring_eqb k k' then (k', v) :: rest else (k', v') :: obj_set k v rest
  end.

Definition is_undefined (v : value) : bool :=
  match v with VUndefined => true | _ => false end.

(** [ToBoolean]. *)
Definition ToBoolean (v : value) : bool :=
  match v with
  | VUndefined | VNull => false
  | VBool b => b
  | VNum n => Number_toBoolean n
  | VStr s => match s with [] => false | _ => true end
  | VArr _ | VObj _ | VBytes _ | VCommand => true
  end.

(** [String(v)]. *)
Fixpoint ToString (v : value) : jsstring :=
  match v with
  | VUndefined => js "undefined"
  | VNull => js "null"
  | VBool true => js "true"
  | VBool false => js "false"
  | VNum n => Number_toString n
  | VStr s => s
  | VArr items =>
      join (js ",")
        (map (fun x => match x with
                       | VUndefined | VNull => []
                       | _ => ToString x
                       end) items)
  | VObj _ => js "[object Object]"
  | VBytes bs => join (js ",") (map (fun b => Number_toString (Number_of_byte b)) bs)
  | VCommand => js "[object Object]"
  end.

(** ** [JSON.stringify (value, null, 2)]

    ECMAScript's [QuoteJSONString], [SerializeJSONProperty],
    [SerializeJSONArray] and [SerializeJSONObject], with the gap fixed to
    two spaces. *)

Definition LF : jsstring := [10%N].
Definition QUOTE : N := 34%N.
Definition BACKSLASH : N := 92%N.

Definition hex_digit (d : N) : N :=
  if (d <? 10)%N then (48 + d)%N else (87 + d)%N.

(** [UnicodeEscape]: a backslash, [u] and four lowercase hexadecimal digits. *)
Definition UnicodeEscape (c : N) : jsstring :=
  [BACKSLASH; 117%N;
   hex_digit ((c / 4096) mod 16); hex_digit ((c / 256) mod 16);
   hex_digit ((c / 16) mod 16); hex_digit (c mod 16)].

Definition is_high_surrogate (c : N) : bool := ((55296 <=? c) && (c <=? 56319))%N.
Definition is_low_surrogate (c : N) : bool := ((56320 <=? c) && (c <=? 57343))%N.

(** One code unit that is not half of a surrogate pair. *)
Definition quote_unit (c : N) : jsstring :=
  if (c =? 8)%N then [BACKSLASH; 98%N]
  else if (c =? 9)%N then [BACKSLASH; 116%N]
  else if (c =? 10)%N then [BACKSLASH; 110%N]
  else if (c =? 12)%N then [BACKSLASH; 102%N]
  else if (c =? 13)%N then [BACKSLASH; 114%N]
  else if (c =? QUOTE)%N then [BACKSLASH; QUOTE]
  else if (c =? BACKSLASH)%N then [BACKSLASH; BACKSLASH]
  else if (c <? 32)%N || is_high_surrogate c || is_low_surrogate c
       then UnicodeEscape c
  else [c].

Fixpoint quote_body (s : jsstring) : jsstring :=
  match s with
  | [] => []
  | c :: rest =>
      match rest with
      | d :: rest' =>
          if is_high_surrogate c && is_low_surrogate d
          then c :: d :: quote_body rest'
          else quote_unit c ++ quote_body rest
      | [] => quote_unit c
      end
  end.

Definition QuoteJSONString (s : jsstring) : jsstring :=
  QUOTE :: quote_body s ++ [QUOTE].

Definition gap : jsstring := js "  ".

(** What serializing one property value yields: nothing ([undefined]), a
    text, or the [TypeError] of a cyclic structure. *)
Inductive serialized :=
| Omitted
| Text (t : jsstring)
| Cyclic.

Definition serialize_number (n : number) : jsstring :=
  if Number_isFinite n then Number_toString n else js "null".

Definition wrap (open close stepback indent : jsstring) (partial : list jsstring)
  : jsstring :=
  match partial with
  | [] => open ++ close
  | _ => open ++ LF ++ indent ++ join (js "," ++ LF ++ indent) partial
         ++ LF ++ stepback ++ close
  end.

Fixpoint bytes_members (i : N) (bs : list N) : list jsstring :=
  match bs with
  | [] => []
  | b :: rest =>
      (QuoteJSONString (index_key i) ++ js ": " ++ serialize_number (Number_of_byte b))
        :: bytes_members (N.succ i) rest
  end.

Fixpoint SerializeJSONProperty (stepback : jsstring) (v : value) : serialized :=
  let indent := stepback ++ gap in
  match v with
  | VUndefined => Omitted
  | VNull => Text (js "null")
  | VBool true => Text (js "true")
  | VBool false => Text (js "false")
  | VNum n => Text (serialize_number n)
  | VStr s => Text (QuoteJSONString s)
  | VArr items =>
      match (fix elements (l : list value) : option (list jsstring) :=
               match l with
               | [] => Some []
               | x :: r =>
                   match SerializeJSONProperty indent x with
                   | Cyclic => None
                   | Omitted => option_map (cons (js "null")) (elements r)
                   | Text t => option_map (cons t) (elements r)
                   end
               end) items with
      | None => Cyclic
      | Some partial => Text (wrap (js "[") (js "]") stepback indent partial)
      end
  | VObj props =>
      match (fix members (l : list (jsstring * value)) : option (list jsstring) :=
               match l with
               | [] => Some []
               | (k, x) :: r =>
                   match SerializeJSONProperty indent x with
                   | Cyclic => None
                   | Omitted => members r
                   | Text t =>
                       option_map (cons (QuoteJSONString k ++ js ": " ++ t)) (members r)
                   end
               end) props with
      | None => Cyclic
      | Some partial => Text (wrap (js "{") (js "}") stepback indent partial)
      end
  | VBytes bs => Text (wrap (js "{") (js "}") stepback indent (bytes_members 0 bs))
  | VCommand => Cyclic
  end.

(** ** [JSON.parse] *)

Definition is_ws (c : N) : bool :=
  ((c =? 32) || (c =? 9) || (c =? 10) || (c =? 13))%N.

Fixpoint skip_ws (s : jsstring) : jsstring :=
  match s with
  | c :: r => if is_ws c then skip_ws r else s
  | [] => []
  end.

Definition is_digit (c : N) : bool := ((48 <=? c) && (c <=? 57))%N.

(** The characters a JSON number token is made of: digits, sign, point
    and exponent mark. *)
Definition is_numchar (c : N) : bool :=
  (is_digit c || (c =? 45) || (c =? 43) || (c =? 46) || (c =? 101) || (c =? 69))%N.

Fixpoint span_num (s : jsstring) : jsstring * jsstring :=
  match s with
  | c :: r =>
      if is_numchar c then let (tok, rest) := span_num r in (c :: tok, rest)
      else ([], s)
  | [] => ([], [])
  end.

Definition hex_value (c : N) : option N :=
  if is_digit c then Some (c - 48)%N
  else if ((97 <=? c) && (c <=? 102))%N then Some (c - 87)%N
  else if ((65 <=? c) && (c <=? 70))%N then Some (c - 55)%N
  else None.

Definition hex4 (a b c d : N) : option N :=
  match hex_value a, hex_value b, hex_value c, hex_value d with
  | Some x3, Some x2, Some x1, Some x0 =>
      Some (x3 * 4096 + x2 * 256 + x1 * 16 + x0)%N
  | _, _, _, _ => None
  end.

Definition simple_escape (e : N) : option N :=
  if (e =? QUOTE)%N then Some QUOTE
  else if (e =? BACKSLASH)%N then Some BACKSLASH
  else if (e =? 47)%N then Some 47%N
  else if (e =? 98)%N then Some 8%N
  else if (e =? 102)%N then Some 12%N
  else if (e =? 110)%N then Some 10%N
  else if (e =? 114)%N then Some 13%N
  else if (e =? 116)%N then Some 9%N
  else None.

Definition cons_fst (c : N) (r : option (jsstring * jsstring))
  : option (jsstring * jsstring) :=
  match r with
  | Some (s, rest) => Some (c :: s, rest)
  | None => None
  end.

(** The characters of a string literal, after its opening quote. *)
Fixpoint parse_chars (s : jsstring) : option (jsstring * jsstring) :=
  match s with
  | [] => None
  | c :: r =>
      if (c =? QUOTE)%N then Some ([], r)
      else if (c =? BACKSLASH)%N then
        match r with
        | [] => None
        | e :: r1 =>
            if (e =? 117)%N then
              match r1 with
              | h3 :: h2 :: h1 :: h0 :: r2 =>
                  match hex4 h3 h2 h1 h0 with
                  | Some u => cons_fst u (parse_chars r2)
                  | None => None
                  end
              | _ => None
              end
            else
              match simple_escape e with
              | Some u => cons_fst u (parse_chars r1)
              | None => None
              end
        end
      else if (c <? 32)%N then None
      else cons_fst c (parse_chars r)
  end.

Fixpoint strip_prefix (p s : jsstring) : option jsstring :=
  match p, s with
  | [], _ => Some s
  | x :: p', y :: s' => if (x =? y)%N then strip_prefix p' s' else None
  | _ :: _, [] => None
  end.

(** [CreateDataProperty] over a parsed member list: a repeated key keeps
    its first position and its last value.  The members stay in the
    order of the text; JavaScript enumerates the keys that are array
    indices first, in ascending order, so the two orders agree for a
    text whose objects have no such key, or have them first and
    ascending. *)
Definition build_object (members : list (jsstring * value)) : value :=
  VObj (fold_left (fun acc kv => obj_set (fst kv) (snd kv) acc) members []).

Fixpoint parse_value (fuel : nat) (s : jsstring) {struct fuel}
  : option (value * jsstring) :=
  match fuel with
  | O => None
  | S fuel' =>
      match s with
      | [] => None
      | c :: r =>
          if (c =? QUOTE)%N then
            match parse_chars r with
            | Some (str, rest) => Some (VStr str, rest)
            | None => None
            end
          else if (c =? 91)%N then
            match skip_ws r with
            | d :: r' =>
                if (d =? 93)%N then Some (VArr [], r')
                else
                  match parse_elements fuel' (d :: r') with
                  | Some (items, rest) => Some (VArr items, rest)
                  | None => None
                  end
            | [] => None
            end
          else if (c =? 123)%N then
            match skip_ws r with
            | d :: r' =>
                if (d =? 125)%N then Some (VObj [], r')
                else
                  match parse_members fuel' (d :: r') with
                  | Some (members, rest) => Some (build_object members, rest)
                  | None => None
                  end
            | [] => None
            end
          else if (c =? 45)%N || is_digit c then
            let (tok, rest) := span_num s in
            match JSON_number tok with
            | Some n => Some (VNum n, rest)
            | None => None
            end
          else
            match strip_prefix (js "null") s with
            | Some rest => Some (VNull, rest)
            | None =>
                match strip_prefix (js "true") s with
                | Some rest => Some (VBool true, rest)
                | None =>
                    match strip_prefix (js "false") s with
                    | Some rest => Some (VBool false, rest)
                    | None => None
                    end
                end
            end
      end
  end

with parse_elements (fuel : nat) (s : jsstring) {struct fuel}
  : option (list value * jsstring) :=
  match fuel with
  | O => None
  | S fuel' =>
      match parse_value fuel' s with
      | None => None
      | Some (v, r) =>
          match skip_ws r with
          | d :: r' =>
              if (d =? 44)%N then
                match parse_elements fuel' (skip_ws r') with
                | Some (vs, rest) => Some (v :: vs, rest)
                | None => None
                end
              else if (d =? 93)%N then Some ([v], r')
              else None
          | [] => None
          end
      end
  end

with parse_members (fuel : nat) (s : jsstring) {struct fuel}
  : option (list (jsstring * value) * jsstring) :=
  match fuel with
  | O => None
  | S fuel' =>
      match s with
      | q :: r0 =>
          if (q =? QUOTE)%N then
            match parse_chars r0 with
            | None => None
            | Some (k, r1) =>
                match skip_ws r1 with
                | colon :: r2 =>
                    if (colon =? 58)%N then
                      match parse_value fuel' (skip_ws r2) with
                      | None => None
                      | Some (v, r3) =>
                          match skip_ws r3 with
                          | d :: r' =>
                              if (d =? 44)%N then
                                match parse_members fuel' (skip_ws r') with
                                | Some (ms, rest) => Some ((k, v) :: ms, rest)
                                | None => None
                                end
                              else if (d =? 125)%N then Some ([(k, v)], r')
                              else None
                          | [] => None
                          end
                      end
                    else None
                | [] => None
                end
            end
          else None
      | [] => None
      end
  end.

(** [JSON.parse text]: [None] stands for the [SyntaxError]. *)
Definition JSON_parse (text : jsstring) : option value :=
  match parse_value (S (List.length text)) (skip_ws text) with
  | Some (v, rest) =>
      match skip_ws rest with
      | [] => Some v
      | _ :: _ => None
      end
  | None => None
  end.

(** [JSON.stringify (value, null, 2)] at top level. *)
Definition JSON_stringify (v : value) : serialized :=
  SerializeJSONProperty [] v.

(** ** JSON-serializable values

    The values that [JSON.stringify] renders without loss: no
    [undefined], typed array or host object anywhere, no repeated key,
    and only numbers that are finite and read back from their own
    rendering (every finite double but [-0]). *)

Definition numeral (t : jsstring) : bool :=
  match t with
  | c :: _ => ((c =? 45)%N || is_digit c) && forallb is_numchar t
  | [] => false
  end.

Unset Elimination Schemes.
Inductive JSONSerializable : value -> Prop :=
| Serializable_null : JSONSerializable VNull
| Serializable_bool b : JSONSerializable (VBool b)
| Serializable_num n :
    Number_isFinite n = true ->
    numeral (Number_toString n) = true ->
    JSON_number (Number_toString n) = Some n ->
    JSONSerializable (VNum n)
| Serializable_str s : JSONSerializable (VStr s)
| Serializable_arr items :
    Forall JSONSerializable items -> JSONSerializable (VArr items)
| Serializable_obj props :
    NoDup (map fst props) ->
    Forall (fun kv => JSONSerializable (snd kv)) props ->
    JSONSerializable (VObj props).
Set Elimination Schemes.

(** ** Pretty-printed JSON, in the words of the specification

    Two-space indentation: an array or object that is not empty puts
    each of its elements or members on a line of its own, two spaces
    deeper than the line of its opening bracket, with a comma after
    each but the last, and its closing bracket on a line of its own,
    as deep as the opening one; a member is its quoted key, a colon,
    one space and the value; an empty array or object is its two
    brackets; the text starts at depth 0.  (Only the text of a
    JSON-serializable value matters.) *)

Definition indentation (depth : nat) : jsstring := repeat 32%N (2 * depth).

Definition block (open close : jsstring) (depth : nat) (items : list jsstring) : jsstring :=
  match items with
  | [] => open ++ close
  | _ :: _ =>
      open
      ++ join (js ",") (map (fun item => LF ++ indentation (S depth) ++ item) items)
      ++ LF ++ indentation depth ++ close
  end.

Fixpoint pretty_printed (depth : nat) (v : value) : jsstring :=
  match v with
  | VNull => js "null"
  | VBool true => js "true"
  | VBool false => js "false"
  | VNum n => Number_toString n
  | VStr s => QuoteJSONString s
  | VArr items => block (js "[") (js "]") depth (map (pretty_printed (S depth)) items)
  | VObj props =>
      block (js "{") (js "}") depth
        (map (fun '(key, x) => QuoteJSONString key ++ js ": " ++ pretty_printed (S depth) x)
           props)
  | _ => []
  end.

(** *** Measures and invariants of the round-trip proof *)

Fixpoint total (l : list nat) : nat :=
  match l with
  | [] => 0
  | n :: r => n + total r
  end.

(** Number of nodes of a value: the fuel that reading it back takes. *)
Fixpoint size (v : value) : nat :=
  match v with
  | VArr items => S (total (map (fun x => S (size x)) items))
  | VObj props => S (total (map (fun kv => S (size (snd kv))) props))
  | _ => 1
  end.

(** What may follow a number token. *)
Definition ends_token (rest : jsstring) : Prop :=
  match rest with
  | [] => True
  | c :: _ => is_numchar c = false
  end.

(** The first character of the text of a value. *)
Definition value_start (c : N) : bool :=
  ((c =? QUOTE) || (c =? 91) || (c =? 123) || (c =? 45) || is_digit c
   || (c =? 110) || (c =? 116) || (c =? 102))%N.

Definition starts_value (t : jsstring) : Prop :=
  exists c t', t = c :: t' /\ value_start c = true.

(** The text [t] reads back as [v], whatever follows it. *)
Definition reads_back (v : value) (t : jsstring) : Prop :=
  starts_value t /\
  size v <= List.length t /\
  forall fuel rest, size v < fuel -> ends_token rest ->
    parse_value fuel (t ++ rest) = Some (v, rest).

Definition member_reads_back (kv : jsstring * value) (m : jsstring) : Prop :=
  exists t, m = QuoteJSONString (fst kv) ++ 58%N :: 32%N :: t /\ reads_back (snd kv) t.

(** The element and member loops of [SerializeJSONProperty], named. *)
Definition array_partial (indent : jsstring)
  : list value -> option (list jsstring) :=
  fix elements (l : list value) : option (list jsstring) :=
    match l with
    | [] => Some []
    | x :: r =>
        match SerializeJSONProperty indent x with
        | Cyclic => None
        | Omitted => option_map (cons (js "null")) (elements r)
        | Text t => option_map (cons t) (elements r)
        end
    end.

Definition object_partial (indent : jsstring)
  : list (jsstring * value) -> option (list jsstring) :=
  fix members (l : list (jsstring * value)) : option (list jsstring) :=
    match l with
    | [] => Some []
    | (k, x) :: r =>
        match SerializeJSONProperty indent x with
        | Cyclic => None
        | Omitted => members r
        | Text t => option_map (cons (QuoteJSONString k ++ js ": " ++ t)) (members r)
        end
    end.

End Values.

(** ** Errors, world and effects *)

Section Cli.
Context {JSN : JSNumber}.

(** What the program can catch.  The SDK's error classes carry the
    fields [printError] reads; [JsError] is any other instance of
    [Error] ([Error], [TypeError], [SyntaxError], a file-system error). *)
Inductive thrown :=
| SeclaiAPIValidationError (name message : jsstring) (statusCode : number)
    (url : jsstring) (responseText : option jsstring) (validationError : value)
| SeclaiAPIStatusError (name message : jsstring) (statusCode : number)
    (url : jsstring) (responseText : option jsstring)
| SeclaiConfigurationError (name message : jsstring)
| JsError (name message : jsstring)
| CommanderError (exitCode : Z) (code message : jsstring)
| NonError (v : value).

Inductive result (A : Type) :=
| Ret (a : A)
| Throw (e : thrown).
Arguments Ret {A} a.
Arguments Throw {A} e.

(** What one invocation leaves behind. *)
Record world := {
  out : list jsstring;
    (** texts given to the runtime's [writeOut], oldest first *)
  err : list jsstring;
    (** texts given to the runtime's [writeErr], oldest first *)
  exitCodes : list Z;
    (** codes given to the runtime's [setExitCode], oldest first *)
  observedExitCode : Z;
    (** the variable [runCli] captures in [wrappedRt.setExitCode] *)
  stdinReads : nat;
    (** how many times the input stream was consumed *)
  constructed : list value;
    (** the option objects given to [new Seclai (...)] *)
  calls : list (jsstring * list value);
    (** the SDK methods invoked, with their arguments *)
}.

(** Updates of one field. *)
Definition emit_out (text : jsstring) (w : world) : world :=
  {| out := out w ++ [text]; err := err w; exitCodes := exitCodes w;
     observedExitCode := observedExitCode w; stdinReads := stdinReads w;
     constructed := constructed w; calls := calls w |}.

Definition emit_err (text : jsstring) (w : world) : world :=
  {| out := out w; err := err w ++ [text]; exitCodes := exitCodes w;
     observedExitCode := observedExitCode w; stdinReads := stdinReads w;
     constructed := constructed w; calls := calls w |}.

Definition record_exit (code : Z) (w : world) : world :=
  {| out := out w; err := err w; exitCodes := exitCodes w ++ [code];
     observedExitCode := observedExitCode w; stdinReads := stdinReads w;
     constructed := constructed w; calls := calls w |}.

Definition set_observed (code : Z) (w : world) : world :=
  {| out := out w; err := err w; exitCodes := exitCodes w;
     observedExitCode := code; stdinReads := stdinReads w;
     constructed := constructed w; calls := calls w |}.

Definition consume_stdin (w : world) : world :=
  {| out := out w; err := err w; exitCodes := exitCodes w;
     observedExitCode := observedExitCode w; stdinReads := S (stdinReads w);
     constructed := constructed w; calls := calls w |}.

Definition record_construction (opts : value) (w : world) : world :=
  {| out := out w; err := err w; exitCodes := exitCodes w;
     observedExitCode := observedExitCode w; stdinReads := stdinReads w;
     constructed := constructed w ++ [opts]; calls := calls w |}.

Definition record_call (method : jsstring) (args : list value) (w : world) : world :=
  {| out := out w; err := err w; exitCodes := exitCodes w;
     observedExitCode := observedExitCode w; stdinReads := stdinReads w;
     constructed := constructed w; calls := calls w ++ [(method, args)] |}.

Definition initial_world : world :=
  {| out := []; err := []; exitCodes := []; observedExitCode := 0%Z;
     stdinReads := 0; constructed := []; calls := [] |}.

(** Everything the program reads but does not own. *)
Record host := {
  stdin_stream : result jsstring;
    (** the chunks of standard input up to [end], or its [error] event *)
  readFile_utf8 : jsstring -> result jsstring;
  readFile_bytes : jsstring -> result (list N);
  SECLAI_API_URL : option jsstring;
    (** [process.env.SECLAI_API_URL] *)
  Seclai_constructor : value -> option thrown;
    (** the error [new Seclai (opts)] throws, if any *)
  has_runStreamingAgentAndWait : bool;
  Seclai_method : jsstring -> list value -> result value;
    (** what a method of the client resolves or rejects with *)
  cliVersion : jsstring;
    (** [getCliVersion ()]: the version field of package.json *)
  helpInformation : list jsstring -> jsstring;
    (** commander's help text for the command at a path *)
  usageMessage : jsstring -> jsstring -> jsstring;
    (** commander's message for a usage error code and its subject *)
  allowExcessArguments : bool;
    (** commander's setting of the same name (its default changed
        between major versions) *)
  SyntaxError_message : jsstring -> jsstring;
  TypeError_circular : jsstring;
}.

Definition M (A : Type) : Type := world -> result A * world.

Definition ret {A} (a : A) : M A := fun w => (Ret a, w).

Definition throw {A} (e : thrown) : M A := fun w => (Throw e, w).

Definition bind {A B} (c : M A) (k : A -> M B) : M B :=
  fun w =>
    match c w with
    | (Ret a, w') => k a w'
    | (Throw e, w') => (Throw e, w')
    end.

(** [try { c } catch (e) { handler e }]. *)
Definition try_catch {A} (c : M A) (handler : thrown -> M A) : M A :=
  fun w =>
    match c w with
    | (Ret a, w') => (Ret a, w')
    | (Throw e, w') => handler e w'
    end.

Definition lift {A} (r : result A) : M A := fun w => (r, w).

Notation "x <- c ;; k" := (bind c (fun x => k))
  (at level 61, c at next level, right associativity).
Notation "c ;; k" := (bind c (fun _ => k))
  (at level 61, right associativity).

(** ** The runtime adapter *)

Record CliRuntime := {
  stdin : M jsstring;
    (** consuming [rt.stdin] up to its [end] event *)
  writeOut : jsstring -> M unit;
  writeErr : jsstring -> M unit;
  setExitCode : Z -> M unit;
}.

Variable h : host.

(** [defaultRuntime ()], with the process streams and exit code kept in
    the world. *)
Definition defaultRuntime : CliRuntime :=
  {| stdin := fun w => (stdin_stream h, consume_stdin w);
     writeOut := fun text w => (Ret tt, emit_out text w);
     writeErr := fun text w => (Ret tt, emit_err text w);
     setExitCode := fun code w => (Ret tt, record_exit code w) |}.

(** ** Input resolution *)

Definition readStdinText (rt : CliRuntime) : M jsstring := stdin rt.

Definition JSON_parse_or_throw (text : jsstring) : M value :=
  match JSON_parse text with
  | Some v => ret v
  | None => throw (JsError (js "SyntaxError") (SyntaxError_message h text))
  end.

Record JsonInput := {
  json : option jsstring;
  jsonFile : option jsstring;
}.

Definition readJsonInput (rt : CliRuntime) (opts : JsonInput) : M value :=
  match json opts, jsonFile opts with
  | Some _, Some _ =>
      throw (JsError (js "Error") (js "Provide only one of --json or --json-file"))
  | _, Some file =>
      text <- (if jsstring_eqb file (js "-") then readStdinText rt
               else lift (readFile_utf8 h file)) ;;
      JSON_parse_or_throw text
  | Some inline, None =>
      text <- (if jsstring_eqb inline (js "-") then readStdinText rt
               else ret inline) ;;
      JSON_parse_or_throw text
  | None, None =>
      throw (JsError (js "Error")
               (js "Missing JSON input. Provide --json or --json-file."))
  end.

(** The resolved text parsed as JSON, as the specification words it:
    the text of the one source given, or the failure to read it, then
    the value it denotes, or a [SyntaxError]. *)
Definition parse_resolved (source : result jsstring) : result value :=
  match source with
  | Throw e => Throw e
  | Ret text =>
      match JSON_parse text with
      | Some v => Ret v
      | None => Throw (JsError (js "SyntaxError") (SyntaxError_message h text))
      end
  end.

(** ** The client *)

(** [o.k] on a plain object.  The other receivers the program reads
    from (commander's [Command] instance, when a handler binds it to
    [opts]) have no property of the names read here; [undefined] and
    [null], on which a property read throws, are never handed to a
    handler by commander. *)
Definition get (o : value) (k : string) : value :=
  match o with
  | VObj props =>
      match lookup (js k) props with
      | Some v => v
      | None => VUndefined
      end
  | _ => VUndefined
  end.

Inductive Seclai := SeclaiClient.

Definition new_Seclai (opts : value) : M Seclai :=
  fun w =>
    (match Seclai_constructor h opts with
     | Some e => Throw e
     | None => Ret SeclaiClient
     end,
     record_construction opts w).

(** [await client.method (args)]. *)
Definition invoke (client : Seclai) (method : string) (args : list value)
  : M value :=
  fun w => (Seclai_method h (js method) args, record_call (js method) args w).

Definition createClient (opts : value) : M Seclai :=
  let seclaiOpts : list (jsstring * value) := [] in
  let seclaiOpts :=
    if negb (is_undefined (get opts "apiKey"))
    then obj_set (js "apiKey") (get opts "apiKey") seclaiOpts
    else seclaiOpts in
  let envUrl := SECLAI_API_URL h in
  let baseUrl :=
    match envUrl with
    | Some u => match u with [] => js "https://api.seclai.com" | _ => u end
    | None => js "https://api.seclai.com"
    end in
  let seclaiOpts := obj_set (js "baseUrl") (VStr baseUrl) seclaiOpts in
  new_Seclai (VObj seclaiOpts).

(** The option object [createClient] builds, spelled out. *)
Definition baseUrl : jsstring :=
  match SECLAI_API_URL h with
  | Some (c :: u) => c :: u
  | _ => js "https://api.seclai.com"
  end.

Definition clientOptions (global : value) : list (jsstring * value) :=
  (if is_undefined (get global "apiKey") then []
   else [(js "apiKey", get global "apiKey")])
  ++ [(js "baseUrl", VStr baseUrl)].

(** ** Printing *)

Definition printJson (rt : CliRuntime) (v : value) : M unit :=
  match JSON_stringify v with
  | Text t => writeOut rt (t ++ LF)
  | Omitted => writeOut rt (js "undefined" ++ LF)
  | Cyclic => throw (JsError (js "TypeError") (TypeError_circular h))
  end.

Definition truthy_text (t : option jsstring) : bool :=
  match t with
  | Some (_ :: _) => true
  | _ => false
  end.

Definition printError (rt : CliRuntime) (e : thrown) : M unit :=
  match e with
  | SeclaiAPIValidationError name message statusCode url responseText validationError =>
      writeErr rt (name ++ js ": " ++ message ++ LF) ;;
      writeErr rt (js "status: " ++ Number_toString statusCode ++ LF) ;;
      writeErr rt (js "url: " ++ url ++ LF) ;;
      (if truthy_text responseText
       then writeErr rt (js "response: "
                         ++ match responseText with Some t => t | None => [] end ++ LF)
       else ret tt) ;;
      (if ToBoolean validationError
       then printJson rt (VObj [(js "validationError", validationError)])
       else ret tt)
  | SeclaiAPIStatusError name message statusCode url responseText =>
      writeErr rt (name ++ js ": " ++ message ++ LF) ;;
      writeErr rt (js "status: " ++ Number_toString statusCode ++ LF) ;;
      writeErr rt (js "url: " ++ url ++ LF) ;;
      (if truthy_text responseText
       then writeErr rt (js "response: "
                         ++ match responseText with Some t => t | None => [] end ++ LF)
       else ret tt)
  | SeclaiConfigurationError name message =>
      writeErr rt (name ++ js ": " ++ message ++ LF)
  | JsError name message =>
      writeErr rt (name ++ js ": " ++ message ++ LF)
  | CommanderError _ _ message =>
      writeErr rt (js "CommanderError: " ++ message ++ LF)
  | NonError v =>
      writeErr rt (ToString v) ;;
      writeErr rt LF
  end.

Definition run (rt : CliRuntime) (main : M unit) : M unit :=
  try_catch main (fun e => printError rt e ;; setExitCode rt 1%Z).

(** ** The command tree

    Commander keeps, for every command, its name and aliases, the
    positional arguments and options it declares, its action handler,
    its subcommands, and the text added to its help with
    [addHelpText ("after", ...)]. *)

Inductive Leaf :=
| sources_list | sources_upload
| agents_run | agentRuns_list | agentRuns_get | agentRuns_delete
| runs_get | runs_delete
| contents_get | contents_delete | contents_embeddings.

Record OptionDecl := {
  long : jsstring;
  attributeName : jsstring;
    (** the camel-cased long flag, the key of the parsed value *)
  takesValue : bool;
    (** declared with a [<value>] placeholder *)
  parseArg : option (jsstring -> value);
    (** the converter given as third argument of [.option] *)
  mandatory : bool;
    (** declared with [.requiredOption] *)
}.

Unset Elimination Schemes.
Inductive Command := {
  name : jsstring;
  aliases : list jsstring;
  registeredArguments : list jsstring;
  options : list OptionDecl;
  actionHandler : option Leaf;
  commands : list Command;
  helpTextAfter : option jsstring;
}.
Set Elimination Schemes.

(** [.option (flags, description)] with a value placeholder. *)
Definition option_ (flag attr : string) : OptionDecl :=
  {| long := js flag; attributeName := js attr; takesValue := true;
     parseArg := None; mandatory := false |}.

(** [.option (flags, description, (v) => Number (v))]. *)
Definition numeric_option (flag attr : string) : OptionDecl :=
  {| long := js flag; attributeName := js attr; takesValue := true;
     parseArg := Some (fun v => VNum (Number_of_string v)); mandatory := false |}.

(** [.option (flags, description)] without placeholder: a boolean flag. *)
Definition boolean_option (flag attr : string) : OptionDecl :=
  {| long := js flag; attributeName := js attr; takesValue := false;
     parseArg := None; mandatory := false |}.

Definition requiredOption (flag attr : string) : OptionDecl :=
  {| long := js flag; attributeName := js attr; takesValue := true;
     parseArg := None; mandatory := true |}.

Definition group (n : string) (als : list string) (subs : list Command) : Command :=
  {| name := js n; aliases := map js als; registeredArguments := [];
     options := []; actionHandler := None; commands := subs;
     helpTextAfter := None |}.

Definition command (n : string) (args : list string) (opts : list OptionDecl)
  (action : Leaf) : Command :=
  {| name := js n; aliases := []; registeredArguments := map js args;
     options := opts; actionHandler := Some action; commands := [];
     helpTextAfter := None |}.

(** [c.addHelpText ("after", text)]. *)
Definition addHelpText_after (text : jsstring) (c : Command) : Command :=
  {| name := name c; aliases := aliases c;
     registeredArguments := registeredArguments c; options := options c;
     actionHandler := actionHandler c; commands := commands c;
     helpTextAfter := Some text |}.

(** The text [createProgram] adds after the help of the program. *)
Definition environment_and_examples : jsstring :=
  LF ++ js "Environment:" ++ LF
  ++ js "  SECLAI_API_KEY   Default API key (alternative to --api-key)" ++ LF
  ++ js "  SECLAI_API_URL   Override API base URL (default: https://api.seclai.com). Intended for dev/staging."
  ++ LF ++ LF
  ++ js "Examples:" ++ LF
  ++ js "  seclai sources list" ++ LF
  ++ js "  seclai sources upload <sourceConnectionId> --file ./document.pdf" ++ LF
  ++ js "  seclai agents run <agentId> --json '{" ++ [QUOTE] ++ js "input" ++ [QUOTE]
  ++ js ":" ++ [QUOTE] ++ js "Hello" ++ [QUOTE] ++ js "}'" ++ LF
  ++ js "  seclai agents run <agentId> --json-file - --stream --timeout-ms 60000 < run.json"
  ++ LF.

(** The tree [createProgram] declares (the global [--api-key] and the
    version and help flags are read by [parseAsync] below). *)
Definition createProgram : Command :=
  addHelpText_after environment_and_examples (
  group "seclai" []
    [ group "sources" ["source"]
        [ command "list" []
            [ numeric_option "--page" "page";
              numeric_option "--limit" "limit";
              option_ "--sort" "sort";
              option_ "--order" "order";
              option_ "--account-id" "accountId" ]
            sources_list;
          command "upload" ["sourceConnectionId"]
            [ requiredOption "--file" "file";
              option_ "--title" "title";
              option_ "--file-name" "fileName";
              option_ "--mime-type" "mimeType" ]
            sources_upload ];
      group "agents" []
        [ command "run" ["agentId"]
            [ option_ "--json" "json";
              option_ "--json-file" "jsonFile";
              boolean_option "--stream" "stream";
              numeric_option "--timeout-ms" "timeoutMs" ]
            agents_run;
          group "runs" []
            [ command "list" ["agentId"]
                [ numeric_option "--page" "page";
                  numeric_option "--limit" "limit" ]
                agentRuns_list;
              command "get" ["runId"]
                [ boolean_option "--include-step-outputs" "includeStepOutputs" ]
                agentRuns_get;
              command "delete" ["runId"] [] agentRuns_delete ] ];
      group "runs" ["agent-runs"]
        [ command "get" ["runId"]
            [ boolean_option "--include-step-outputs" "includeStepOutputs" ]
            runs_get;
          command "delete" ["runId"] [] runs_delete ];
      group "contents" []
        [ command "get" ["sourceConnectionContentVersion"]
            [ numeric_option "--start" "start";
              numeric_option "--end" "end" ]
            contents_get;
          command "delete" ["sourceConnectionContentVersion"] [] contents_delete;
          command "embeddings" ["sourceConnectionContentVersion"]
            [ numeric_option "--page" "page";
              numeric_option "--limit" "limit" ]
            contents_embeddings ] ]).

(** ** The leaf actions

    An action handler is a JavaScript function: commander calls it with
    the processed positional arguments, then the parsed options, then
    the command; its parameters are bound by position. *)

Definition parameter (i : nat) (args : list value) : value :=
  nth i args VUndefined.

(** The [string | undefined] of an option declared without converter:
    commander stores the raw argument.  (No other value reaches the
    last case.) *)
Definition optional_string (v : value) : option jsstring :=
  match v with
  | VUndefined => None
  | VStr s => Some s
  | other => Some (ToString other)
  end.

Definition sources_list_action (rt : CliRuntime) (global : value)
  (args : list value) : M unit :=
  let opts := parameter 0 args in
  run rt (
    client <- createClient global ;;
    res <- invoke client "listSources"
             [VObj [(js "page", get opts "page");
                    (js "limit", get opts "limit");
                    (js "sort", get opts "sort");
                    (js "order", get opts "order");
                    (js "accountId", get opts "accountId")]] ;;
    printJson rt res).

Definition sources_upload_action (rt : CliRuntime) (global : value)
  (args : list value) : M unit :=
  let sourceConnectionId := parameter 0 args in
  let opts := parameter 1 args in
  run rt (
    client <- createClient global ;;
    bytes <- lift (readFile_bytes h (ToString (get opts "file"))) ;;
    let uploadOpts := [(js "file", VBytes bytes)] in
    let uploadOpts :=
      if negb (is_undefined (get opts "title"))
      then obj_set (js "title") (get opts "title") uploadOpts else uploadOpts in
    let uploadOpts :=
      if negb (is_undefined (get opts "fileName"))
      then obj_set (js "fileName") (get opts "fileName") uploadOpts else uploadOpts in
    let uploadOpts :=
      if negb (is_undefined (get opts "mimeType"))
      then obj_set (js "mimeType") (get opts "mimeType") uploadOpts else uploadOpts in
    res <- invoke client "uploadFileToSource" [sourceConnectionId; VObj uploadOpts] ;;
    printJson rt res).

Definition agents_run_action (rt : CliRuntime) (global : value)
  (args : list value) : M unit :=
  let agentId := parameter 0 args in
  let opts := parameter 1 args in
  run rt (
    client <- createClient global ;;
    body <- readJsonInput rt
              {| json := optional_string (get opts "json");
                 jsonFile := optional_string (get opts "jsonFile") |} ;;
    res <- (if ToBoolean (get opts "stream") then
              if negb (has_runStreamingAgentAndWait h) then
                throw (JsError (js "Error")
                  (js "This version of @seclai/sdk does not support streaming agent runs yet. Upgrade @seclai/sdk to a version that includes runStreamingAgentAndWait."))
              else
                invoke client "runStreamingAgentAndWait"
                  [agentId; body;
                   if negb (is_undefined (get opts "timeoutMs"))
                   then VObj [(js "timeoutMs", get opts "timeoutMs")]
                   else VUndefined]
            else invoke client "runAgent" [agentId; body]) ;;
    printJson rt res).

Definition agentRuns_list_action (rt : CliRuntime) (global : value)
  (args : list value) : M unit :=
  let agentId := parameter 0 args in
  let opts := parameter 1 args in
  run rt (
    client <- createClient global ;;
    res <- invoke client "listAgentRuns"
             [agentId;
              VObj [(js "page", get opts "page"); (js "limit", get opts "limit")]] ;;
    printJson rt res).

(** [.action (async (agentId: string, runId: string, opts) => ...)]. *)
Definition agentRuns_get_action (rt : CliRuntime) (global : value)
  (args : list value) : M unit :=
  let agentId := parameter 0 args in
  let runId := parameter 1 args in
  let opts := parameter 2 args in
  run rt (
    client <- createClient global ;;
    res <- invoke client "getAgentRun"
             [runId;
              if ToBoolean (get opts "includeStepOutputs")
              then VObj [(js "includeStepOutputs", VBool true)]
              else VUndefined] ;;
    printJson rt res).

Definition deleteAgentRun_action (rt : CliRuntime) (global : value)
  (args : list value) : M unit :=
  let runId := parameter 0 args in
  run rt (
    client <- createClient global ;;
    res <- invoke client "deleteAgentRun" [runId] ;;
    printJson rt res).

(** [.action (async (runId: string, opts) => ...)]. *)
Definition runs_get_action (rt : CliRuntime) (global : value)
  (args : list value) : M unit :=
  let runId := parameter 0 args in
  let opts := parameter 1 args in
  run rt (
    client <- createClient global ;;
    res <- invoke client "getAgentRun"
             [runId;
              if ToBoolean (get opts "includeStepOutputs")
              then VObj [(js "includeStepOutputs", VBool true)]
              else VUndefined] ;;
    printJson rt res).

Definition contents_get_action (rt : CliRuntime) (global : value)
  (args : list value) : M unit :=
  let sourceConnectionContentVersion := parameter 0 args in
  let opts := parameter 1 args in
  run rt (
    client <- createClient global ;;
    res <- invoke client "getContentDetail"
             [sourceConnectionContentVersion;
              VObj [(js "start", get opts "start"); (js "end", get opts "end")]] ;;
    printJson rt res).

Definition contents_delete_action (rt : CliRuntime) (global : value)
  (args : list value) : M unit :=
  let sourceConnectionContentVersion := parameter 0 args in
  run rt (
    client <- createClient global ;;
    invoke client "deleteContent" [sourceConnectionContentVersion] ;;
    printJson rt (VObj [(js "ok", VBool true)])).

Definition contents_embeddings_action (rt : CliRuntime) (global : value)
  (args : list value) : M unit :=
  let sourceConnectionContentVersion := parameter 0 args in
  let opts := parameter 1 args in
  run rt (
    client <- createClient global ;;
    res <- invoke client "listContentEmbeddings"
             [sourceConnectionContentVersion;
              VObj [(js "page", get opts "page"); (js "limit", get opts "limit")]] ;;
    printJson rt res).

Definition action (l : Leaf) : CliRuntime -> value -> list value -> M unit :=
  match l with
  | sources_list => sources_list_action
  | sources_upload => sources_upload_action
  | agents_run => agents_run_action
  | agentRuns_list => agentRuns_list_action
  | agentRuns_get => agentRuns_get_action
  | agentRuns_delete => deleteAgentRun_action
  | runs_get => runs_get_action
  | runs_delete => deleteAgentRun_action
  | contents_get => contents_get_action
  | contents_delete => contents_delete_action
  | contents_embeddings => contents_embeddings_action
  end.

(** ** Commander

    The contract of [program.parseAsync (argv)] for a tree like the one
    above, with [exitOverride ()] in force.  An invocation is what
    commander's scan of [argv] yields before any command is selected. *)

Record Invocation := {
  versionFlag : bool;
    (** [-V] or [--version] is among the arguments *)
  helpFlag : bool;
    (** [-h] or [--help] is among the arguments *)
  apiKey : option jsstring;
    (** the argument of the global [--api-key] *)
  operands : list jsstring;
    (** the words that are not options: command names, then
        command-arguments *)
  given : list (jsstring * option jsstring);
    (** every other option, in order: its flag and its argument *)
}.

Inductive Usage :=
| unknownCommand (word : jsstring)
| unknownOption (flag : jsstring)
| optionMissingArgument (flag : jsstring)
| missingMandatoryOptionValue (flag : jsstring)
| missingArgument (argument : jsstring)
| excessArguments (commandName : jsstring).

Definition usage_code (u : Usage) : jsstring :=
  match u with
  | unknownCommand _ => js "commander.unknownCommand"
  | unknownOption _ => js "commander.unknownOption"
  | optionMissingArgument _ => js "commander.optionMissingArgument"
  | missingMandatoryOptionValue _ => js "commander.missingMandatoryOptionValue"
  | missingArgument _ => js "commander.missingArgument"
  | excessArguments _ => js "commander.excessArguments"
  end.

Definition usage_subject (u : Usage) : jsstring :=
  match u with
  | unknownCommand s | unknownOption s | optionMissingArgument s
  | missingMandatoryOptionValue s | missingArgument s | excessArguments s => s
  end.

(** Where parsing ends. *)
Inductive Parsed :=
| outputVersion
| outputHelp (path : list jsstring)
    (** the help flag: help on the output sink, exit code 0 *)
| helpCommand (path : list jsstring)
    (** the implicit [help] command: [this.help ()] *)
| helpAfterError (path : list jsstring)
    (** a command with subcommands and nothing to run:
        [this.help ({ error: true })] *)
| usageError (u : Usage)
| callAction (l : Leaf) (args : list value).

Fixpoint findOption (flag : jsstring) (decls : list OptionDecl) : option OptionDecl :=
  match decls with
  | [] => None
  | d :: rest => if jsstring_eqb flag (long d) then Some d else findOption flag rest
  end.

Definition names (c : Command) (w : jsstring) : bool :=
  jsstring_eqb w (name c) || existsb (jsstring_eqb w) (aliases c).

Fixpoint findCommand (w : jsstring) (cmds : list Command) : option Command :=
  match cmds with
  | [] => None
  | c :: rest => if names c w then Some c else findCommand w rest
  end.

(** [parseOptions]: the values of the declared options, converters
    applied, and the first unknown option; or the error of a declared
    option left without its argument. *)
Fixpoint parseOptions (decls : list OptionDecl)
  (tokens : list (jsstring * option jsstring))
  (values : list (jsstring * value)) (unknown : option jsstring)
  : Usage + (list (jsstring * value) * option jsstring) :=
  match tokens with
  | [] => inr (values, unknown)
  | (flag, argument) :: rest =>
      let unknown' := match unknown with Some _ => unknown | None => Some flag end in
      match findOption flag decls with
      | None => parseOptions decls rest values unknown'
      | Some d =>
          if takesValue d then
            match argument with
            | None => inl (optionMissingArgument flag)
            | Some raw =>
                let v := match parseArg d with
                         | Some convert => convert raw
                         | None => VStr raw
                         end in
                parseOptions decls rest (obj_set (attributeName d) v values) unknown
            end
          else
            match argument with
            | None =>
                parseOptions decls rest
                  (obj_set (attributeName d) (VBool true) values) unknown
            | Some _ => parseOptions decls rest values unknown'
            end
      end
  end.

Fixpoint missingMandatory (decls : list OptionDecl)
  (values : list (jsstring * value)) : option jsstring :=
  match decls with
  | [] => None
  | d :: rest =>
      if mandatory d && negb (has_key (attributeName d) values)
      then Some (long d)
      else missingMandatory rest values
  end.

(** A command with an action handler: options, help, mandatory
    options, unknown options, positional arguments, then the call with
    [processedArgs], [opts ()] and the command itself. *)
Definition parseLeaf (path : list jsstring) (c : Command) (l : Leaf)
  (inv : Invocation) (words : list jsstring) : Parsed :=
  match parseOptions (options c) (given inv) [] None with
  | inl u => usageError u
  | inr (values, unknown) =>
      if helpFlag inv then outputHelp path
      else
        match missingMandatory (options c) values with
        | Some flag => usageError (missingMandatoryOptionValue flag)
        | None =>
            match unknown with
            | Some flag => usageError (unknownOption flag)
            | None =>
                let declared := List.length (registeredArguments c) in
                if (List.length words <? declared)%nat then
                  usageError
                    (missingArgument
                       (nth (List.length words) (registeredArguments c) []))
                else if (declared <? List.length words)%nat && negb (allowExcessArguments h)
                then usageError (excessArguments (name c))
                else callAction l
                       (map VStr (firstn declared words) ++ [VObj values; VCommand])
            end
        end
  end.

(** [_parseCommand], from the command reached so far and the words
    left. *)
Fixpoint parseCommand (path : list jsstring) (c : Command) (inv : Invocation)
  (words : list jsstring) {struct words} : Parsed :=
  match actionHandler c with
  | Some l => parseLeaf path c l inv words
  | None =>
      match words with
      | [] =>
          if helpFlag inv then outputHelp path
          else
            match given inv with
            | [] => helpAfterError path
            | (flag, _) :: _ => usageError (unknownOption flag)
            end
      | w :: rest =>
          match findCommand w (commands c) with
          | Some sub => parseCommand (path ++ [name sub]) sub inv rest
          | None =>
              if jsstring_eqb w (js "help") then
                match rest with
                | [] => helpCommand path
                | topic :: _ =>
                    match findCommand topic (commands c) with
                    | Some sub => helpCommand (path ++ [name sub])
                    | None => helpAfterError path
                    end
                end
              else if helpFlag inv then outputHelp path
              else usageError (unknownCommand w)
          end
      end
  end.

Definition parse (program : Command) (inv : Invocation) : Parsed :=
  if versionFlag inv then outputVersion
  else parseCommand [] program inv (operands inv).

(** [program.opts ()]. *)
Definition program_opts (inv : Invocation) : value :=
  VObj match apiKey inv with
       | Some key => [(js "apiKey", VStr key)]
       | None => []
       end.

(** [seclai --api-key key words... options...]. *)
Definition invocation (key : option jsstring) (words : list jsstring)
  (opts : list (jsstring * option jsstring)) : Invocation :=
  {| versionFlag := false; helpFlag := false; apiKey := key;
     operands := words; given := opts |}.

(** The command a path of names leads to. *)
Fixpoint commandAt (c : Command) (path : list jsstring) : option Command :=
  match path with
  | [] => Some c
  | n :: rest =>
      match findCommand n (commands c) with
      | Some sub => commandAt sub rest
      | None => None
      end
  end.

(** What [outputHelp] of the command at [path] writes: the help of the
    command, then the listener [addHelpText ("after", text)] installed
    on that command writes [`${text}\n`], unless the text is empty. *)
Definition helpTexts (program : Command) (path : list jsstring) : list jsstring :=
  helpInformation h path
  :: match commandAt program path with
     | Some c =>
         if truthy_text (helpTextAfter c)
         then [match helpTextAfter c with Some text => text | None => [] end ++ LF]
         else []
     | None => []
     end.

Fixpoint write_each (write : jsstring -> M unit) (texts : list jsstring) : M unit :=
  match texts with
  | [] => ret tt
  | t :: rest => write t ;; write_each write rest
  end.

(** No command of the tree of [c], [c] included, was given a text after
    its help. *)
Fixpoint plain_help (c : Command) : bool :=
  match c with
  | Build_Command _ _ _ _ _ subs None => forallb plain_help subs
  | Build_Command _ _ _ _ _ _ (Some _) => false
  end.

(** [program.parseAsync (argv)]: commander writes through the sinks
    given to [configureOutput] and, under [exitOverride ()], throws a
    [CommanderError] where it would exit. *)
Definition parseAsync (rt : CliRuntime) (program : Command) (inv : Invocation)
  : M unit :=
  match parse program inv with
  | outputVersion =>
      writeOut rt (cliVersion h ++ LF) ;;
      throw (CommanderError 0%Z (js "commander.version") (cliVersion h))
  | outputHelp path =>
      write_each (writeOut rt) (helpTexts program path) ;;
      throw (CommanderError 0%Z (js "commander.helpDisplayed") (js "(outputHelp)"))
  | helpCommand path =>
      write_each (writeOut rt) (helpTexts program path) ;;
      throw (CommanderError 0%Z (js "commander.help") (js "(outputHelp)"))
  | helpAfterError path =>
      write_each (writeErr rt) (helpTexts program path) ;;
      throw (CommanderError 1%Z (js "commander.help") (js "(outputHelp)"))
  | usageError u =>
      let message := usageMessage h (usage_code u) (usage_subject u) in
      writeErr rt (message ++ LF) ;;
      throw (CommanderError 1%Z (usage_code u) message)
  | callAction l args => action l rt (program_opts inv) args
  end.

(** ** The entry point *)

Definition setObserved (code : Z) : M unit :=
  fun w => (Ret tt, set_observed code w).

Definition getObserved : M Z := fun w => (Ret (observedExitCode w), w).

Definition wrappedRt (rt : CliRuntime) : CliRuntime :=
  {| stdin := stdin rt;
     writeOut := writeOut rt;
     writeErr := writeErr rt;
     setExitCode := fun code => setObserved code ;; setExitCode rt code |}.

Definition runCli (argv : Invocation) (rt : CliRuntime) : M Z :=
  setObserved 0%Z ;;
  let wrapped := wrappedRt rt in
  let program := createProgram in
  exitCode <-
    try_catch (parseAsync wrapped program argv ;; ret 0%Z)
      (fun e =>
         match e with
         | CommanderError maybeExitCode _ _ => ret maybeExitCode
         | _ => printError wrapped e ;; ret 1%Z
         end) ;;
  observed <- getObserved ;;
  let finalExitCode := if negb (observed =? 0)%Z then observed else exitCode in
  setExitCode wrapped finalExitCode ;;
  ret finalExitCode.

(** ** Observations on a run *)

(** The world after the texts went to a sink, in order. *)
Definition emit_each (emit : jsstring -> world -> world) (texts : list jsstring)
  (w : world) : world :=
  fold_left (fun w t => emit t w) texts w.

(** The exit code the parser itself supplies. *)
Definition parser_exit_code (r : result unit) : Z :=
  match r with
  | Ret _ => 0%Z
  | Throw (CommanderError exitCode _ _) => exitCode
  | Throw _ => 1%Z
  end.

(** The SDK methods invoked by one invocation started in [w]. *)
Definition sdk_calls (argv : Invocation) (w : world) : list (jsstring * list value) :=
  calls (snd (runCli argv defaultRuntime w)).


Definition both_inputs_error : thrown :=
  JsError (js "Error") (js "Provide only one of --json or --json-file").

(** A projection of the world that neither sink nor the exit code
    touches. *)
Definition log_like {X} (f : world -> X) : Prop :=
  (forall t w, f (emit_out t w) = f w) /\
  (forall t w, f (emit_err t w) = f w) /\
  (forall c w, f (record_exit c w) = f w) /\
  (forall c w, f (set_observed c w) = f w).

Definition preserves {X A} (f : world -> X) (c : M A) : Prop :=
  forall w, f (snd (c w)) = f w.

(** What [parseAsync] lets escape. *)
Definition escapes (r : result unit) : Prop :=
  match r with
  | Ret _ => True
  | Throw (CommanderError _ _ _) => True
  | Throw (JsError _ _) => True
  | Throw _ => False
  end.

End Cli.

Arguments Ret {JSN A} a.
Arguments Throw {JSN A} e.

(** ** The version, the entry point, and what a run leaves behind *)

Section Entry.
Context {JSN : JSNumber}.
Variable h : host.

Notation "x <- c ;; k" := (bind c (fun x => k))
  (at level 61, c at next level, right associativity).
Notation "c ;; k" := (bind c (fun _ => k))
  (at level 61, right associativity).

(** The events of the input stream that [readStdinText] listens to. *)
Inductive StreamEvent :=
| data_event (chunk : jsstring)
| end_event
| error_event (e : thrown).

(** The promise of [readStdinText] over the events of [rt.stdin], from
    the [data] received so far: it settles at the first [end] or
    [error], and stays pending ([None]) when neither comes. *)
Fixpoint readStdinText_events (data : jsstring) (events : list StreamEvent)
  : option (result jsstring) :=
  match events with
  | [] => None
  | data_event chunk :: rest => readStdinText_events (data ++ chunk) rest
  | end_event :: _ => Some (Ret data)
  | error_event e :: _ => Some (Throw e)
  end.

(** [getCliVersion ()], from what [readFileSync] gives for
    [../package.json].  Inside its [try]: the read, [JSON.parse], and
    the read of [parsed.version], which throws on [null]. *)
Definition getCliVersion (package_json : result jsstring) : jsstring :=
  match package_json with
  | Throw _ => js "0.0.0"
  | Ret raw =>
      match JSON_parse raw with
      | None => js "0.0.0"
      | Some VNull => js "0.0.0"
      | Some parsed =>
          match get parsed "version" with
          | VStr version => version
          | _ => js "0.0.0"
          end
      end
  end.

(** What the last statement of the module reads of its process. *)
Record Process := {
  argv1 : option jsstring;
    (** [process.argv[1]] *)
  realpathSync : jsstring -> result jsstring;
  import_meta_url : jsstring;
  fileURLToPath : jsstring -> result jsstring;
  pathToFileURL_href : jsstring -> result jsstring;
    (** [pathToFileURL (path).href] *)
}.

(** The entry-point guard: the module runs the command line only when
    it is the script the process was started with, comparing real paths
    and, when a real path cannot be had, URLs. *)
Definition entrypoint (p : Process) (argv : Invocation) : M unit :=
  match argv1 p with
  | Some (c :: s) =>
      try_catch
        (entryReal <- lift (realpathSync p (c :: s)) ;;
         selfPath <- lift (fileURLToPath p (import_meta_url p)) ;;
         selfReal <- lift (realpathSync p selfPath) ;;
         if jsstring_eqb entryReal selfReal
         then runCli h argv (defaultRuntime h) ;; ret tt
         else ret tt)
        (fun _ =>
           entryHref <- lift (pathToFileURL_href p (c :: s)) ;;
           if jsstring_eqb (import_meta_url p) entryHref
           then runCli h argv (defaultRuntime h) ;; ret tt
           else ret tt)
  | _ => ret tt
  end.

(** *** Observations *)

(** A computation that writes one text to the output sink when it
    returns, and none when it throws. *)
Definition prints_once (c : M unit) : Prop :=
  forall w,
    match fst (c w) with
    | Ret _ => exists t, out (snd (c w)) = out w ++ [t]
    | Throw _ => out (snd (c w)) = out w
    end.

(** A computation that invokes at most one SDK method. *)
Definition calls_once {A} (c : M A) : Prop :=
  forall w,
    calls (snd (c w)) = calls w \/
    exists method args, calls (snd (c w)) = calls w ++ [(method, args)].

(** An option of the command line, when it is given. *)
Definition flag (long : string) (argument : option jsstring)
  : list (jsstring * option jsstring) :=
  match argument with
  | Some v => [(js long, Some v)]
  | None => []
  end.

(** A property of an options object, when it was supplied. *)
Definition supplied (key : string) (v : option jsstring) : list (jsstring * value) :=
  match v with
  | Some x => [(js key, VStr x)]
  | None => []
  end.

(** The value of an option declared with the converter [Number], and of
    one declared without converter: [undefined] when it is not given. *)
Definition numeric (argument : option jsstring) : value :=
  match argument with
  | Some v => VNum (Number_of_string v)
  | None => VUndefined
  end.

Definition verbatim (argument : option jsstring) : value :=
  match argument with
  | Some v => VStr v
  | None => VUndefined
  end.

(** The invocation with other command words. *)
Definition with_operands (argv : Invocation) (words : list jsstring) : Invocation :=
  {| versionFlag := versionFlag argv; helpFlag := helpFlag argv;
     apiKey := apiKey argv; operands := words; given := given argv |}.

End Entry.

(** * [scripts/generate-docs.mjs]

    The script that renders the command reference: it runs the built
    command line with [--help] for every entry of [sections] and puts
    the outputs, escaped, on one HTML page. *)

Section GenerateDocs.
Context {JSN : JSNumber}.

(** [String.prototype.replaceAll] with a string pattern, for a
    replacement text without [$]: the occurrences are found from left to
    right and do not overlap. *)
Fixpoint replaceAll_from (searchString replacement : jsstring) (skip : nat)
  (s : jsstring) : jsstring :=
  match s with
  | [] => []
  | c :: rest =>
      match skip with
      | S skip' => replaceAll_from searchString replacement skip' rest
      | O =>
          match strip_prefix searchString s with
          | Some _ =>
              replacement
              ++ replaceAll_from searchString replacement
                   (List.length searchString - 1) rest
          | None => c :: replaceAll_from searchString replacement 0 rest
          end
      end
  end.

Definition replaceAll (searchString replacement s : jsstring) : jsstring :=
  match searchString with
  | [] => replacement ++ flat_map (fun c => c :: replacement) s
  | _ :: _ => replaceAll_from searchString replacement 0 s
  end.

Definition escapeHtml (s : jsstring) : jsstring :=
  replaceAll (js "'") (js "&#39;")
    (replaceAll [QUOTE] (js "&quot;")
       (replaceAll (js ">") (js "&gt;")
          (replaceAll (js "<") (js "&lt;")
             (replaceAll (js "&") (js "&amp;") s)))).

(** The text a code unit is rendered as in HTML. *)
Definition entity (c : N) : jsstring :=
  if (c =? 38)%N then js "&amp;"
  else if (c =? 60)%N then js "&lt;"
  else if (c =? 62)%N then js "&gt;"
  else if (c =? QUOTE)%N then js "&quot;"
  else if (c =? 39)%N then js "&#39;"
  else [c].

(** The code units that delimit tags and attribute values. *)
Definition is_markup (c : N) : bool :=
  ((c =? 60) || (c =? 62) || (c =? QUOTE) || (c =? 39))%N.

(** The code units [String.prototype.trim] removes: WhiteSpace and
    LineTerminator. *)
Definition is_trimmed (c : N) : bool :=
  ((c =? 9) || (c =? 10) || (c =? 11) || (c =? 12) || (c =? 13) || (c =? 32)
   || (c =? 160) || (c =? 5760) || ((8192 <=? c) && (c <=? 8202))
   || (c =? 8232) || (c =? 8233) || (c =? 8239) || (c =? 8287)
   || (c =? 12288) || (c =? 65279))%N.

Fixpoint trimStart (s : jsstring) : jsstring :=
  match s with
  | c :: rest => if is_trimmed c then trimStart rest else s
  | [] => []
  end.

Definition trimEnd (s : jsstring) : jsstring := rev (trimStart (rev s)).

Definition trim (s : jsstring) : jsstring := trimEnd (trimStart s).

(** The class [[a-z0-9]]. *)
Definition is_slug_unit (c : N) : bool :=
  ((97 <=? c) && (c <=? 122))%N || is_digit c.

(** [.replaceAll (/[^a-z0-9]+/g, "-")]: every maximal run of code units
    outside the class becomes one dash. *)
Fixpoint dash_runs (in_run : bool) (s : jsstring) : jsstring :=
  match s with
  | [] => []
  | c :: rest =>
      if is_slug_unit c then c :: dash_runs false rest
      else if in_run then dash_runs true rest
      else 45%N :: dash_runs true rest
  end.

Fixpoint drop_final_dash (s : jsstring) : jsstring :=
  match s with
  | [] => []
  | c :: rest =>
      match rest with
      | [] => if (c =? 45)%N then [] else [c]
      | _ :: _ => c :: drop_final_dash rest
      end
  end.

(** [.replaceAll (/(^-|-$)/g, "")]: a dash at the very start and a dash
    at the very end are removed. *)
Definition trim_dashes (s : jsstring) : jsstring :=
  drop_final_dash
    match s with
    | c :: rest => if (c =? 45)%N then rest else s
    | [] => []
    end.

(** [String.prototype.toLowerCase] is Unicode's case conversion; the
    script depends on it only as some function on strings. *)
Variable toLowerCase : jsstring -> jsstring.

(** [slugify (input)], on a string. *)
Definition slugify (input : jsstring) : jsstring :=
  trim_dashes (dash_runs false (toLowerCase (trim input))).

(** The language [^[a-z0-9]+(-[a-z0-9]+)*$], and the empty string. *)
Fixpoint slug_tail (after_dash : bool) (s : jsstring) : bool :=
  match s with
  | [] => negb after_dash
  | c :: rest =>
      if is_slug_unit c then slug_tail false rest
      else if (c =? 45)%N && negb after_dash then slug_tail true rest
      else false
  end.

Definition is_slug (s : jsstring) : bool :=
  match s with
  | [] => true
  | _ :: _ => slug_tail true s
  end.

(** The same, a dash allowed at the end: what [dash_runs] yields. *)
Fixpoint spaced (after_dash : bool) (s : jsstring) : bool :=
  match s with
  | [] => true
  | c :: rest =>
      if is_slug_unit c then spaced false rest
      else if (c =? 45)%N && negb after_dash then spaced true rest
      else false
  end.

(** [readPackageVersion ()]. *)
Definition readPackageVersion (package_json : result jsstring) : option jsstring :=
  match package_json with
  | Throw _ => None
  | Ret raw =>
      match JSON_parse raw with
      | None => None
      | Some parsed =>
          match get parsed "version" with
          | VStr version => Some version
          | _ => None
          end
      end
  end.

(** [process.env.VERSION ?? readPackageVersion () ?? "0.0.0"]. *)
Definition docsVersion (VERSION : option jsstring) (package_json : result jsstring)
  : jsstring :=
  match VERSION with
  | Some v => v
  | None =>
      match readPackageVersion package_json with
      | Some v => v
      | None => js "0.0.0"
      end
  end.

(** The table of the pages to render: a title and the arguments given
    to the command line. *)
Definition sections : list (string * list string) :=
  [ ("Overview", ["--help"]);
    ("sources", ["sources"; "--help"]);
    ("sources list", ["sources"; "list"; "--help"]);
    ("sources upload", ["sources"; "upload"; "--help"]);
    ("agents", ["agents"; "--help"]);
    ("agents run", ["agents"; "run"; "--help"]);
    ("agents runs", ["agents"; "runs"; "--help"]);
    ("agents runs list", ["agents"; "runs"; "list"; "--help"]);
    ("agents runs get", ["agents"; "runs"; "get"; "--help"]);
    ("agents runs delete", ["agents"; "runs"; "delete"; "--help"]);
    ("contents", ["contents"; "--help"]);
    ("contents get", ["contents"; "get"; "--help"]);
    ("contents delete", ["contents"; "delete"; "--help"]);
    ("contents embeddings", ["contents"; "embeddings"; "--help"]) ].

(** What commander's scan yields for arguments made of command words
    and the help flag. *)
Definition section_invocation (args : list string) : Invocation :=
  {| versionFlag := false;
     helpFlag := existsb (String.eqb "--help") args;
     apiKey := None;
     operands := map js (filter (fun a => negb (String.eqb "--help" a)) args);
     given := [] |}.

End GenerateDocs.

(** ** An integer model of the number interface

    Enough of the number interface to run the development: the
    integers with [NaN].  Only integer literals are numbers here. *)

Inductive znum :=
| ZNaN
| ZInt (z : Z).

Fixpoint digits_value (acc : Z) (s : jsstring) : option Z :=
  match s with
  | [] => Some acc
  | c :: r =>
      if is_digit c then digits_value (acc * 10 + Z.of_N (c - 48)) r else None
  end.

(** Digits without a leading zero, or the single digit zero. *)
Definition json_digits (s : jsstring) : option Z :=
  match s with
  | [] => None
  | [c] => digits_value 0 [c]
  | c :: _ => if (c =? 48)%N then None else digits_value 0 s
  end.

Definition json_integer (s : jsstring) : option Z :=
  match s with
  | c :: r => if (c =? 45)%N then option_map Z.opp (json_digits r) else json_digits s
  | [] => None
  end.

(** [StringToNumber] on integer literals: the empty string is zero, a
    sign may lead, anything else is [NaN]. *)
Definition integer_of_string (s : jsstring) : znum :=
  match s with
  | [] => ZInt 0
  | c :: r =>
      let digits := if ((c =? 45) || (c =? 43))%N then r else s in
      match digits with
      | [] => ZNaN
      | _ =>
          match digits_value 0 digits with
          | Some z => ZInt (if (c =? 45)%N then - z else z)
          | None => ZNaN
          end
      end
  end.

Definition integer_toString (n : znum) : jsstring :=
  match n with
  | ZNaN => js "NaN"
  | ZInt z => js (NilZero.string_of_int (Z.to_int z))
  end.

#[export] Instance ZNumber : JSNumber := {|
  number := znum;
  NaN := ZNaN;
  Number_of_string := integer_of_string;
  Number_toString := integer_toString;
  Number_isFinite := fun n => match n with ZNaN => false | ZInt _ => true end;
  Number_toBoolean := fun n => match n with ZNaN => false | ZInt z => negb (z =? 0)%Z end;
  Number_of_byte := fun b => ZInt (Z.of_N b);
  JSON_number := fun s => option_map ZInt (json_integer s);
|}.

(** The digits of a decimal numeral, as code units. *)
Definition numerals (d : Decimal.uint) : list N := js (NilEmpty.string_of_uint d).

Definition leading_zero (d : Decimal.uint) : bool :=
  match d with Decimal.D0 _ => true | _ => false end.

(** ** A host to run invocations on

    An SDK double in the manner of the test suite: the constructor
    rejects a missing API key, every method resolves with an
    acknowledgement. *)

Definition acknowledgement : value := VObj [(js "ok", VBool true)].

Definition test_host (respond : jsstring -> list value -> result value) : host :=
  {| stdin_stream := Ret (js "[1, 2]");
     readFile_utf8 := fun path =>
       if jsstring_eqb path (js "run.json") then Ret (js "{}")
       else Throw (JsError (js "Error") (js "ENOENT: no such file or directory"));
     readFile_bytes := fun path =>
       if jsstring_eqb path (js "hello.txt") then Ret (js "hello")
       else Throw (JsError (js "Error") (js "ENOENT: no such file or directory"));
     SECLAI_API_URL := None;
     Seclai_constructor := fun opts =>
       if ToBoolean (get opts "apiKey") then None
       else Some (SeclaiConfigurationError (js "SeclaiConfigurationError")
                    (js "Missing API key"));
     has_runStreamingAgentAndWait := true;
     Seclai_method := respond;
     cliVersion := js "1.0.0";
     helpInformation := fun path =>
       js "Usage: " ++ join (js " ") (js "seclai" :: path) ++ js " [options] [command]" ++ LF;
     usageMessage := fun code subject => js "error: " ++ code ++ js " " ++ subject;
     allowExcessArguments := true;
     SyntaxError_message := fun _ => js "Unexpected token in JSON";
     TypeError_circular := js "Converting circular structure to JSON" |}.

Definition demo_host : host := test_host (fun _ _ => Ret acknowledgement).

(** The double of the test "API status errors are printed with status
    and url". *)
Definition unauthorized : thrown :=
  SeclaiAPIStatusError (js "SeclaiAPIStatusError") (js "Unauthorized") (ZInt 401)
    (js "https://example.invalid/api/sources/") (Some (js "nope")).

Definition unauthorized_host : host := test_host (fun _ _ => Throw unauthorized).

(** ** Invocations and values to run the development on *)

Definition demo_key : jsstring := js "k".
Definition demo_global : value := VObj [(js "apiKey", VStr demo_key)].

Definition sources_list_bare : Invocation :=
  invocation (Some demo_key) [js "sources"; js "list"] [].

Definition demo_detail : value := VArr [VStr (js "page")].

Definition demo_validation_failure : thrown :=
  SeclaiAPIValidationError (js "SeclaiAPIValidationError") (js "Unprocessable Entity")
    (ZInt 422) (js "https://api.seclai.com/sources") None demo_detail.

Definition demo_detail_text : jsstring :=
  js "{" ++ LF ++
  js "  " ++ [QUOTE] ++ js "validationError" ++ [QUOTE] ++ js ": [" ++ LF ++
  js "    " ++ [QUOTE] ++ js "page" ++ [QUOTE] ++ LF ++
  js "  ]" ++ LF ++
  js "}".

Definition agents_run_both : Invocation :=
  invocation (Some demo_key) [js "agents"; js "run"; js "agent-1"]
    [(js "--json", Some (js "-")); (js "--json-file", Some (js "-"))].


Definition quoted (s : string) : jsstring := [QUOTE] ++ js s ++ [QUOTE].

(** The invocations of the test suite. *)
Definition test_sources_list : Invocation :=
  invocation (Some demo_key) [js "sources"; js "list"]
    [(js "--page", Some (js "2")); (js "--limit", Some (js "10"));
     (js "--sort", Some (js "created_at")); (js "--order", Some (js "asc"));
     (js "--account-id", Some (js "9f3c2a7d-2d4a-4c8e-9d1d-3f7a2f1c0b5e"))].

Definition test_agents_run_stream : Invocation :=
  invocation (Some demo_key)
    [js "agents"; js "run"; js "6b9e2a1c-4d5f-4a7b-9c0d-1e2f3a4b5c6d"]
    [(js "--stream", None); (js "--timeout-ms", Some (js "1234"));
     (js "--json",
      Some (js "{" ++ quoted "input" ++ js ":" ++ quoted "hello" ++ js ","
            ++ quoted "metadata" ++ js ":{}}"))].

Definition test_runs_get (opts : list (jsstring * option jsstring)) : Invocation :=
  invocation (Some demo_key) [js "runs"; js "get"; js "run_1"] opts.

Definition test_missing_api_key : Invocation :=
  invocation None [js "sources"; js "list"] [].

Definition demo_value : value :=
  VObj [(js "data", VArr [VNum (ZInt 1); VNull; VStr (js "a" ++ [QUOTE; 10%N])]);
        (js "pagination", VObj [(js "page", VNum (ZInt (-2)))]);
        (js "ok", VBool true)].

(** The text of [demo_value], as [JSON.stringify (value, null, 2)]
    lays it out. *)
Definition demo_value_text : jsstring :=
  js "{" ++ LF ++
  js "  " ++ quoted "data" ++ js ": [" ++ LF ++
  js "    1," ++ LF ++
  js "    null," ++ LF ++
  js "    " ++ [QUOTE] ++ js "a" ++ [BACKSLASH; QUOTE; BACKSLASH] ++ js "n" ++ [QUOTE] ++ LF ++
  js "  ]," ++ LF ++
  js "  " ++ quoted "pagination" ++ js ": {" ++ LF ++
  js "    " ++ quoted "page" ++ js ": -2" ++ LF ++
  js "  }," ++ LF ++
  js "  " ++ quoted "ok" ++ js ": true" ++ LF ++
  js "}".


(** What [contents delete] prints. *)
Definition ok_text : jsstring :=
  js "{" ++ LF ++ js "  " ++ quoted "ok" ++ js ": true" ++ LF ++ js "}".

(** A host with another standard input, and one whose SDK lacks
    [runStreamingAgentAndWait]. *)
Definition with_stdin (input : result jsstring) (h : host) : host :=
  {| stdin_stream := input;
     readFile_utf8 := readFile_utf8 h;
     readFile_bytes := readFile_bytes h;
     SECLAI_API_URL := SECLAI_API_URL h;
     Seclai_constructor := Seclai_constructor h;
     has_runStreamingAgentAndWait := has_runStreamingAgentAndWait h;
     Seclai_method := Seclai_method h;
     cliVersion := cliVersion h;
     helpInformation := helpInformation h;
     usageMessage := usageMessage h;
     allowExcessArguments := allowExcessArguments h;
     SyntaxError_message := SyntaxError_message h;
     TypeError_circular := TypeError_circular h |}.


(** An SDK whose methods resolve with [undefined]. *)
Definition silent_host : host := test_host (fun _ _ => Ret VUndefined).

Definition piped_value : value :=
  VObj [(js "input", VStr (js "hello")); (js "metadata", VObj [])].

Definition piped_text : jsstring :=
  js "{" ++ LF ++
  js "  " ++ quoted "input" ++ js ": " ++ quoted "hello" ++ js "," ++ LF ++
  js "  " ++ quoted "metadata" ++ js ": {}" ++ LF ++
  js "}".

Definition piped_host : host := with_stdin (Ret (piped_text ++ LF)) demo_host.

Definition demo_package : list (jsstring * value) :=
  [(js "name", VStr (js "@seclai/cli")); (js "version", VStr (js "1.2.3"))].

Definition demo_package_text : jsstring :=
  js "{" ++ LF ++
  js "  " ++ quoted "name" ++ js ": " ++ quoted "@seclai/cli" ++ js "," ++ LF ++
  js "  " ++ quoted "version" ++ js ": " ++ quoted "1.2.3" ++ LF ++
  js "}".

(** A process started on a symbolic link to the module. *)
Definition linked_process : Process :=
  {| argv1 := Some (js "/usr/local/bin/seclai");
     realpathSync := fun path =>
       if jsstring_eqb path (js "/usr/local/bin/seclai")
          || jsstring_eqb path (js "/lib/cli/dist/cli.js")
       then Ret (js "/lib/cli/dist/cli.js")
       else Throw (JsError (js "Error") (js "ENOENT: no such file or directory"));
     import_meta_url := js "file:///lib/cli/dist/cli.js";
     fileURLToPath := fun url =>
       match strip_prefix (js "file://") url with
       | Some path => Ret path
       | None => Throw (JsError (js "TypeError") (js "The URL must be of scheme file"))
       end;
     pathToFileURL_href := fun path => Ret (js "file://" ++ path) |}.

(** [toLowerCase] on ASCII. *)
Definition ascii_toLowerCase (s : jsstring) : jsstring :=
  map (fun c => if ((65 <=? c) && (c <=? 90))%N then (c + 32)%N else c) s.

(** * Proofs *)

Section JsonRoundTrip.
Context {JSN : JSNumber}.

(** ** Strings read back *)

Lemma hex_value_digit d : (d < 16)%N -> hex_value (hex_digit d) = Some d.
Proof.
  intros H. unfold hex_digit.
  destruct (N.ltb_spec d 10).
  - unfold hex_value, is_digit.
    replace ((48 <=? 48 + d)%N) with true by (symmetry; apply N.leb_le; lia).
    replace ((48 + d <=? 57)%N) with true by (symmetry; apply N.leb_le; lia).
    cbn [andb]. f_equal. lia.
  - unfold hex_value, is_digit.
    replace ((87 + d <=? 57)%N) with false by (symmetry; apply N.leb_gt; lia).
    rewrite andb_false_r.
    replace ((97 <=? 87 + d)%N) with true by (symmetry; apply N.leb_le; lia).
    replace ((87 + d <=? 102)%N) with true by (symmetry; apply N.leb_le; lia).
    cbn [andb]. f_equal. lia.
Qed.

Lemma hex4_escape c : (c < 65536)%N ->
  hex4 (hex_digit ((c / 4096) mod 16)) (hex_digit ((c / 256) mod 16))
       (hex_digit ((c / 16) mod 16)) (hex_digit (c mod 16)) = Some c.
Proof.
  intros H. unfold hex4.
  rewrite !hex_value_digit by (apply N.mod_lt; discriminate).
  f_equal.
  pose proof (N.div_mod c 16 ltac:(discriminate)).
  pose proof (N.div_mod (c / 16) 16 ltac:(discriminate)).
  pose proof (N.div_mod (c / 256) 16 ltac:(discriminate)).
  pose proof (N.div_mod (c / 4096) 16 ltac:(discriminate)).
  assert (c / 256 = c / 16 / 16)%N by (rewrite N.Div0.div_div; reflexivity).
  assert (c / 4096 = c / 256 / 16)%N by (rewrite N.Div0.div_div; reflexivity).
  assert (c / 4096 < 16)%N by (apply N.Div0.div_lt_upper_bound; lia).
  assert ((c / 4096) mod 16 = c / 4096)%N by (apply N.mod_small; lia).
  lia.
Qed.

Lemma parse_chars_escape_u a b c d r :
  parse_chars (BACKSLASH :: 117%N :: a :: b :: c :: d :: r) =
  match hex4 a b c d with
  | Some u => cons_fst u (parse_chars r)
  | None => None
  end.
Proof. reflexivity. Qed.

Lemma parse_chars_literal c r :
  (c =? QUOTE)%N = false -> (c =? BACKSLASH)%N = false -> (c <? 32)%N = false ->
  parse_chars (c :: r) = cons_fst c (parse_chars r).
Proof.
  intros H1 H2 H3. cbn [parse_chars]. rewrite H1, H2, H3. reflexivity.
Qed.

Lemma parse_chars_quote_unit c tail s rest :
  parse_chars tail = Some (s, rest) ->
  parse_chars (quote_unit c ++ tail) = Some (c :: s, rest).
Proof.
  intros Ht. unfold quote_unit.
  repeat match goal with
  | |- context [(c =? ?k)%N] =>
      destruct (N.eqb_spec c k);
      [subst c; cbn; rewrite Ht; reflexivity|]
  end.
  destruct ((c <? 32)%N || is_high_surrogate c || is_low_surrogate c) eqn:E.
  - assert (c < 65536)%N as Hc.
    { unfold is_high_surrogate, is_low_surrogate in E.
      repeat rewrite orb_true_iff in E. repeat rewrite andb_true_iff in E.
      rewrite N.ltb_lt in E. repeat rewrite N.leb_le in E. lia. }
    unfold UnicodeEscape. cbn [app].
    rewrite parse_chars_escape_u, hex4_escape by exact Hc. rewrite Ht. reflexivity.
  - apply orb_false_iff in E. destruct E as [E _].
    apply orb_false_iff in E. destruct E as [E _].
    cbn [app]. rewrite parse_chars_literal, Ht; auto; apply N.eqb_neq; assumption.
Qed.

Lemma quote_body_pair c d s :
  quote_body (c :: d :: s) =
  if is_high_surrogate c && is_low_surrogate d
  then c :: d :: quote_body s
  else quote_unit c ++ quote_body (d :: s).
Proof. reflexivity. Qed.

Lemma parse_chars_quote_body_n n : forall s rest,
  List.length s <= n ->
  parse_chars (quote_body s ++ QUOTE :: rest) = Some (s, rest).
Proof.
  induction n as [|n IH]; intros s rest Hlen.
  - destruct s; [reflexivity | cbn in Hlen; lia].
  - destruct s as [|c [|d s']].
    + reflexivity.
    + cbn [quote_body]. apply parse_chars_quote_unit. reflexivity.
    + rewrite quote_body_pair.
      destruct (is_high_surrogate c && is_low_surrogate d) eqn:E.
      * apply andb_true_iff in E. destruct E as [Ec Ed].
        unfold is_high_surrogate in Ec. unfold is_low_surrogate in Ed.
        apply andb_true_iff in Ec. apply andb_true_iff in Ed.
        rewrite !N.leb_le in Ec, Ed.
        cbn [app].
        rewrite parse_chars_literal;
          [| apply N.eqb_neq; unfold QUOTE; lia
           | apply N.eqb_neq; unfold BACKSLASH; lia
           | apply N.ltb_ge; lia].
        rewrite parse_chars_literal;
          [| apply N.eqb_neq; unfold QUOTE; lia
           | apply N.eqb_neq; unfold BACKSLASH; lia
           | apply N.ltb_ge; lia].
        rewrite IH by (cbn in Hlen; lia). reflexivity.
      * rewrite <- app_assoc. apply parse_chars_quote_unit.
        apply IH. cbn in Hlen |- *. lia.
Qed.

Lemma parse_chars_quote_body s rest :
  parse_chars (quote_body s ++ QUOTE :: rest) = Some (s, rest).
Proof. eapply parse_chars_quote_body_n. apply le_n. Qed.

Lemma skip_ws_app w s : forallb is_ws w = true -> skip_ws (w ++ s) = skip_ws s.
Proof.
  induction w as [|c w IH]; cbn; auto.
  intros H. apply andb_true_iff in H. destruct H as [Hc Hw]. rewrite Hc. auto.
Qed.

Lemma skip_ws_cons c s : is_ws c = true -> skip_ws (c :: s) = skip_ws s.
Proof. intros H. cbn. rewrite H. reflexivity. Qed.

Lemma skip_ws_start c s : is_ws c = false -> skip_ws (c :: s) = c :: s.
Proof. intros H. cbn. rewrite H. reflexivity. Qed.

Lemma value_start_not_ws c : value_start c = true -> is_ws c = false.
Proof.
  unfold value_start, is_ws, is_digit, QUOTE. intros H.
  repeat rewrite orb_true_iff in H. rewrite andb_true_iff in H.
  repeat rewrite N.eqb_eq in H. rewrite !N.leb_le in H.
  repeat rewrite orb_false_iff. repeat rewrite N.eqb_neq. lia.
Qed.

Lemma span_num_token t rest :
  forallb is_numchar t = true -> ends_token rest -> span_num (t ++ rest) = (t, rest).
Proof.
  intros Ht Hr. induction t as [|c t IH]; cbn [span_num app].
  - destruct rest as [|c r]; auto. cbn [ends_token] in Hr. cbn [span_num].
    rewrite Hr. reflexivity.
  - cbn [forallb] in Ht. apply andb_true_iff in Ht. destruct Ht as [Hc Ht].
    rewrite Hc, (IH Ht). reflexivity.
Qed.

Lemma reads_back_num n :
  Number_isFinite n = true ->
  numeral (Number_toString n) = true ->
  JSON_number (Number_toString n) = Some n ->
  reads_back (VNum n) (Number_toString n).
Proof.
  intros Hf Hn Hp. unfold numeral in Hn.
  destruct (Number_toString n) as [|c t] eqn:E; [discriminate|].
  apply andb_true_iff in Hn. destruct Hn as [Hc Hall].
  split; [|split].
  - exists c, t. split; auto. unfold value_start.
    apply orb_true_iff in Hc. destruct Hc as [Hc|Hc]; rewrite Hc;
      repeat rewrite orb_true_r; reflexivity.
  - cbn. lia.
  - intros fuel rest Hfuel Hrest. destruct fuel as [|fuel]; [cbn in Hfuel; lia|].
    assert (c <> QUOTE /\ c <> 91 /\ c <> 123)%N as (H1 & H2 & H3).
    { unfold is_digit, QUOTE in *. apply orb_true_iff in Hc.
      rewrite N.eqb_eq, andb_true_iff, !N.leb_le in Hc. lia. }
    cbn [parse_value app].
    apply N.eqb_neq in H1, H2, H3. rewrite H1, H2, H3, Hc.
    change (c :: t ++ rest) with ((c :: t) ++ rest).
    rewrite (span_num_token (c :: t) rest Hall Hrest), Hp. reflexivity.
Qed.

Lemma reads_back_null : reads_back VNull (js "null").
Proof.
  split; [|split].
  - eexists _, _. split; reflexivity.
  - cbn. lia.
  - intros [|fuel] rest Hf _; [cbn in Hf; lia|]. reflexivity.
Qed.

Lemma reads_back_true : reads_back (VBool true) (js "true").
Proof.
  split; [|split].
  - eexists _, _. split; reflexivity.
  - cbn. lia.
  - intros [|fuel] rest Hf _; [cbn in Hf; lia|]. reflexivity.
Qed.

Lemma reads_back_false : reads_back (VBool false) (js "false").
Proof.
  split; [|split].
  - eexists _, _. split; reflexivity.
  - cbn. lia.
  - intros [|fuel] rest Hf _; [cbn in Hf; lia|]. reflexivity.
Qed.

Lemma reads_back_str s : reads_back (VStr s) (QuoteJSONString s).
Proof.
  split; [|split].
  - eexists _, _. split; reflexivity.
  - cbn. lia.
  - intros [|fuel] rest Hf _; [cbn in Hf; lia|].
    unfold QuoteJSONString. cbn [app parse_value]. rewrite N.eqb_refl.
    rewrite <- app_assoc. cbn [app].
    rewrite parse_chars_quote_body. reflexivity.
Qed.

Lemma ws_not_numchar c : is_ws c = true -> is_numchar c = false.
Proof.
  unfold is_ws, is_numchar, is_digit. intros H.
  repeat rewrite orb_true_iff in H. repeat rewrite N.eqb_eq in H.
  repeat rewrite orb_false_iff. rewrite andb_false_iff, !N.leb_gt.
  repeat rewrite N.eqb_neq. lia.
Qed.

Lemma ends_token_ws w c r :
  forallb is_ws w = true -> is_numchar c = false -> ends_token (w ++ c :: r).
Proof.
  destruct w as [|x w]; cbn [app ends_token forallb]; auto.
  intros H _. apply andb_true_iff in H. apply ws_not_numchar, H.
Qed.

Lemma value_start_not_close c :
  value_start c = true -> (c =? 93)%N = false /\ (c =? 125)%N = false.
Proof.
  unfold value_start, is_digit, QUOTE. intros H.
  repeat rewrite orb_true_iff in H. rewrite andb_true_iff in H.
  repeat rewrite N.eqb_eq in H. rewrite !N.leb_le in H.
  repeat rewrite N.eqb_neq. lia.
Qed.

Lemma join_cons_starts sep t ts :
  starts_value t -> exists c r, join sep (t :: ts) = c :: r /\ value_start c = true.
Proof.
  intros (c & t' & -> & Hc). destruct ts; cbn [join app]; eauto.
Qed.

(** Reading back the elements of a non-empty array. *)
Lemma parse_elements_join items : forall partial,
  Forall2 reads_back items partial ->
  items <> [] ->
  forall indent stepback fuel rest,
    forallb is_ws indent = true -> forallb is_ws stepback = true ->
    total (map (fun x => S (size x)) items) < fuel ->
    parse_elements fuel
      (join (44 :: 10 :: indent)%N partial ++ 10%N :: stepback ++ 93%N :: rest)
    = Some (items, rest).
Proof.
  induction items as [|x items IH]; intros partial HF Hne; [congruence|].
  inversion HF as [|? t ? ts Hx Hrest]; subst. clear Hne.
  intros indent stepback fuel rest Hi Hs Hfuel.
  destruct fuel as [|fuel]; [lia|].
  destruct Hx as (Hstart & Hlen & Hparse).
  destruct items as [|x2 items]; cbn [map total] in Hfuel.
  - inversion Hrest; subst. cbn [join parse_elements].
    rewrite Hparse;
      [| lia | apply (ends_token_ws (10%N :: stepback)); [exact Hs|reflexivity]].
    rewrite skip_ws_cons, skip_ws_app by (reflexivity || exact Hs). reflexivity.
  - inversion Hrest as [|? t2 ? ts2 Hx2 Hrest2]; subst.
    change (join (44 :: 10 :: indent)%N (t :: t2 :: ts2))
      with (t ++ (44 :: 10 :: indent)%N ++ join (44 :: 10 :: indent)%N (t2 :: ts2)).
    rewrite <- !app_assoc. cbn [parse_elements app].
    rewrite Hparse; [| lia | reflexivity].
    rewrite skip_ws_start by reflexivity. rewrite N.eqb_refl.
    destruct (join_cons_starts (44 :: 10 :: indent)%N t2 ts2 (proj1 Hx2))
      as (c & r & Ej & Hc).
    rewrite skip_ws_cons, skip_ws_app by (reflexivity || exact Hi).
    rewrite Ej. cbn [app]. rewrite skip_ws_start by (apply value_start_not_ws, Hc).
    change (c :: r ++ 10%N :: stepback ++ 93%N :: rest)
      with ((c :: r) ++ 10%N :: stepback ++ 93%N :: rest).
    rewrite <- Ej.
    rewrite (IH _ Hrest ltac:(discriminate) indent stepback fuel rest Hi Hs);
      [reflexivity|].
    cbn [map total] in *. lia.
Qed.

Lemma member_text_app k t tail :
  (QuoteJSONString k ++ 58 :: 32 :: t)%N ++ tail
  = (QUOTE :: quote_body k ++ QUOTE :: 58 :: 32 :: t ++ tail)%N.
Proof.
  unfold QuoteJSONString. cbn [app]. rewrite <- !app_assoc. reflexivity.
Qed.

(** Reading back the members of a non-empty object. *)
Lemma parse_members_join props : forall partial,
  Forall2 member_reads_back props partial ->
  props <> [] ->
  forall indent stepback fuel rest,
    forallb is_ws indent = true -> forallb is_ws stepback = true ->
    total (map (fun kv => S (size (snd kv))) props) < fuel ->
    parse_members fuel
      (join (44 :: 10 :: indent)%N partial ++ 10%N :: stepback ++ 125%N :: rest)
    = Some (props, rest).
Proof.
  induction props as [|[k x] props IH]; intros partial HF Hne; [congruence|].
  inversion HF as [|? m ? ms Hx Hrest]; subst. clear Hne.
  intros indent stepback fuel rest Hi Hs Hfuel.
  destruct fuel as [|fuel]; [lia|].
  destruct Hx as (t & -> & (Hstart & Hlen & Hparse)). cbn [fst snd] in *.
  destruct Hstart as (c & t' & -> & Hc).
  destruct props as [|[k2 x2] props]; cbn [map total snd] in Hfuel.
  - inversion Hrest; subst. cbn [join]. rewrite member_text_app.
    cbn [parse_members]. rewrite N.eqb_refl, parse_chars_quote_body.
    rewrite skip_ws_start by reflexivity. rewrite N.eqb_refl.
    rewrite skip_ws_cons by reflexivity.
    cbn [app]. rewrite skip_ws_start by (apply value_start_not_ws, Hc).
    change (c :: t' ++ 10%N :: stepback ++ 125%N :: rest)
      with ((c :: t') ++ 10%N :: stepback ++ 125%N :: rest).
    rewrite Hparse;
      [| lia | apply (ends_token_ws (10%N :: stepback)); [exact Hs|reflexivity]].
    rewrite skip_ws_cons, skip_ws_app by (reflexivity || exact Hs). reflexivity.
  - inversion Hrest as [|? m2 ? ms2 Hx2 Hrest2]; subst.
    change (join (44 :: 10 :: indent)%N
              ((QuoteJSONString k ++ 58 :: 32 :: c :: t')%N :: m2 :: ms2))
      with ((QuoteJSONString k ++ 58 :: 32 :: c :: t')%N
            ++ (44 :: 10 :: indent)%N ++ join (44 :: 10 :: indent)%N (m2 :: ms2)).
    rewrite <- (app_assoc (QuoteJSONString k ++ 58 :: 32 :: c :: t')%N).
    rewrite member_text_app. rewrite <- !app_assoc.
    cbn [parse_members]. rewrite N.eqb_refl, parse_chars_quote_body.
    rewrite skip_ws_start by reflexivity. rewrite N.eqb_refl.
    rewrite skip_ws_cons by reflexivity.
    cbn [app]. rewrite skip_ws_start by (apply value_start_not_ws, Hc).
    match goal with |- context [parse_value fuel (c :: t' ++ ?tail)] =>
      change (c :: t' ++ tail) with ((c :: t') ++ tail) end.
    rewrite Hparse; [| lia | reflexivity].
    rewrite skip_ws_start by reflexivity. rewrite N.eqb_refl.
    rewrite skip_ws_cons, skip_ws_app by (reflexivity || exact Hi).
    destruct Hx2 as (t2 & -> & Hx2).
    assert (forall tail, skip_ws (join (44 :: 10 :: indent)%N
              ((QuoteJSONString (fst (k2, x2)) ++ 58 :: 32 :: t2)%N :: ms2) ++ tail)
            = join (44 :: 10 :: indent)%N
              ((QuoteJSONString (fst (k2, x2)) ++ 58 :: 32 :: t2)%N :: ms2) ++ tail) as Hskip.
    { intros tail. destruct ms2; cbn [join fst]; unfold QuoteJSONString;
        cbn [app]; apply skip_ws_start; reflexivity. }
    rewrite Hskip.
    pose proof (IH _ Hrest ltac:(discriminate) indent stepback fuel rest Hi Hs) as HI.
    rewrite HI;
      [reflexivity|].
    cbn [map total snd] in *. lia.
Qed.

Lemma jsstring_eqb_eq a : forall b, jsstring_eqb a b = true <-> a = b.
Proof.
  induction a as [|x a IH]; intros [|y b]; cbn; try (split; congruence).
  rewrite andb_true_iff, N.eqb_eq, IH. split.
  - intros [-> ->]. reflexivity.
  - intros E. inversion E. auto.
Qed.

Lemma obj_set_fresh k v acc :
  ~ In k (map fst acc) -> obj_set k v acc = acc ++ [(k, v)].
Proof.
  induction acc as [|[k' v'] acc IH]; cbn [obj_set map fst In app]; auto.
  intros Hn. destruct (jsstring_eqb k k') eqn:E.
  - apply jsstring_eqb_eq in E. subst. tauto.
  - rewrite IH by tauto. reflexivity.
Qed.

Lemma build_object_fresh members : forall acc,
  NoDup (map fst acc ++ map fst members) ->
  fold_left (fun a kv => obj_set (fst kv) (snd kv) a) members acc = acc ++ members.
Proof.
  induction members as [|[k v] members IH]; intros acc Hnd; cbn [fold_left fst snd map] in *.
  - rewrite app_nil_r. reflexivity.
  - rewrite obj_set_fresh.
    + rewrite IH.
      * rewrite <- app_assoc. reflexivity.
      * rewrite map_app. cbn [map fst]. rewrite <- app_assoc. exact Hnd.
    + apply NoDup_remove_2 in Hnd. intros Hin. apply Hnd, in_or_app. auto.
Qed.

Lemma build_object_unique props :
  NoDup (map fst props) -> build_object props = VObj props.
Proof.
  intros H. unfold build_object. f_equal.
  apply (build_object_fresh props []). exact H.
Qed.

Lemma Serialize_array stepback items :
  SerializeJSONProperty stepback (VArr items) =
  match array_partial (stepback ++ gap) items with
  | None => Cyclic
  | Some partial => Text (wrap (js "[") (js "]") stepback (stepback ++ gap) partial)
  end.
Proof. reflexivity. Qed.

Lemma Serialize_object stepback props :
  SerializeJSONProperty stepback (VObj props) =
  match object_partial (stepback ++ gap) props with
  | None => Cyclic
  | Some partial => Text (wrap (js "{") (js "}") stepback (stepback ++ gap) partial)
  end.
Proof. reflexivity. Qed.

Lemma array_partial_reads_back indent items :
  Forall (fun x => exists t, SerializeJSONProperty indent x = Text t /\ reads_back x t)
    items ->
  exists partial,
    array_partial indent items = Some partial /\ Forall2 reads_back items partial.
Proof.
  induction 1 as [|x items (t & Et & Ht) _ (partial & Ep & Hp)].
  - exists []. split; [reflexivity | constructor].
  - exists (t :: partial). split; [| constructor; assumption].
    cbn [array_partial]. rewrite Et. fold (array_partial indent). rewrite Ep. reflexivity.
Qed.

Lemma object_partial_reads_back indent props :
  Forall (fun kv => exists t, SerializeJSONProperty indent (snd kv) = Text t
                              /\ reads_back (snd kv) t) props ->
  exists partial,
    object_partial indent props = Some partial /\
    Forall2 member_reads_back props partial.
Proof.
  induction 1 as [|[k x] props (t & Et & Ht) _ (partial & Ep & Hp)].
  - exists []. split; [reflexivity | constructor].
  - exists ((QuoteJSONString k ++ js ": " ++ t) :: partial).
    split; [| constructor; [exists t; split; [reflexivity | exact Ht] | assumption]].
    cbn [object_partial]. cbn [snd] in Et. rewrite Et.
    fold (object_partial indent). rewrite Ep. reflexivity.
Qed.

Lemma join_length {A} (f : A -> nat) sep (l : list A) : forall partial,
  Forall2 (fun x t => f x <= List.length t) l partial ->
  1 <= List.length sep ->
  total (map (fun x => S (f x)) l) <= S (List.length (join sep partial)).
Proof.
  induction l as [|x l IH]; intros partial HF Hsep; inversion HF as [|? t ? ts Hx Hr]; subst.
  - cbn. lia.
  - specialize (IH _ Hr Hsep). cbn [map total] in *.
    destruct ts as [|t2 ts].
    + inversion Hr; subst. cbn in *. lia.
    + change (join sep (t :: t2 :: ts)) with (t ++ sep ++ join sep (t2 :: ts)).
      rewrite !length_app. lia.
Qed.

Lemma wrap_nonempty open close stepback indent p ps :
  wrap open close stepback indent (p :: ps)
  = open ++ 10%N :: indent ++ join (44 :: 10 :: indent)%N (p :: ps)
    ++ 10%N :: stepback ++ close.
Proof. reflexivity. Qed.

Lemma ws_indent stepback :
  forallb is_ws stepback = true -> forallb is_ws (stepback ++ gap) = true.
Proof. intros H. rewrite forallb_app, H. reflexivity. Qed.

(** Every serializable value is rendered as a text that reads back as
    the value, whatever follows it. *)
Lemma serialize_reads_back v :
  JSONSerializable v ->
  forall stepback, forallb is_ws stepback = true ->
  exists t, SerializeJSONProperty stepback v = Text t /\ reads_back v t.
Proof.
  induction v as [| |b|n|s|items IH|props IH|bs|] using value_ind;
    intros Hser stepback Hws; inversion Hser; subst.
  - exists (js "null"). split; [reflexivity | apply reads_back_null].
  - destruct b.
    + exists (js "true"). split; [reflexivity | apply reads_back_true].
    + exists (js "false"). split; [reflexivity | apply reads_back_false].
  - exists (Number_toString n). split.
    + cbn [SerializeJSONProperty]. unfold serialize_number.
      match goal with H : Number_isFinite n = true |- _ => rewrite H end. reflexivity.
    + apply reads_back_num; assumption.
  - exists (QuoteJSONString s). split; [reflexivity | apply reads_back_str].
  - (* arrays *)
    pose proof (ws_indent stepback Hws) as Hi.
    destruct (array_partial_reads_back (stepback ++ gap) items) as (partial & Ep & Hp).
    { rewrite Forall_forall in *. intros x Hx. apply IH; auto. }
    rewrite Serialize_array, Ep. eexists. split; [reflexivity|].
    destruct Hp as [|x t items ts Hx Hrest].
    + split; [|split].
      * eexists _, _. split; reflexivity.
      * cbn. lia.
      * intros [|fuel] rest Hf _; [cbn in Hf; lia|]. reflexivity.
    + assert (Forall2 reads_back (x :: items) (t :: ts)) as HF by (constructor; assumption).
      rewrite wrap_nonempty. split; [|split].
      * eexists _, _. split; reflexivity.
      * pose proof (join_length size (44 :: 10 :: stepback ++ gap)%N (x :: items) (t :: ts)) as Hl.
        cbn [size]. cbn [js list_ascii_of_string map app List.length].
        rewrite !length_app. cbn [List.length].
        assert (Forall2 (fun x t => size x <= List.length t) (x :: items) (t :: ts)) as HF'.
        { eapply Forall2_impl; [|exact HF]. intros a b0 (_ & Hab & _). exact Hab. }
        specialize (Hl HF' ltac:(cbn; lia)). cbn [map total] in Hl |- *. lia.
      * intros [|fuel] rest Hf _; [cbn in Hf; lia|].
        cbn [size] in Hf.
        destruct (join_cons_starts (44 :: 10 :: stepback ++ gap)%N t ts (proj1 Hx))
          as (c & r & Ej & Hc).
        destruct (value_start_not_close c Hc) as [Hc1 _].
        cbn [js list_ascii_of_string map app parse_value].
        change (N_of_ascii "[") with 91%N. change (N_of_ascii "]") with 93%N.
        cbn [N.eqb Pos.eqb QUOTE].
        rewrite <- !app_assoc.
        rewrite skip_ws_cons, skip_ws_app, skip_ws_app by (reflexivity || exact Hws).
        rewrite Ej. cbn [app]. rewrite skip_ws_start by (apply value_start_not_ws, Hc).
        rewrite Hc1.
        match goal with |- context [parse_elements fuel (c :: r ++ ?tail)] =>
          change (c :: r ++ tail) with ((c :: r) ++ tail) end.
        rewrite <- Ej. rewrite <- ?app_assoc. cbn [app].
        rewrite (parse_elements_join (x :: items) (t :: ts) HF ltac:(discriminate)
                   (stepback ++ gap) stepback fuel rest Hi Hws); [reflexivity | lia].
  - (* objects *)
    pose proof (ws_indent stepback Hws) as Hi.
    destruct (object_partial_reads_back (stepback ++ gap) props) as (partial & Ep & Hp).
    { rewrite Forall_forall in *. intros kv Hkv. apply IH; auto. }
    rewrite Serialize_object, Ep. eexists. split; [reflexivity|].
    destruct Hp as [|kv m props ms Hx Hrest].
    + split; [|split].
      * eexists _, _. split; reflexivity.
      * cbn. lia.
      * intros [|fuel] rest Hf _; [cbn in Hf; lia|]. reflexivity.
    + assert (Forall2 member_reads_back (kv :: props) (m :: ms)) as HF
        by (constructor; assumption).
      rewrite wrap_nonempty. split; [|split].
      * eexists _, _. split; reflexivity.
      * pose proof (join_length (fun kv => size (snd kv)) (44 :: 10 :: stepback ++ gap)%N
                      (kv :: props) (m :: ms)) as Hl.
        cbn [size]. cbn [js list_ascii_of_string map app List.length].
        rewrite !length_app. cbn [List.length].
        assert (Forall2 (fun kv t => size (snd kv) <= List.length t) (kv :: props) (m :: ms))
          as HF'.
        { eapply Forall2_impl; [|exact HF]. intros a b0 (t0 & -> & (_ & Hab & _)).
          rewrite length_app. cbn [List.length]. lia. }
        specialize (Hl HF' ltac:(cbn; lia)). cbn [map total] in Hl |- *. lia.
      * intros [|fuel] rest Hf _; [cbn in Hf; lia|].
        cbn [size] in Hf.
        assert (exists r, join (44 :: 10 :: stepback ++ gap)%N (m :: ms) = QUOTE :: r)
          as (r & Ej).
        { destruct Hx as (t0 & -> & _). unfold QuoteJSONString.
          destruct ms; cbn [join app]; eauto. }
        cbn [js list_ascii_of_string map app parse_value].
        change (N_of_ascii "{") with 123%N. change (N_of_ascii "}") with 125%N.
        cbn [N.eqb Pos.eqb QUOTE].
        rewrite <- !app_assoc.
        rewrite skip_ws_cons, skip_ws_app, skip_ws_app by (reflexivity || exact Hws).
        rewrite Ej. cbn [app]. rewrite skip_ws_start by reflexivity.
        replace ((QUOTE =? 125)%N) with false by reflexivity.
        match goal with |- context [parse_members fuel (QUOTE :: r ++ ?tail)] =>
          change (QUOTE :: r ++ tail) with ((QUOTE :: r) ++ tail) end.
        rewrite <- Ej. rewrite <- ?app_assoc. cbn [app].
        rewrite (parse_members_join (kv :: props) (m :: ms) HF ltac:(discriminate)
                   (stepback ++ gap) stepback fuel rest Hi Hws); [|lia].
        rewrite build_object_unique by assumption. reflexivity.
Qed.

Lemma indentation_S depth : indentation (S depth) = indentation depth ++ gap.
Proof.
  unfold indentation. replace (2 * S depth) with (2 * depth + 2) by lia.
  rewrite repeat_app. reflexivity.
Qed.

Lemma join_lines indent p ps :
  join (js ",") (map (fun item => LF ++ indent ++ item) (p :: ps))
  = LF ++ indent ++ join (js "," ++ LF ++ indent) (p :: ps).
Proof.
  revert p. induction ps as [|q ps IH]; intros p.
  - reflexivity.
  - change (join (js ",") (map (fun item => LF ++ indent ++ item) (p :: q :: ps)))
      with ((LF ++ indent ++ p) ++ js ","
            ++ join (js ",") (map (fun item => LF ++ indent ++ item) (q :: ps))).
    rewrite IH.
    change (join (js "," ++ LF ++ indent) (p :: q :: ps))
      with (p ++ (js "," ++ LF ++ indent) ++ join (js "," ++ LF ++ indent) (q :: ps)).
    rewrite <- !app_assoc. reflexivity.
Qed.

Lemma block_wrap open close depth items :
  block open close depth items
  = wrap open close (indentation depth) (indentation depth ++ gap) items.
Proof.
  destruct items as [|p ps]; [reflexivity|].
  unfold block, wrap. rewrite join_lines, indentation_S, <- !app_assoc. reflexivity.
Qed.

(** [JSON.stringify (value, null, 2)] is the pretty-printed JSON of the
    specification. *)
Lemma stringify_pretty_printed v :
  JSONSerializable v ->
  forall depth, SerializeJSONProperty (indentation depth) v = Text (pretty_printed depth v).
Proof.
  induction v as [| |b|n|s|items IH|props IH|bs|] using value_ind;
    intros Hser depth; inversion Hser; subst.
  - reflexivity.
  - destruct b; reflexivity.
  - cbn [SerializeJSONProperty pretty_printed]. unfold serialize_number.
    match goal with H : Number_isFinite n = true |- _ => rewrite H end. reflexivity.
  - reflexivity.
  - rewrite Serialize_array. cbn [pretty_printed]. rewrite block_wrap.
    assert (array_partial (indentation depth ++ gap) items
            = Some (map (pretty_printed (S depth)) items)) as ->; [|reflexivity].
    rewrite <- indentation_S.
    match goal with H : Forall JSONSerializable items |- _ => revert H end. clear Hser.
    induction IH as [|x items Hx _ IHitems]; intros Hall; [reflexivity|].
    inversion Hall; subst.
    cbn [array_partial map]. rewrite Hx by assumption.
    fold (array_partial (indentation (S depth))). rewrite IHitems by assumption. reflexivity.
  - rewrite Serialize_object. cbn [pretty_printed]. rewrite block_wrap.
    assert (object_partial (indentation depth ++ gap) props
            = Some (map (fun '(key, x) =>
                           QuoteJSONString key ++ js ": " ++ pretty_printed (S depth) x) props))
      as ->; [|reflexivity].
    rewrite <- indentation_S.
    match goal with H : Forall _ props |- _ => revert H end.
    match goal with H : NoDup _ |- _ => clear H end. clear Hser.
    induction IH as [|[k x] props Hx _ IHprops]; intros Hall; [reflexivity|].
    inversion Hall; subst. cbn [snd] in *.
    cbn [object_partial map]. rewrite Hx by assumption.
    fold (object_partial (indentation (S depth))). rewrite IHprops by assumption. reflexivity.
Qed.
End JsonRoundTrip.

Section CliProofs.
Context {JSN : JSNumber}.
Variable h : host.

Lemma log_like_calls : log_like calls.
Proof. repeat split. Qed.
Lemma log_like_constructed : log_like constructed.
Proof. repeat split. Qed.
Lemma log_like_stdinReads : log_like stdinReads.
Proof. repeat split. Qed.

Lemma preserves_ret {X A} (f : world -> X) (a : A) : preserves f (ret a).
Proof. intros w. reflexivity. Qed.

Lemma preserves_throw {X A} (f : world -> X) e : preserves f (@throw _ A e).
Proof. intros w. reflexivity. Qed.

Lemma preserves_lift {X A} (f : world -> X) (r : result A) : preserves f (lift r).
Proof. intros w. reflexivity. Qed.

Lemma preserves_bind {X A B} (f : world -> X) (c : M A) (k : A -> M B) :
  preserves f c -> (forall a, preserves f (k a)) -> preserves f (bind c k).
Proof.
  intros Hc Hk w. unfold bind. specialize (Hc w).
  destruct (c w) as [[a|e] w1]; cbn [snd] in *.
  - rewrite Hk. exact Hc.
  - exact Hc.
Qed.

Lemma preserves_try_catch {X A} (f : world -> X) (c : M A) handler :
  preserves f c -> (forall e, preserves f (handler e)) -> preserves f (try_catch c handler).
Proof.
  intros Hc Hk w. unfold try_catch. specialize (Hc w).
  destruct (c w) as [[a|e] w1]; cbn [snd] in *.
  - exact Hc.
  - rewrite Hk. exact Hc.
Qed.

Local Abbreviation rt := (defaultRuntime h).
Local Abbreviation wrapped := (wrappedRt (defaultRuntime h)).

Lemma preserves_writeOut {X} (f : world -> X) t : log_like f -> preserves f (writeOut wrapped t).
Proof. intros (H & _) w. apply H. Qed.

Lemma preserves_writeErr {X} (f : world -> X) t : log_like f -> preserves f (writeErr wrapped t).
Proof. intros (_ & H & _) w. apply H. Qed.

Lemma write_each_out texts w :
  write_each (writeOut wrapped) texts w = (Ret tt, emit_each emit_out texts w).
Proof.
  revert w. induction texts as [|t rest IH]; intros w; [reflexivity|].
  cbn [write_each]. unfold bind. cbn [writeOut wrappedRt defaultRuntime fst snd].
  rewrite IH. reflexivity.
Qed.

Lemma write_each_err texts w :
  write_each (writeErr wrapped) texts w = (Ret tt, emit_each emit_err texts w).
Proof.
  revert w. induction texts as [|t rest IH]; intros w; [reflexivity|].
  cbn [write_each]. unfold bind. cbn [writeErr wrappedRt defaultRuntime fst snd].
  rewrite IH. reflexivity.
Qed.

Lemma emit_each_frame {X} (f : world -> X) emit texts w :
  (forall t w, f (emit t w) = f w) -> f (emit_each emit texts w) = f w.
Proof.
  intros H. revert w. induction texts as [|t rest IH]; intros w; [reflexivity|].
  cbn [emit_each fold_left]. fold (emit_each emit rest (emit t w)). rewrite IH. apply H.
Qed.

Lemma emit_each_out texts w : out (emit_each emit_out texts w) = out w ++ texts.
Proof.
  revert w. induction texts as [|t rest IH]; intros w; cbn [emit_each fold_left].
  - symmetry. apply app_nil_r.
  - fold (emit_each emit_out rest (emit_out t w)). rewrite IH. cbn [out emit_out].
    rewrite <- app_assoc. reflexivity.
Qed.

Lemma emit_each_err texts w : err (emit_each emit_err texts w) = err w ++ texts.
Proof.
  revert w. induction texts as [|t rest IH]; intros w; cbn [emit_each fold_left].
  - symmetry. apply app_nil_r.
  - fold (emit_each emit_err rest (emit_err t w)). rewrite IH. cbn [err emit_err].
    rewrite <- app_assoc. reflexivity.
Qed.

Lemma findCommand_In w cmds sub : findCommand w cmds = Some sub -> In sub cmds.
Proof.
  induction cmds as [|c rest IH]; cbn [findCommand]; [discriminate|].
  destruct (names c w); [intros [= ->]; left; reflexivity | right; auto].
Qed.

Lemma plain_help_commandAt path : forall c c',
  plain_help c = true -> commandAt c path = Some c' -> helpTextAfter c' = None.
Proof.
  induction path as [|n rest IH]; intros c c' Hplain Hat; cbn [commandAt] in Hat.
  - injection Hat as <-. destruct c as [? ? ? ? ? ? [text|]]; [discriminate | reflexivity].
  - destruct (findCommand n (commands c)) as [sub|] eqn:Hfind; [|discriminate].
    apply (IH sub c'); [|exact Hat].
    apply findCommand_In in Hfind.
    destruct c as [? ? ? ? ? subs [text|]]; [discriminate|].
    cbn [plain_help commands] in *. rewrite forallb_forall in Hplain. auto.
Qed.

(** The help of the program itself is followed by the text
    [createProgram] added; the help of every other command stands
    alone. *)
Lemma helpTexts_createProgram path :
  helpTexts h createProgram path
  = match path with
    | [] => [helpInformation h []; environment_and_examples ++ LF]
    | _ :: _ => [helpInformation h path]
    end.
Proof.
  destruct path as [|n rest]; [reflexivity|].
  unfold helpTexts. cbn [commandAt].
  destruct (findCommand n (commands createProgram)) as [sub|] eqn:Hfind; [|reflexivity].
  destruct (commandAt sub rest) as [c'|] eqn:Hat; [|reflexivity].
  rewrite (plain_help_commandAt rest sub c'); [reflexivity | | exact Hat].
  apply findCommand_In in Hfind.
  assert (forallb plain_help (commands createProgram) = true) as Hall by reflexivity.
  rewrite forallb_forall in Hall. auto.
Qed.

Lemma preserves_setExitCode {X} (f : world -> X) c : log_like f -> preserves f (setExitCode wrapped c).
Proof. intros (_ & _ & H1 & H2) w. cbn. rewrite H1. apply H2. Qed.

Lemma preserves_printJson {X} (f : world -> X) v : log_like f -> preserves f (printJson h wrapped v).
Proof.
  intros H. unfold printJson. destruct (JSON_stringify v).
  - apply preserves_writeOut, H.
  - apply preserves_writeOut, H.
  - apply preserves_throw.
Qed.

Lemma preserves_printError {X} (f : world -> X) e : log_like f -> preserves f (printError h wrapped e).
Proof.
  intros H. destruct e; cbn [printError];
    repeat first
      [ apply preserves_bind; [|intros ?]
      | apply preserves_writeErr; exact H
      | apply preserves_printJson; exact H
      | apply preserves_ret
      | match goal with |- preserves _ (if ?b then _ else _) => destruct b end ].
Qed.

Lemma preserves_run {X} (f : world -> X) main w :
  log_like f -> f (snd (run h wrapped main w)) = f (snd (main w)).
Proof.
  intros H. unfold run, try_catch. destruct (main w) as [[a|e] w1]; cbn [snd]; auto.
  apply (preserves_bind f (printError h wrapped e) (fun _ => setExitCode wrapped 1%Z)).
  - apply preserves_printError, H.
  - intros _. apply preserves_setExitCode, H.
Qed.


Lemma printError_result e w :
  fst (printError h wrapped e w) = Ret tt \/
  exists m, fst (printError h wrapped e w) = Throw (JsError (js "TypeError") m).
Proof.
  destruct e; cbn [printError]; unfold bind; cbn [writeErr wrappedRt defaultRuntime fst snd];
    repeat match goal with
    | |- context [if ?b then _ else _] => destruct b; cbn [writeErr wrappedRt defaultRuntime fst snd ret]
    end; auto;
    unfold printJson; destruct (JSON_stringify _); cbn; eauto.
Qed.

Lemma printError_JsError name message w :
  printError h wrapped (JsError name message) w
  = (Ret tt, emit_err (name ++ js ": " ++ message ++ LF) w).
Proof. reflexivity. Qed.

Lemma run_result main w :
  fst (run h wrapped main w) = Ret tt \/
  exists m, fst (run h wrapped main w) = Throw (JsError (js "TypeError") m).
Proof.
  unfold run, try_catch. destruct (main w) as [[[]|e] w1]; cbn [fst]; auto.
  unfold bind. destruct (printError_result e w1) as [H|[m H]];
    destruct (printError h wrapped e w1) as [[[]|e'] w2]; cbn [fst] in *;
    try discriminate; eauto.
Qed.

Lemma action_is_run l global args :
  exists main, action h l wrapped global args = run h wrapped main.
Proof. destruct l; eexists; reflexivity. Qed.

Lemma parseAsync_result argv w :
  escapes (fst (parseAsync h wrapped createProgram argv w)).
Proof.
  unfold parseAsync. destruct (parse h createProgram argv); unfold bind;
    rewrite ?write_each_out, ?write_each_err; try exact I.
  destruct (action_is_run l (program_opts argv) args) as [main ->].
  destruct (run_result main w) as [H|[m H]]; rewrite H; exact I.
Qed.



Lemma createClient_eq global w :
  createClient h global w
  = (match Seclai_constructor h (VObj (clientOptions h global)) with
     | Some e => Throw e
     | None => Ret SeclaiClient
     end,
     record_construction (VObj (clientOptions h global)) w).
Proof.
  unfold createClient, new_Seclai, clientOptions, baseUrl.
  destruct (is_undefined (get global "apiKey"));
    destruct (SECLAI_API_URL h) as [[|c u]|]; reflexivity.
Qed.

(** C10.  [createClient] always hands the constructor an object whose
    [baseUrl] is the value of [SECLAI_API_URL] when that is set and not
    empty, and ["https://api.seclai.com"] otherwise; the object has an
    [apiKey] exactly when the global options carry one, and no other
    key. *)
Theorem createClient_options (global : value) (w : world) :
  exists seclaiOpts,
    snd (createClient h global w) = record_construction (VObj seclaiOpts) w /\
    lookup (js "baseUrl") seclaiOpts
    = Some (VStr match SECLAI_API_URL h with
                 | Some (c :: u) => c :: u
                 | _ => js "https://api.seclai.com"
                 end) /\
    lookup (js "apiKey") seclaiOpts
    = (if is_undefined (get global "apiKey") then None
       else Some (get global "apiKey")) /\
    forall k, has_key k seclaiOpts = true -> k = js "apiKey" \/ k = js "baseUrl".
Proof.
  exists (clientOptions h global). rewrite createClient_eq. cbn [snd].
  split; [reflexivity|]. unfold clientOptions, has_key.
  destruct (is_undefined (get global "apiKey")); cbn [app].
  - split; [reflexivity|]. split; [reflexivity|].
    intros k. cbn [lookup]. destruct (jsstring_eqb k (js "baseUrl")) eqn:E; [|discriminate].
    apply jsstring_eqb_eq in E. auto.
  - split; [reflexivity|]. split; [reflexivity|].
    intros k. cbn [lookup].
    destruct (jsstring_eqb k (js "apiKey")) eqn:E1; [apply jsstring_eqb_eq in E1; auto|].
    destruct (jsstring_eqb k (js "baseUrl")) eqn:E2; [|discriminate].
    apply jsstring_eqb_eq in E2. auto.
Qed.

(** C8.  Printing a JSON-serializable value writes, in one piece, its
    pretty-printed JSON with two-space indentation (every element and
    member on a line of its own, two spaces deeper for each level of
    nesting), which is what [JSON.stringify (value, null, 2)] renders,
    followed by one line feed; and [JSON.parse] of that output is the
    value again. *)
Theorem printJson_round_trip (v : value) (w : world) :
  JSONSerializable v ->
  JSON_stringify v = Text (pretty_printed 0 v) /\
  printJson h rt v w = (Ret tt, emit_out (pretty_printed 0 v ++ LF) w) /\
  JSON_parse (pretty_printed 0 v ++ LF) = Some v.
Proof.
  intros Hser.
  pose proof (stringify_pretty_printed v Hser 0) as Epretty.
  change (indentation 0) with (@nil N) in Epretty.
  destruct (serialize_reads_back v Hser [] eq_refl)
    as (t & Et & (c & t' & -> & Hc) & Hlen & Hparse).
  rewrite Et in Epretty. injection Epretty as <-.
  split; [exact Et|]. split.
  - unfold printJson, JSON_stringify. rewrite Et. reflexivity.
  - unfold JSON_parse. cbn [app]. rewrite skip_ws_start by (apply value_start_not_ws, Hc).
    change (c :: t' ++ LF) with ((c :: t') ++ LF).
    rewrite Hparse; [reflexivity | | reflexivity].
    rewrite length_app. unfold LF. cbn [Datatypes.length] in *. lia.
Qed.

(** C2, on the code.  On an API validation failure whose validation
    detail is truthy, [printError] writes the status lines to the error
    sink, but the detail, rendered as JSON under the key
    [validationError], goes through [printJson] to the output sink. *)
Theorem printError_validation_detail (name message url : jsstring) (statusCode : number)
  (responseText : option jsstring) (detail : value) (t : jsstring) (w : world) :
  ToBoolean detail = true ->
  JSON_stringify (VObj [(js "validationError", detail)]) = Text t ->
  let w' := snd (printError h rt
                   (SeclaiAPIValidationError name message statusCode url responseText detail) w) in
  out w' = out w ++ [t ++ LF] /\
  err w' = err w ++
           [name ++ js ": " ++ message ++ LF;
            js "status: " ++ Number_toString statusCode ++ LF;
            js "url: " ++ url ++ LF]
           ++ (if truthy_text responseText
               then [js "response: " ++ match responseText with Some r => r | None => [] end ++ LF]
               else []).
Proof.
  intros Htruthy Htext. cbn [printError]. unfold bind, printJson.
  rewrite Htruthy, Htext. cbn [writeErr defaultRuntime fst snd].
  destruct (truthy_text responseText); cbn; rewrite <- ?app_assoc; split; reflexivity.
Qed.


Lemma bind_preserved {X A B} (f : world -> X) (c : M A) (k : A -> M B) w :
  (forall a, preserves f (k a)) -> f (snd (bind c k w)) = f (snd (c w)).
Proof.
  intros Hk. unfold bind. destruct (c w) as [[a|e] w1]; cbn [snd];
    [apply Hk | reflexivity].
Qed.

Lemma runCli_log {X} (f : world -> X) argv w :
  log_like f ->
  f (snd (runCli h argv rt w))
  = f (snd (parseAsync h wrapped createProgram argv (set_observed 0%Z w))).
Proof.
  intros Hf. pose proof Hf as (Ho & He & Hx & Hs).
  unfold runCli, bind, try_catch. cbn [setObserved fst snd].
  destruct (parseAsync h wrapped createProgram argv (set_observed 0%Z w)) as [[[]|e] w1];
    cbn [fst snd ret getObserved setExitCode wrappedRt setObserved bind defaultRuntime].
  - rewrite Hx, Hs. reflexivity.
  - destruct e;
      try (cbn [fst snd ret getObserved setExitCode wrappedRt setObserved bind defaultRuntime];
           rewrite Hx, Hs; reflexivity);
      match goal with |- context [printError h wrapped ?e w1] =>
        pose proof (preserves_printError f e Hf w1) as Hp;
        destruct (printError h wrapped e w1) as [[[]|e'] w2]
      end;
      cbn [fst snd ret getObserved setExitCode wrappedRt setObserved bind defaultRuntime] in *;
      rewrite ?Hx, ?Hs; exact Hp.
Qed.

(** Where commander stops before any action, only the sinks change. *)
Lemma parseAsync_quiet {X} (f : world -> X) argv w :
  log_like f ->
  match parse h createProgram argv with
  | callAction _ _ => True
  | _ => f (snd (parseAsync h wrapped createProgram argv w)) = f w
  end.
Proof.
  intros Hf. pose proof Hf as (Ho & He & _).
  unfold parseAsync. destruct (parse h createProgram argv); try exact I; unfold bind;
    rewrite ?write_each_out, ?write_each_err;
    cbn [fst snd throw writeOut writeErr wrappedRt defaultRuntime];
    rewrite ?emit_each_frame by assumption; auto.
Qed.

(** The calls of a leaf that constructs the client, invokes one method
    and prints. *)
Lemma one_call_main global method args (k : value -> M unit) w :
  Seclai_constructor h (VObj (clientOptions h global)) = None ->
  (forall res, preserves calls (k res)) ->
  calls (snd (bind (createClient h global)
                (fun client => bind (invoke h client method args) k) w))
  = calls w ++ [(js method, args)].
Proof.
  intros Hc Hk. unfold bind at 1. rewrite createClient_eq, Hc.
  rewrite bind_preserved by exact Hk. reflexivity.
Qed.

Lemma sdk_calls_action argv l args main w :
  parse h createProgram argv = callAction l args ->
  action h l wrapped (program_opts argv) args = run h wrapped main ->
  sdk_calls h argv w = calls (snd (main (set_observed 0%Z w))).
Proof.
  intros Hp Ha. unfold sdk_calls. rewrite (runCli_log calls argv w log_like_calls).
  unfold parseAsync. rewrite Hp, Ha. apply preserves_run, log_like_calls.
Qed.

(** C1, on the code.  With no flag given, [sources list] and
    [contents get] still pass an options object that has every key, each
    with the value [undefined]. *)
Theorem list_commands_pass_unsupplied_keys (key id : jsstring) (w : world) :
  Seclai_constructor h (VObj (clientOptions h (VObj [(js "apiKey", VStr key)]))) = None ->
  sdk_calls h (invocation (Some key) [js "sources"; js "list"] []) w
  = calls w ++
    [(js "listSources",
      [VObj [(js "page", VUndefined); (js "limit", VUndefined);
             (js "sort", VUndefined); (js "order", VUndefined);
             (js "accountId", VUndefined)]])]
  /\
  sdk_calls h (invocation (Some key) [js "contents"; js "get"; id] []) w
  = calls w ++
    [(js "getContentDetail",
      [VStr id; VObj [(js "start", VUndefined); (js "end", VUndefined)]])].
Proof.
  intros Hc. split.
  - erewrite sdk_calls_action; [| reflexivity | reflexivity].
    change (calls w) with (calls (set_observed 0%Z w)).
    apply (one_call_main _ "listSources"); [exact Hc|].
    intros res. apply preserves_printJson, log_like_calls.
  - erewrite sdk_calls_action; [| reflexivity | reflexivity].
    change (calls w) with (calls (set_observed 0%Z w)).
    apply (one_call_main _ "getContentDetail"); [exact Hc|].
    intros res. apply preserves_printJson, log_like_calls.
Qed.


Lemma parse_agents_runs_get key agentId runId :
  parse h createProgram
    (invocation (Some key) [js "agents"; js "runs"; js "get"; agentId; runId] [])
  = if allowExcessArguments h
    then callAction agentRuns_get [VStr agentId; VObj []; VCommand]
    else usageError (excessArguments (js "get")).
Proof.
  cbv -[allowExcessArguments]. destruct (allowExcessArguments h); reflexivity.
Qed.

(** C3, on the code.  [agents runs get] declares one positional
    argument, [<runId>], while its handler binds three parameters: called
    with an agent id and a run id (or with a run id alone), it passes the
    parsed options object, not the run id, as the first argument of
    [getAgentRun], or is rejected for its excess argument.  The sibling
    [runs get] passes the run id. *)
Theorem agents_runs_get_drops_run_id (key agentId runId : jsstring) (w : world) :
  Seclai_constructor h (VObj (clientOptions h (VObj [(js "apiKey", VStr key)]))) = None ->
  sdk_calls h (invocation (Some key) [js "agents"; js "runs"; js "get"; agentId; runId] []) w
  = calls w ++
    (if allowExcessArguments h
     then [(js "getAgentRun", [VObj []; VUndefined])]
     else [])
  /\
  sdk_calls h (invocation (Some key) [js "agents"; js "runs"; js "get"; runId] []) w
  = calls w ++ [(js "getAgentRun", [VObj []; VUndefined])]
  /\
  sdk_calls h (invocation (Some key) [js "runs"; js "get"; runId] []) w
  = calls w ++ [(js "getAgentRun", [VStr runId; VUndefined])].
Proof.
  intros Hc. split; [|split].
  - destruct (allowExcessArguments h) eqn:E.
    + erewrite sdk_calls_action;
        [| rewrite parse_agents_runs_get, E; reflexivity | reflexivity].
      change (calls w) with (calls (set_observed 0%Z w)).
      apply (one_call_main _ "getAgentRun"); [exact Hc|].
      intros res. apply preserves_printJson, log_like_calls.
    + unfold sdk_calls. rewrite (runCli_log calls _ w log_like_calls).
      unfold parseAsync. rewrite parse_agents_runs_get, E.
      rewrite app_nil_r. reflexivity.
  - erewrite sdk_calls_action; [| reflexivity | reflexivity].
    change (calls w) with (calls (set_observed 0%Z w)).
    apply (one_call_main _ "getAgentRun"); [exact Hc|].
    intros res. apply preserves_printJson, log_like_calls.
  - erewrite sdk_calls_action; [| reflexivity | reflexivity].
    change (calls w) with (calls (set_observed 0%Z w)).
    apply (one_call_main _ "getAgentRun"); [exact Hc|].
    intros res. apply preserves_printJson, log_like_calls.
Qed.

Ltac one_call method Hc :=
  erewrite sdk_calls_action; [| reflexivity | reflexivity];
  match goal with |- _ = calls ?w ++ _ =>
    change (calls w) with (calls (set_observed 0%Z w)) end;
  apply (one_call_main _ method); [exact Hc|];
  intros res; apply preserves_printJson, log_like_calls.

(** C9.  A string [v] for which [Number (v)] is [NaN], given to
    [--page], [--limit], [--start], [--end] or [--timeout-ms], raises no
    error in the parser or the dispatcher: the client method is invoked
    and receives [NaN] under the option's key (for [--timeout-ms] with
    [--stream], inside the streaming options object). *)
Theorem numeric_options_pass_NaN (key id v : jsstring) (w : world) :
  Number_of_string v = NaN ->
  Seclai_constructor h (VObj (clientOptions h (VObj [(js "apiKey", VStr key)]))) = None ->
  has_runStreamingAgentAndWait h = true ->
  sdk_calls h (invocation (Some key) [js "sources"; js "list"] [(js "--page", Some v)]) w
  = calls w ++
    [(js "listSources",
      [VObj [(js "page", VNum NaN); (js "limit", VUndefined);
             (js "sort", VUndefined); (js "order", VUndefined);
             (js "accountId", VUndefined)]])]
  /\
  sdk_calls h (invocation (Some key) [js "sources"; js "list"] [(js "--limit", Some v)]) w
  = calls w ++
    [(js "listSources",
      [VObj [(js "page", VUndefined); (js "limit", VNum NaN);
             (js "sort", VUndefined); (js "order", VUndefined);
             (js "accountId", VUndefined)]])]
  /\
  sdk_calls h (invocation (Some key) [js "agents"; js "runs"; js "list"; id]
               [(js "--page", Some v); (js "--limit", Some v)]) w
  = calls w ++
    [(js "listAgentRuns",
      [VStr id; VObj [(js "page", VNum NaN); (js "limit", VNum NaN)]])]
  /\
  sdk_calls h (invocation (Some key) [js "contents"; js "get"; id]
               [(js "--start", Some v); (js "--end", Some v)]) w
  = calls w ++
    [(js "getContentDetail",
      [VStr id; VObj [(js "start", VNum NaN); (js "end", VNum NaN)]])]
  /\
  sdk_calls h (invocation (Some key) [js "contents"; js "embeddings"; id]
               [(js "--page", Some v); (js "--limit", Some v)]) w
  = calls w ++
    [(js "listContentEmbeddings",
      [VStr id; VObj [(js "page", VNum NaN); (js "limit", VNum NaN)]])]
  /\
  sdk_calls h (invocation (Some key) [js "agents"; js "run"; id]
               [(js "--json", Some (js "null")); (js "--stream", None);
                (js "--timeout-ms", Some v)]) w
  = calls w ++
    [(js "runStreamingAgentAndWait",
      [VStr id; VNull; VObj [(js "timeoutMs", VNum NaN)]])].
Proof.
  intros Hnan Hc Hstream. rewrite <- Hnan.
  repeat split.
  - one_call "listSources" Hc.
  - one_call "listSources" Hc.
  - one_call "listAgentRuns" Hc.
  - one_call "getContentDetail" Hc.
  - one_call "listContentEmbeddings" Hc.
  - erewrite sdk_calls_action; [| reflexivity | reflexivity].
    change (program_opts (invocation (Some key) _ _)) with (VObj [(js "apiKey", VStr key)]).
    unfold bind at 1. rewrite createClient_eq, Hc.
    unfold bind at 1.
    change (readJsonInput h wrapped _ _)
      with (Ret VNull,
            record_construction (VObj (clientOptions h (VObj [(js "apiKey", VStr key)])))
              (set_observed 0%Z w)).
    cbv iota beta.
    change (ToBoolean (get _ "stream")) with true. cbv iota.
    rewrite Hstream. cbn [negb].
    rewrite bind_preserved
      by (intros res; apply preserves_printJson, log_like_calls).
    reflexivity.
Qed.


Lemma readJsonInput_eq (opts : JsonInput) (w : world) :
  readJsonInput h wrapped opts w
  = match json opts, jsonFile opts with
    | Some _, Some _ =>
        (Throw (JsError (js "Error") (js "Provide only one of --json or --json-file")), w)
    | _, Some file =>
        if jsstring_eqb file (js "-")
        then (parse_resolved h (stdin_stream h), consume_stdin w)
        else (parse_resolved h (readFile_utf8 h file), w)
    | Some inline, None =>
        if jsstring_eqb inline (js "-")
        then (parse_resolved h (stdin_stream h), consume_stdin w)
        else (parse_resolved h (Ret inline), w)
    | None, None =>
        (Throw (JsError (js "Error")
                  (js "Missing JSON input. Provide --json or --json-file.")), w)
    end.
Proof.
  unfold readJsonInput, parse_resolved, JSON_parse_or_throw, bind, readStdinText, lift.
  destruct (json opts) as [inline|], (jsonFile opts) as [file|]; try reflexivity.
  - destruct (jsstring_eqb inline (js "-")); cbn [stdin wrappedRt defaultRuntime ret].
    + destruct (stdin_stream h) as [text|e]; [destruct (JSON_parse text)|]; reflexivity.
    + destruct (JSON_parse inline); reflexivity.
  - destruct (jsstring_eqb file (js "-")); cbn [stdin wrappedRt defaultRuntime].
    + destruct (stdin_stream h) as [text|e]; [destruct (JSON_parse text)|]; reflexivity.
    + destruct (readFile_utf8 h file) as [text|e]; [destruct (JSON_parse text)|]; reflexivity.
Qed.









Lemma agents_run_both_main global agentId opts j f :
  lookup (js "json") opts = Some (VStr j) ->
  lookup (js "jsonFile") opts = Some (VStr f) ->
  exists main,
    action h agents_run wrapped global [agentId; VObj opts; VCommand] = run h wrapped main /\
    forall w,
      main w = (match Seclai_constructor h (VObj (clientOptions h global)) with
                | Some e => Throw e
                | None => Throw both_inputs_error
                end,
                record_construction (VObj (clientOptions h global)) w).
Proof.
  intros Hj Hf. eexists. split; [reflexivity|]. intros w.
  unfold bind at 1. rewrite createClient_eq.
  destruct (Seclai_constructor h _); [reflexivity|].
  unfold bind at 1. rewrite readJsonInput_eq.
  cbn [json jsonFile parameter nth get]. rewrite Hj, Hf. reflexivity.
Qed.

(** C4, as the code has it.  When [agents run] is given both [--json]
    and [--json-file], the client constructor is invoked first, exactly
    once; no client method is invoked and no input is read; and when the
    construction succeeds the command fails with the local input error
    on the error sink and [runCli] returns 1. *)
Theorem agents_run_both_inputs (argv : Invocation) (agentId : value)
  (opts : list (jsstring * value)) (j f : jsstring) (w : world) :
  parse h createProgram argv = callAction agents_run [agentId; VObj opts; VCommand] ->
  lookup (js "json") opts = Some (VStr j) ->
  lookup (js "jsonFile") opts = Some (VStr f) ->
  let seclaiOpts := VObj (clientOptions h (program_opts argv)) in
  let w' := snd (runCli h argv rt w) in
  constructed w' = constructed w ++ [seclaiOpts] /\
  calls w' = calls w /\
  stdinReads w' = stdinReads w /\
  (Seclai_constructor h seclaiOpts = None ->
   runCli h argv rt w
   = (Ret 1%Z,
      record_exit 1%Z (set_observed 1%Z
        (record_exit 1%Z (set_observed 1%Z
          (emit_err (js "Error" ++ js ": "
                     ++ js "Provide only one of --json or --json-file" ++ LF)
            (record_construction seclaiOpts (set_observed 0%Z w)))))))).
Proof.
  intros Hparse Hj Hf. cbv zeta.
  destruct (agents_run_both_main (program_opts argv) agentId opts j f Hj Hf)
    as (main & Hact & Hmain).
  repeat split.
  - rewrite (runCli_log constructed argv w log_like_constructed).
    unfold parseAsync. rewrite Hparse, Hact.
    rewrite (preserves_run constructed main _ log_like_constructed), Hmain. reflexivity.
  - rewrite (runCli_log calls argv w log_like_calls).
    unfold parseAsync. rewrite Hparse, Hact.
    rewrite (preserves_run calls main _ log_like_calls), Hmain. reflexivity.
  - rewrite (runCli_log stdinReads argv w log_like_stdinReads).
    unfold parseAsync. rewrite Hparse, Hact.
    rewrite (preserves_run stdinReads main _ log_like_stdinReads), Hmain. reflexivity.
  - intros Hc. unfold runCli, bind, try_catch, parseAsync.
    rewrite Hparse, Hact. cbn [setObserved fst snd].
    unfold run, try_catch. rewrite Hmain, Hc. reflexivity.
Qed.

End CliProofs.

(** * More of the program

    The rest of [cli.ts] (every action handler, the version, the
    entry-point guard) and the functions of [scripts/generate-docs.mjs],
    with what they guarantee. *)

Section CliCoverage.
Context {JSN : JSNumber}.
Variable h : host.

Local Abbreviation rt := (defaultRuntime h).
Local Abbreviation wrapped := (wrappedRt (defaultRuntime h)).

Lemma preserves_createClient {X} (f : world -> X) global :
  (forall o w, f (record_construction o w) = f w) -> preserves f (createClient h global).
Proof. intros H w. rewrite createClient_eq. apply H. Qed.

Lemma preserves_invoke {X} (f : world -> X) client method args :
  (forall m a w, f (record_call m a w) = f w) -> preserves f (invoke h client method args).
Proof. intros H w. apply H. Qed.

Lemma preserves_readJsonInput {X} (f : world -> X) opts :
  (forall w, f (consume_stdin w) = f w) -> preserves f (readJsonInput h wrapped opts).
Proof.
  intros H w. rewrite readJsonInput_eq.
  destruct (json opts) as [inline|], (jsonFile opts) as [file|];
    try destruct (jsstring_eqb file (js "-"));
    try destruct (jsstring_eqb inline (js "-")); cbn [snd]; auto.
Qed.

Lemma preserves_printJson_quiet {X} (f : world -> X) v :
  (forall t w, f (emit_out t w) = f w) -> preserves f (printJson h wrapped v).
Proof.
  intros H w. unfold printJson. destruct (JSON_stringify v); cbn [snd]; auto; apply H.
Qed.

Ltac frame :=
  cbv zeta;
  repeat first
    [ apply preserves_createClient; solve [auto]
    | apply preserves_invoke; solve [auto]
    | apply preserves_readJsonInput; solve [auto]
    | apply preserves_printJson_quiet; solve [auto]
    | apply preserves_ret
    | apply preserves_throw
    | apply preserves_lift
    | match goal with |- preserves _ (if ?b then _ else _) => destruct b end
    | apply preserves_bind; [|intros ?; cbv zeta] ].

Lemma prints_once_printJson v : prints_once (printJson h wrapped v).
Proof.
  intros w. unfold printJson. destruct (JSON_stringify v); cbn; eauto.
Qed.

Lemma prints_once_bind {A} (c : M A) (k : A -> M unit) :
  preserves out c -> (forall a, prints_once (k a)) -> prints_once (bind c k).
Proof.
  intros Hc Hk w. unfold bind. specialize (Hc w).
  destruct (c w) as [[a|e] w1]; cbn [fst snd] in *.
  - specialize (Hk a w1). rewrite Hc in Hk. exact Hk.
  - exact Hc.
Qed.

Lemma calls_once_preserves {A} (c : M A) : preserves calls c -> calls_once c.
Proof. intros H w. left. apply H. Qed.

Lemma calls_once_invoke client method args : calls_once (invoke h client method args).
Proof. intros w. right. eexists _, _. reflexivity. Qed.

Lemma calls_once_bind_l {A B} (c : M A) (k : A -> M B) :
  calls_once c -> (forall a, preserves calls (k a)) -> calls_once (bind c k).
Proof.
  intros Hc Hk w. rewrite (bind_preserved calls c k w Hk). apply Hc.
Qed.

Lemma calls_once_bind_r {A B} (c : M A) (k : A -> M B) :
  preserves calls c -> (forall a, calls_once (k a)) -> calls_once (bind c k).
Proof.
  intros Hc Hk w. unfold bind. specialize (Hc w).
  destruct (c w) as [[a|e] w1]; cbn [snd] in *.
  - rewrite <- Hc. apply Hk.
  - left. exact Hc.
Qed.

Ltac at_most_one :=
  cbv zeta;
  first
    [ apply calls_once_invoke
    | apply calls_once_preserves; solve [frame]
    | apply calls_once_bind_l; [at_most_one | intros ?; solve [frame]]
    | apply calls_once_bind_r; [solve [frame] | intros ?; at_most_one]
    | match goal with |- calls_once (if ?b then _ else _) => destruct b; at_most_one end ].

Ltac prints :=
  cbv zeta;
  first
    [ apply prints_once_printJson
    | apply prints_once_bind; [solve [frame] | intros ?; prints] ].

(** The body of every action handler: the client is constructed first;
    then at most one method is invoked; the result is printed last. *)
Lemma action_main l global args :
  exists (k : Seclai -> M unit),
    action h l wrapped global args
    = run h wrapped (bind (createClient h global) k) /\
    forall client,
      prints_once (k client) /\
      calls_once (k client) /\
      preserves constructed (k client) /\
      preserves err (k client) /\
      preserves exitCodes (k client) /\
      preserves observedExitCode (k client).
Proof.
  destruct l; eexists; (split; [reflexivity|]); intros client;
    (split; [prints|]); (split; [at_most_one|]); repeat split; frame.
Qed.

Lemma printError_err e w :
  exists t ts, err (snd (printError h wrapped e w)) = err w ++ t :: ts.
Proof.
  destruct e; cbn [printError]; unfold bind; cbn [writeErr wrappedRt defaultRuntime fst snd];
    repeat match goal with
    | |- context [if ?b then _ else _] =>
        destruct b; cbn [writeErr wrappedRt defaultRuntime fst snd ret]
    end;
    try (unfold printJson; destruct (JSON_stringify _));
    cbn [writeOut writeErr wrappedRt defaultRuntime fst snd ret throw err emit_err emit_out];
    rewrite <- ?app_assoc; cbn [app]; eauto.
Qed.

Lemma printError_sinks {X} (f : world -> X) e :
  (forall t w, f (emit_out t w) = f w) -> (forall t w, f (emit_err t w) = f w) ->
  preserves f (printError h wrapped e).
Proof.
  intros Ho He. destruct e; cbn [printError];
    repeat first
      [ apply preserves_bind; [|intros ?]
      | apply preserves_printJson_quiet; exact Ho
      | apply preserves_ret
      | match goal with |- preserves _ (if ?b then _ else _) => destruct b end
      | (intros w; apply He) ].
Qed.

Lemma printError_out e w :
  out (snd (printError h wrapped e w)) = out w \/
  exists t, out (snd (printError h wrapped e w)) = out w ++ [t].
Proof.
  destruct e; cbn [printError]; unfold bind; cbn [writeErr wrappedRt defaultRuntime fst snd];
    repeat match goal with
    | |- context [if ?b then _ else _] =>
        destruct b; cbn [writeErr wrappedRt defaultRuntime fst snd ret]
    end;
    try (unfold printJson; destruct (JSON_stringify _));
    cbn [writeOut writeErr wrappedRt defaultRuntime fst snd ret throw out emit_err emit_out];
    eauto.
Qed.

(** What [runCli] makes of a dispatched action. *)
Lemma runCli_leaf argv l args main w :
  parse h createProgram argv = callAction l args ->
  action h l wrapped (program_opts argv) args = run h wrapped main ->
  preserves observedExitCode main ->
  runCli h argv rt w
  = match main (set_observed 0%Z w) with
    | (Ret _, w1) => (Ret 0%Z, record_exit 0%Z (set_observed 0%Z w1))
    | (Throw e, w1) =>
        match printError h wrapped e w1 with
        | (Ret _, w2) =>
            (Ret 1%Z, record_exit 1%Z (set_observed 1%Z
                        (record_exit 1%Z (set_observed 1%Z w2))))
        | (Throw e', w2) =>
            (Ret 1%Z, record_exit 1%Z (set_observed 1%Z
                        (snd (printError h wrapped e' w2))))
        end
    end.
Proof.
  intros Hp Ha Hobs.
  unfold runCli, parseAsync. rewrite Hp, Ha.
  unfold bind at 1. cbn [setObserved].
  unfold bind at 1. unfold try_catch at 1. unfold bind at 1. unfold run, try_catch.
  specialize (Hobs (set_observed 0%Z w)).
  destruct (main (set_observed 0%Z w)) as [[[]|e] w1]; cbn [snd observedExitCode set_observed] in Hobs.
  - unfold bind, getObserved, ret. cbn. rewrite Hobs. reflexivity.
  - unfold bind at 1.
    pose proof (printError_sinks observedExitCode e (fun _ _ => eq_refl) (fun _ _ => eq_refl) w1) as Hpe.
    pose proof (printError_result h e w1) as Hres.
    destruct (printError h wrapped e w1) as [[[]|e'] w2]; cbn [fst snd] in *.
    + unfold bind, getObserved, ret. cbn. reflexivity.
    + destruct Hres as [Hres|[m Hres]]; [discriminate|]. injection Hres as ->.
      rewrite printError_JsError. unfold bind, getObserved, ret. cbn.
      rewrite Hpe, Hobs. reflexivity.
Qed.

Lemma main_frame {X} (f : world -> X) global (k : Seclai -> M unit) :
  (forall o w, f (record_construction o w) = f w) ->
  (forall client, preserves f (k client)) ->
  preserves f (bind (createClient h global) k).
Proof.
  intros Hf Hk. apply preserves_bind; [apply preserves_createClient, Hf | exact Hk].
Qed.

Lemma leaf_observed global (k : Seclai -> M unit) :
  (forall client, preserves observedExitCode (k client)) ->
  preserves observedExitCode (bind (createClient h global) k).
Proof. intros Hk. apply main_frame; [reflexivity | exact Hk]. Qed.

(** C6.  For every invocation [runCli] returns a code and, as its last
    act, hands that code to the runtime's [setExitCode].  With [given]
    the codes that reached the runtime's [setExitCode] during dispatch,
    the code returned is the last of them whenever that is not zero,
    and the parser's own code otherwise: 0 after the version or the
    help text, 1 after a usage error or the help shown for a missing
    subcommand, none of which sets a code.  An action sets no code when
    it succeeds, and [runCli] returns 0; it sets 1 when it fails, and
    that 1 is returned although the dispatch itself ended normally. *)
Theorem runCli_exit_code (argv : Invocation) (w : world) :
  let dispatched := parseAsync h wrapped createProgram argv (set_observed 0%Z w) in
  exists given : list Z,
    exitCodes (snd dispatched) = exitCodes w ++ given /\
    observedExitCode (snd dispatched) = last given 0%Z /\
    let operation := last given 0%Z in
    let final := if negb (operation =? 0)%Z then operation
                 else parser_exit_code (fst dispatched) in
    exists w',
      runCli h argv rt w = (Ret final, w') /\
      exitCodes w' = exitCodes w ++ given ++ [final] /\
      match parse h createProgram argv with
      | outputVersion | outputHelp _ | helpCommand _ => given = [] /\ final = 0%Z
      | helpAfterError _ | usageError _ => given = [] /\ final = 1%Z
      | callAction _ _ =>
          (given = [] /\ fst dispatched = Ret tt /\ final = 0%Z) \/
          (given = [1%Z] /\ fst dispatched = Ret tt /\ final = 1%Z) \/
          (given = [] /\ final = 1%Z /\
           exists message, fst dispatched = Throw (JsError (js "TypeError") message))
      end.
Proof.
  cbv zeta. destruct (parse h createProgram argv) as [|path|path|path|u|l args] eqn:Hp.
  1-5: exists []; unfold runCli, parseAsync; rewrite Hp; unfold bind, try_catch;
    cbn [setObserved fst snd];
    rewrite ?write_each_out, ?write_each_err;
    cbn [fst snd throw ret getObserved setExitCode wrappedRt setObserved writeOut writeErr
         defaultRuntime parser_exit_code last];
    rewrite ?(emit_each_frame observedExitCode emit_out) by reflexivity;
    rewrite ?(emit_each_frame observedExitCode emit_err) by reflexivity;
    rewrite ?(emit_each_frame exitCodes emit_out) by reflexivity;
    rewrite ?(emit_each_frame exitCodes emit_err) by reflexivity;
    cbn [observedExitCode exitCodes set_observed emit_out emit_err record_exit Z.eqb negb app];
    rewrite ?app_nil_r;
    (split; [reflexivity|]); (split; [reflexivity|]);
    eexists; (split; [reflexivity|]);
    cbn [exitCodes record_exit set_observed];
    rewrite ?(emit_each_frame exitCodes emit_out) by reflexivity;
    rewrite ?(emit_each_frame exitCodes emit_err) by reflexivity;
    repeat split; reflexivity.
  destruct (action_main l (program_opts argv) args) as (k & Ha & Hk).
  assert (preserves exitCodes (bind (createClient h (program_opts argv)) k)) as Hexit.
  { apply main_frame; [reflexivity | apply Hk]. }
  assert (preserves observedExitCode (bind (createClient h (program_opts argv)) k)) as Hobs.
  { apply main_frame; [reflexivity | apply Hk]. }
  rewrite (runCli_leaf argv l args _ w Hp Ha Hobs).
  unfold parseAsync. rewrite Hp, Ha. unfold run, try_catch.
  specialize (Hexit (set_observed 0%Z w)). specialize (Hobs (set_observed 0%Z w)).
  destruct (bind (createClient h (program_opts argv)) k (set_observed 0%Z w))
    as [[[]|e] w1]; cbn [fst snd] in *;
    change (exitCodes (set_observed 0%Z w)) with (exitCodes w) in Hexit;
    change (observedExitCode (set_observed 0%Z w)) with 0%Z in Hobs.
  - exists []. rewrite app_nil_r. split; [exact Hexit|]. split; [exact Hobs|].
    eexists. split; [reflexivity|]. cbn [exitCodes record_exit set_observed app].
    rewrite Hexit. split; [reflexivity|]. left. repeat split.
  - unfold bind.
    pose proof (printError_result h e w1) as Hres.
    pose proof (printError_sinks exitCodes e (fun _ _ => eq_refl) (fun _ _ => eq_refl) w1) as Hx.
    pose proof (printError_sinks observedExitCode e (fun _ _ => eq_refl) (fun _ _ => eq_refl) w1)
      as Ho.
    destruct (printError h wrapped e w1) as [[[]|e'] w2]; cbn [fst snd] in *.
    + exists [1%Z]. cbn [setExitCode wrappedRt setObserved defaultRuntime bind fst snd
                         exitCodes observedExitCode record_exit set_observed last].
      rewrite Hx, Hexit. split; [reflexivity|]. split; [reflexivity|].
      eexists. split; [reflexivity|]. cbn [exitCodes record_exit set_observed].
      rewrite Hx, Hexit, <- app_assoc. split; [reflexivity|].
      right. left. repeat split.
    + destruct Hres as [Hres|[m Hres]]; [discriminate|]. injection Hres as ->.
      exists []. rewrite app_nil_r, Hx, Ho, Hexit, Hobs.
      split; [reflexivity|]. split; [reflexivity|].
      rewrite printError_JsError. eexists. split; [reflexivity|].
      cbn [snd exitCodes record_exit set_observed emit_err app].
      rewrite Hx, Hexit. split; [reflexivity|].
      right. right. repeat split. eauto.
Qed.

(** X1.  The output contract of the command line.  Every invocation
    ends in one of two ways: [runCli] returns 0, nothing was written to
    the error sink, the output sink received exactly one text (when
    the help of the program itself was asked for, with the help flag
    or the help command, exactly two: that help and then the
    Environment and Examples text added after it), and the runtime's
    [setExitCode] was called once, with 0; or it returns 1, at least
    one text was written to the error sink, at most one to the output
    sink, and [setExitCode] was called once or twice, with 1. *)
Theorem runCli_output_contract (argv : Invocation) (w : world) :
  let r := runCli h argv rt w in
  (fst r = Ret 0%Z /\ err (snd r) = err w /\
   match parse h createProgram argv with
   | outputHelp [] | helpCommand [] =>
       out (snd r) = out w ++ [helpInformation h []; environment_and_examples ++ LF]
   | _ => exists t, out (snd r) = out w ++ [t]
   end /\
   exitCodes (snd r) = exitCodes w ++ [0%Z]) \/
  (fst r = Ret 1%Z /\ (exists t ts, err (snd r) = err w ++ t :: ts) /\
   (out (snd r) = out w \/ exists t, out (snd r) = out w ++ [t]) /\
   (exitCodes (snd r) = exitCodes w ++ [1%Z] \/
    exitCodes (snd r) = exitCodes w ++ [1%Z; 1%Z])).
Proof.
  cbv zeta. destruct (parse h createProgram argv) as [|path|path|path|u|l args] eqn:Hp.
  1-5: unfold runCli, parseAsync; rewrite Hp; unfold bind, try_catch;
    cbn [setObserved fst snd];
    rewrite ?write_each_out, ?write_each_err, ?helpTexts_createProgram;
    try destruct path; cbn -[environment_and_examples];
    rewrite <- ?app_assoc; cbn [app]; eauto 10.
  destruct (action_main l (program_opts argv) args) as (k & Ha & Hk).
  assert (prints_once (bind (createClient h (program_opts argv)) k)) as Hout.
  { apply prints_once_bind; [apply preserves_createClient; reflexivity | apply Hk]. }
  assert (preserves err (bind (createClient h (program_opts argv)) k)) as Herr.
  { apply main_frame; [reflexivity | apply Hk]. }
  assert (preserves exitCodes (bind (createClient h (program_opts argv)) k)) as Hexit.
  { apply main_frame; [reflexivity | apply Hk]. }
  rewrite (runCli_leaf argv l args _ w Hp Ha)
    by (apply main_frame; [reflexivity | apply Hk]).
  specialize (Hout (set_observed 0%Z w)). specialize (Herr (set_observed 0%Z w)).
  specialize (Hexit (set_observed 0%Z w)).
  destruct (bind (createClient h (program_opts argv)) k (set_observed 0%Z w))
    as [[[]|e] w1]; cbn [fst snd] in *;
    change (out (set_observed 0%Z w)) with (out w) in Hout;
    change (err (set_observed 0%Z w)) with (err w) in Herr;
    change (exitCodes (set_observed 0%Z w)) with (exitCodes w) in Hexit.
  - left. split; [reflexivity|]. split; [exact Herr|]. split; [exact Hout|].
    cbn [exitCodes record_exit set_observed]. rewrite Hexit. reflexivity.
  - right. rewrite <- Hout, <- Herr, <- Hexit.
    destruct (printError_err e w1) as (t & ts & He).
    pose proof (printError_out e w1) as Ho.
    pose proof (printError_result h e w1) as Hres.
    pose proof (printError_sinks exitCodes e (fun _ _ => eq_refl) (fun _ _ => eq_refl) w1)
      as Hx.
    destruct (printError h wrapped e w1) as [[[]|e'] w2]; cbn [fst snd] in *.
    + split; [reflexivity|]. cbn [err out exitCodes record_exit set_observed].
      rewrite He, Hx, <- app_assoc. split; [eauto|]. split; [exact Ho|]. right. reflexivity.
    + destruct Hres as [Hres|[m Hres]]; [discriminate|]. injection Hres as ->.
      rewrite printError_JsError.
      cbn [snd err out exitCodes record_exit set_observed emit_err].
      split; [reflexivity|]. rewrite He, Hx, <- app_assoc. cbn [app].
      split; [eauto|]. split; [exact Ho|]. left. reflexivity.
Qed.

(** X2.  What an invocation does to the SDK.  One that dispatches to an
    action handler constructs exactly one client, with the options of
    [createClient], and invokes at most one method, and none unless
    the construction succeeded.  Any other invocation (version, help,
    usage error) constructs no client, invokes no method and does not
    read standard input. *)
Theorem runCli_sdk_footprint (argv : Invocation) (w : world) :
  let w' := snd (runCli h argv rt w) in
  let seclaiOpts := VObj (clientOptions h (program_opts argv)) in
  match parse h createProgram argv with
  | callAction _ _ =>
      constructed w' = constructed w ++ [seclaiOpts] /\
      (calls w' = calls w \/
       Seclai_constructor h seclaiOpts = None /\
       exists method args, calls w' = calls w ++ [(method, args)])
  | _ =>
      constructed w' = constructed w /\ calls w' = calls w /\
      stdinReads w' = stdinReads w
  end.
Proof.
  cbv zeta.
  rewrite (runCli_log h constructed argv w (log_like_constructed)).
  rewrite (runCli_log h calls argv w (log_like_calls)).
  rewrite (runCli_log h stdinReads argv w (log_like_stdinReads)).
  pose proof (parseAsync_quiet h constructed argv (set_observed 0%Z w) log_like_constructed) as Hq1.
  pose proof (parseAsync_quiet h calls argv (set_observed 0%Z w) log_like_calls) as Hq2.
  pose proof (parseAsync_quiet h stdinReads argv (set_observed 0%Z w) log_like_stdinReads) as Hq3.
  destruct (parse h createProgram argv) as [|path|path|path|u|l args] eqn:Hp;
    try (rewrite Hq1, Hq2, Hq3; repeat split; reflexivity).
  unfold parseAsync. rewrite Hp.
  destruct (action_main l (program_opts argv) args) as (k & -> & Hk).
  rewrite (preserves_run h constructed _ _ log_like_constructed).
  rewrite (preserves_run h calls _ _ log_like_calls).
  unfold bind. rewrite createClient_eq.
  destruct (Seclai_constructor h (VObj (clientOptions h (program_opts argv)))) as [e|];
    cbn [snd].
  - split; [reflexivity | left; reflexivity].
  - destruct (Hk SeclaiClient) as (_ & Hcalls & Hcons & _).
    rewrite Hcons. split; [reflexivity|].
    destruct (Hcalls (record_construction (VObj (clientOptions h (program_opts argv)))
                        (set_observed 0%Z w))) as [H|(m & a & H)]; rewrite H.
    + left. reflexivity.
    + right. split; [reflexivity | eauto].
Qed.


(** X4.  When the SDK constructor rejects the options with a
    configuration error (a missing API key), every command ends the
    same way: the error's name and message on the error sink, nothing on
    the output sink, no method invoked, exit code 1. *)
Theorem configuration_error_stops_every_command (argv : Invocation) (l : Leaf)
  (args : list value) (name message : jsstring) (w : world) :
  let seclaiOpts := VObj (clientOptions h (program_opts argv)) in
  parse h createProgram argv = callAction l args ->
  Seclai_constructor h seclaiOpts = Some (SeclaiConfigurationError name message) ->
  runCli h argv rt w
  = (Ret 1%Z,
     record_exit 1%Z (set_observed 1%Z
       (record_exit 1%Z (set_observed 1%Z
         (emit_err (name ++ js ": " ++ message ++ LF)
            (record_construction seclaiOpts (set_observed 0%Z w))))))).
Proof.
  cbv zeta. intros Hp Hc.
  destruct (action_main l (program_opts argv) args) as (k & Ha & Hk).
  rewrite (runCli_leaf argv l args _ w Hp Ha) by (apply leaf_observed, Hk).
  unfold bind at 1. rewrite createClient_eq, Hc. reflexivity.
Qed.

Ltac leaf_calls :=
  erewrite sdk_calls_action; [| reflexivity | reflexivity];
  match goal with |- _ = calls ?w ++ _ =>
    change (calls w) with (calls (set_observed 0%Z w)) end.

Ltac one_call method Hc :=
  erewrite sdk_calls_action; [| reflexivity | reflexivity];
  match goal with |- _ = calls ?w ++ _ =>
    change (calls w) with (calls (set_observed 0%Z w)) end;
  apply (one_call_main _ _ method); [exact Hc|];
  intros res; apply preserves_printJson, log_like_calls.

(** X5.  [sources list] passes an object of five keys, whichever
    options are given: [page] and [limit] hold [Number] of the given
    argument, [sort], [order] and [accountId] the argument itself, and
    each holds [undefined] when its option is absent. *)
Theorem sources_list_maps_options (key : jsstring)
  (page limit sort order accountId : option jsstring) (w : world) :
  Seclai_constructor h (VObj (clientOptions h (VObj [(js "apiKey", VStr key)]))) = None ->
  sdk_calls h
    (invocation (Some key) [js "sources"; js "list"]
       (flag "--page" page ++ flag "--limit" limit ++ flag "--sort" sort
        ++ flag "--order" order ++ flag "--account-id" accountId)) w
  = calls w ++
    [(js "listSources",
      [VObj [(js "page", numeric page); (js "limit", numeric limit);
             (js "sort", verbatim sort); (js "order", verbatim order);
             (js "accountId", verbatim accountId)]])].
Proof.
  intros Hc.
  destruct page, limit, sort, order, accountId; cbn [flag app numeric verbatim];
    one_call "listSources" Hc.
Qed.

(** X6.  [agents runs list], [contents embeddings] and [contents get]
    pass the identifier, then an object of two keys holding [Number] of
    the given arguments, or [undefined]. *)
Theorem paginated_commands_map_options (key id : jsstring)
  (first second : option jsstring) (w : world) :
  Seclai_constructor h (VObj (clientOptions h (VObj [(js "apiKey", VStr key)]))) = None ->
  sdk_calls h
    (invocation (Some key) [js "agents"; js "runs"; js "list"; id]
       (flag "--page" first ++ flag "--limit" second)) w
  = calls w ++
    [(js "listAgentRuns",
      [VStr id; VObj [(js "page", numeric first); (js "limit", numeric second)]])]
  /\
  sdk_calls h
    (invocation (Some key) [js "contents"; js "embeddings"; id]
       (flag "--page" first ++ flag "--limit" second)) w
  = calls w ++
    [(js "listContentEmbeddings",
      [VStr id; VObj [(js "page", numeric first); (js "limit", numeric second)]])]
  /\
  sdk_calls h
    (invocation (Some key) [js "contents"; js "get"; id]
       (flag "--start" first ++ flag "--end" second)) w
  = calls w ++
    [(js "getContentDetail",
      [VStr id; VObj [(js "start", numeric first); (js "end", numeric second)]])].
Proof.
  intros Hc.
  destruct first, second; cbn [flag app numeric]; (split; [|split]).
  all: first [ one_call "listAgentRuns" Hc
             | one_call "listContentEmbeddings" Hc
             | one_call "getContentDetail" Hc ].
Qed.

(** X7.  [sources upload] passes the source connection id, then an
    object that holds the bytes of the file under [file] and, of
    [title], [fileName] and [mimeType], exactly the ones whose option
    was given. *)
Theorem sources_upload_passes_supplied_keys (key id path : jsstring) (bytes : list N)
  (title fileName mimeType : option jsstring) (w : world) :
  Seclai_constructor h (VObj (clientOptions h (VObj [(js "apiKey", VStr key)]))) = None ->
  readFile_bytes h path = Ret bytes ->
  sdk_calls h
    (invocation (Some key) [js "sources"; js "upload"; id]
       ((js "--file", Some path) :: flag "--title" title
        ++ flag "--file-name" fileName ++ flag "--mime-type" mimeType)) w
  = calls w ++
    [(js "uploadFileToSource",
      [VStr id;
       VObj ((js "file", VBytes bytes) :: supplied "title" title
             ++ supplied "fileName" fileName ++ supplied "mimeType" mimeType)])].
Proof.
  intros Hc Hb.
  destruct title as [t|], fileName as [f|], mimeType as [m|]; cbn [flag supplied app];
    leaf_calls;
    change (program_opts (invocation (Some key) _ _)) with (VObj [(js "apiKey", VStr key)]);
    unfold bind at 1; rewrite createClient_eq, Hc;
    unfold bind at 1;
    change (lift (readFile_bytes h _)) with (lift (readFile_bytes h path));
    unfold lift at 1; rewrite Hb; cbv zeta;
    rewrite bind_preserved
      by (intros res; apply preserves_printJson, log_like_calls);
    reflexivity.
Qed.

(** X8.  When the file of [sources upload] cannot be read, the client
    has been constructed already, no method is invoked, the error of the
    file system is written to the error sink and the exit code
    is 1. *)
Theorem sources_upload_unreadable_file (key id path name message : jsstring)
  (title fileName mimeType : option jsstring) (w : world) :
  let argv := invocation (Some key) [js "sources"; js "upload"; id]
                ((js "--file", Some path) :: flag "--title" title
                 ++ flag "--file-name" fileName ++ flag "--mime-type" mimeType) in
  let seclaiOpts := VObj (clientOptions h (VObj [(js "apiKey", VStr key)])) in
  Seclai_constructor h seclaiOpts = None ->
  readFile_bytes h path = Throw (JsError name message) ->
  runCli h argv rt w
  = (Ret 1%Z,
     record_exit 1%Z (set_observed 1%Z
       (record_exit 1%Z (set_observed 1%Z
         (emit_err (name ++ js ": " ++ message ++ LF)
            (record_construction seclaiOpts (set_observed 0%Z w))))))).
Proof.
  cbv zeta. intros Hc Hb.
  destruct title as [t|], fileName as [f|], mimeType as [m|]; cbn [flag app];
    (erewrite runCli_leaf; [| reflexivity | reflexivity | solve [frame]]);
    change (program_opts (invocation (Some key) _ _)) with (VObj [(js "apiKey", VStr key)]);
    unfold bind at 1; rewrite createClient_eq, Hc;
    unfold bind at 1;
    change (lift (readFile_bytes h _)) with (lift (readFile_bytes h path));
    unfold lift at 1; rewrite Hb; reflexivity.
Qed.

(** The rendering of a serializable value, followed by whitespace,
    parses as the value. *)
Lemma stringify_parse v t ws :
  JSONSerializable v -> JSON_stringify v = Text t -> forallb is_ws ws = true ->
  JSON_parse (t ++ ws) = Some v.
Proof.
  intros Hser Et Hws.
  destruct (serialize_reads_back v Hser [] eq_refl) as (t' & Et' & (c & r & -> & Hc) & Hlen & Hparse).
  unfold JSON_stringify in Et. rewrite Et' in Et. injection Et as <-.
  unfold JSON_parse. cbn [app]. rewrite skip_ws_start by (apply value_start_not_ws, Hc).
  change (c :: r ++ ws) with ((c :: r) ++ ws).
  rewrite Hparse.
  - rewrite <- (app_nil_r ws), skip_ws_app by exact Hws. reflexivity.
  - rewrite length_app. cbn [List.length] in *. lia.
  - destruct ws as [|x ws]; [exact I|]. cbn [ends_token forallb] in *.
    apply andb_true_iff in Hws. apply ws_not_numchar, Hws.
Qed.

(** The calls of [agents run] once the client is there and the input is
    resolved. *)
Lemma agents_run_calls argv agentId opts body w :
  parse h createProgram argv = callAction agents_run [agentId; VObj opts; VCommand] ->
  Seclai_constructor h (VObj (clientOptions h (program_opts argv))) = None ->
  (forall w1,
     fst (readJsonInput h wrapped
            {| json := optional_string (get (VObj opts) "json");
               jsonFile := optional_string (get (VObj opts) "jsonFile") |} w1)
     = Ret body) ->
  sdk_calls h argv w
  = calls w ++
    (if ToBoolean (get (VObj opts) "stream") then
       if has_runStreamingAgentAndWait h then
         [(js "runStreamingAgentAndWait",
           [agentId; body;
            if negb (is_undefined (get (VObj opts) "timeoutMs"))
            then VObj [(js "timeoutMs", get (VObj opts) "timeoutMs")]
            else VUndefined])]
       else []
     else [(js "runAgent", [agentId; body])]).
Proof.
  intros Hp Hc Hin.
  erewrite sdk_calls_action; [| exact Hp | reflexivity].
  unfold bind at 1. rewrite createClient_eq, Hc.
  unfold bind at 1. cbn [parameter nth].
  match goal with |- context [readJsonInput h wrapped ?i ?w1] =>
    pose proof (Hin w1) as Hb;
    pose proof (preserves_readJsonInput calls i (fun _ => eq_refl) w1) as Hf;
    destruct (readJsonInput h wrapped i w1) as [[b|e] w2]
  end; cbn [fst snd] in *; [|discriminate].
  injection Hb as ->.
  rewrite bind_preserved by (intros res; apply preserves_printJson, log_like_calls).
  destruct (ToBoolean (get (VObj opts) "stream")).
  - destruct (has_runStreamingAgentAndWait h); cbn [negb snd throw invoke calls record_call].
    + rewrite Hf. reflexivity.
    + rewrite Hf, app_nil_r. reflexivity.
  - cbn [snd invoke calls record_call]. rewrite Hf. reflexivity.
Qed.

Lemma inline_input opts text body w1 :
  optional_string (get (VObj opts) "json") = Some text ->
  optional_string (get (VObj opts) "jsonFile") = None ->
  jsstring_eqb text (js "-") = false ->
  JSON_parse text = Some body ->
  readJsonInput h wrapped
    {| json := optional_string (get (VObj opts) "json");
       jsonFile := optional_string (get (VObj opts) "jsonFile") |} w1
  = (Ret body, w1).
Proof.
  intros Hj Hf Hs Hp. rewrite readJsonInput_eq. cbn [json jsonFile].
  rewrite Hj, Hf, Hs. unfold parse_resolved. rewrite Hp. reflexivity.
Qed.

(** X9.  [agents run] with an inline body.  Without [--stream] it
    invokes [runAgent] with the agent id and the parsed body, and
    [--timeout-ms] is ignored.  With [--stream] it invokes
    [runStreamingAgentAndWait], with [undefined] as third argument, or
    with an object holding [timeoutMs] when [--timeout-ms] is
    given. *)
Theorem agents_run_selects_method (key id text v : jsstring) (body : value)
  (timeout : option jsstring) (w : world) :
  JSON_parse text = Some body ->
  jsstring_eqb text (js "-") = false ->
  Seclai_constructor h (VObj (clientOptions h (VObj [(js "apiKey", VStr key)]))) = None ->
  has_runStreamingAgentAndWait h = true ->
  sdk_calls h (invocation (Some key) [js "agents"; js "run"; id]
                 ((js "--json", Some text) :: flag "--timeout-ms" timeout)) w
  = calls w ++ [(js "runAgent", [VStr id; body])]
  /\
  sdk_calls h (invocation (Some key) [js "agents"; js "run"; id]
                 [(js "--json", Some text); (js "--stream", None)]) w
  = calls w ++ [(js "runStreamingAgentAndWait", [VStr id; body; VUndefined])]
  /\
  sdk_calls h (invocation (Some key) [js "agents"; js "run"; id]
                 [(js "--json", Some text); (js "--stream", None);
                  (js "--timeout-ms", Some v)]) w
  = calls w ++
    [(js "runStreamingAgentAndWait",
      [VStr id; body; VObj [(js "timeoutMs", VNum (Number_of_string v))]])].
Proof.
  intros Hp Hs Hc Hstream. split; [|split].
  - destruct timeout as [ms|]; cbn [flag app].
    + rewrite (agents_run_calls _ (VStr id)
                 [(js "json", VStr text); (js "timeoutMs", VNum (Number_of_string ms))] body w);
        [reflexivity | reflexivity | exact Hc |].
      intros w1. rewrite (inline_input _ text body); auto.
    + rewrite (agents_run_calls _ (VStr id) [(js "json", VStr text)] body w);
        [reflexivity | reflexivity | exact Hc |].
      intros w1. rewrite (inline_input _ text body); auto.
  - rewrite (agents_run_calls _ (VStr id)
               [(js "json", VStr text); (js "stream", VBool true)] body w);
      [rewrite Hstream; reflexivity | reflexivity | exact Hc |].
    intros w1. rewrite (inline_input _ text body); auto.
  - rewrite (agents_run_calls _ (VStr id)
               [(js "json", VStr text); (js "stream", VBool true);
                (js "timeoutMs", VNum (Number_of_string v))] body w);
      [rewrite Hstream; reflexivity | reflexivity | exact Hc |].
    intros w1. rewrite (inline_input _ text body); auto.
Qed.


(** X11.  [agents run] without [--json] and [--json-file], and with an
    inline body that is not JSON, fails after the client is constructed
    and before any method is invoked: the message of the missing input,
    or the [SyntaxError], goes to the error sink and the exit code
    is 1. *)
Theorem agents_run_rejects_bad_input (key id text : jsstring) (w : world) :
  let seclaiOpts := VObj (clientOptions h (VObj [(js "apiKey", VStr key)])) in
  let failed message :=
    (@Ret _ Z 1%Z,
     record_exit 1%Z (set_observed 1%Z
       (record_exit 1%Z (set_observed 1%Z
         (emit_err (message ++ LF)
            (record_construction seclaiOpts (set_observed 0%Z w))))))) in
  Seclai_constructor h seclaiOpts = None ->
  JSON_parse text = None ->
  jsstring_eqb text (js "-") = false ->
  runCli h (invocation (Some key) [js "agents"; js "run"; id] []) rt w
  = failed (js "Error: Missing JSON input. Provide --json or --json-file.")
  /\
  runCli h (invocation (Some key) [js "agents"; js "run"; id]
              [(js "--json", Some text)]) rt w
  = failed (js "SyntaxError: " ++ SyntaxError_message h text).
Proof.
  cbv zeta. intros Hc Hp Hs. split.
  - assert (parse h createProgram (invocation (Some key) [js "agents"; js "run"; id] [])
            = callAction agents_run [VStr id; VObj []; VCommand]) as Hparse
      by reflexivity.
    erewrite runCli_leaf; [| exact Hparse | reflexivity | solve [frame] ].
    change (program_opts (invocation (Some key) _ _)) with (VObj [(js "apiKey", VStr key)]).
    unfold bind at 1. rewrite createClient_eq, Hc. reflexivity.
  - assert (parse h createProgram
              (invocation (Some key) [js "agents"; js "run"; id] [(js "--json", Some text)])
            = callAction agents_run [VStr id; VObj [(js "json", VStr text)]; VCommand])
      as Hparse by reflexivity.
    erewrite runCli_leaf; [| exact Hparse | reflexivity | solve [frame]].
    change (program_opts (invocation (Some key) _ _)) with (VObj [(js "apiKey", VStr key)]).
    unfold bind at 1. rewrite createClient_eq, Hc.
    unfold bind at 1. rewrite readJsonInput_eq. cbn [json jsonFile parameter nth].
    change (optional_string (get _ "json")) with (Some text).
    change (optional_string (get _ "jsonFile")) with (@None jsstring).
    cbv iota. rewrite Hs. unfold parse_resolved. rewrite Hp.
    cbn [printError]. rewrite <- !app_assoc. reflexivity.
Qed.

(** X12.  What [printJson] writes for a JSON-serializable value can be
    piped into [agents run]: with that text on standard input, both
    [--json-file -] and [--json -] pass the same value to
    [runAgent]. *)
Theorem agents_run_reads_what_printJson_writes (key id : jsstring) (v : value)
  (t : jsstring) (w : world) :
  JSONSerializable v ->
  JSON_stringify v = Text t ->
  stdin_stream h = Ret (t ++ LF) ->
  Seclai_constructor h (VObj (clientOptions h (VObj [(js "apiKey", VStr key)]))) = None ->
  printJson h rt v w = (Ret tt, emit_out (t ++ LF) w) /\
  sdk_calls h (invocation (Some key) [js "agents"; js "run"; id]
                 [(js "--json-file", Some (js "-"))]) w
  = calls w ++ [(js "runAgent", [VStr id; v])] /\
  sdk_calls h (invocation (Some key) [js "agents"; js "run"; id]
                 [(js "--json", Some (js "-"))]) w
  = calls w ++ [(js "runAgent", [VStr id; v])].
Proof.
  intros Hser Et Hin Hc.
  pose proof (stringify_parse v t LF Hser Et eq_refl) as Hparse.
  split; [unfold printJson; rewrite Et; reflexivity|].
  split.
  - rewrite (agents_run_calls _ (VStr id) [(js "jsonFile", VStr (js "-"))] v w);
      [reflexivity | reflexivity | exact Hc |].
    intros w1. rewrite readJsonInput_eq. cbn [json jsonFile].
    change (optional_string (get _ "json")) with (@None jsstring).
    change (optional_string (get _ "jsonFile")) with (Some (js "-")).
    cbv iota. change (jsstring_eqb (js "-") (js "-")) with true. cbv iota.
    cbn [fst]. rewrite Hin. unfold parse_resolved. rewrite Hparse. reflexivity.
  - rewrite (agents_run_calls _ (VStr id) [(js "json", VStr (js "-"))] v w);
      [reflexivity | reflexivity | exact Hc |].
    intros w1. rewrite readJsonInput_eq. cbn [json jsonFile].
    change (optional_string (get _ "json")) with (Some (js "-")).
    change (optional_string (get _ "jsonFile")) with (@None jsstring).
    cbv iota. change (jsstring_eqb (js "-") (js "-")) with true. cbv iota.
    cbn [fst]. rewrite Hin. unfold parse_resolved. rewrite Hparse. reflexivity.
Qed.

(** X13.  [runs get --include-step-outputs] passes the run id and the
    object [{ includeStepOutputs: true }]; [runs delete] and
    [agents runs delete] invoke [deleteAgentRun] with the run id
    alone. *)
Theorem run_commands_pass_the_run_id (key runId : jsstring) (w : world) :
  Seclai_constructor h (VObj (clientOptions h (VObj [(js "apiKey", VStr key)]))) = None ->
  sdk_calls h (invocation (Some key) [js "runs"; js "get"; runId]
                 [(js "--include-step-outputs", None)]) w
  = calls w ++
    [(js "getAgentRun", [VStr runId; VObj [(js "includeStepOutputs", VBool true)]])]
  /\
  sdk_calls h (invocation (Some key) [js "runs"; js "delete"; runId] []) w
  = calls w ++ [(js "deleteAgentRun", [VStr runId])]
  /\
  sdk_calls h (invocation (Some key) [js "agents"; js "runs"; js "delete"; runId] []) w
  = calls w ++ [(js "deleteAgentRun", [VStr runId])].
Proof.
  intros Hc. split; [|split].
  - one_call "getAgentRun" Hc.
  - one_call "deleteAgentRun" Hc.
  - one_call "deleteAgentRun" Hc.
Qed.

(** X14.  [contents delete] invokes [deleteContent] with the id and,
    whatever the SDK resolves with, prints the object [{ ok: true }];
    the exit code is 0. *)
Theorem contents_delete_prints_ok (key id : jsstring) (res : value) (w : world) :
  let seclaiOpts := VObj (clientOptions h (VObj [(js "apiKey", VStr key)])) in
  Seclai_constructor h seclaiOpts = None ->
  Seclai_method h (js "deleteContent") [VStr id] = Ret res ->
  runCli h (invocation (Some key) [js "contents"; js "delete"; id] []) rt w
  = (Ret 0%Z,
     record_exit 0%Z (set_observed 0%Z
       (emit_out (ok_text ++ LF)
          (record_call (js "deleteContent") [VStr id]
             (record_construction seclaiOpts (set_observed 0%Z w)))))).
Proof.
  cbv zeta. intros Hc Hm.
  erewrite runCli_leaf; [| reflexivity | reflexivity | solve [frame]].
  change (program_opts (invocation (Some key) _ _)) with (VObj [(js "apiKey", VStr key)]).
  unfold bind at 1. rewrite createClient_eq, Hc.
  unfold bind at 1. unfold invoke at 1.
  change (parameter 0 _) with (VStr id). rewrite Hm. reflexivity.
Qed.

(** X15.  A command that prints the result of the SDK prints the text
    [undefined] when the SDK resolves with [undefined], here
    [runs delete]: the exit code is 0 and the output is not JSON. *)
Theorem undefined_result_is_not_printed_as_JSON (key runId : jsstring) (w : world) :
  let seclaiOpts := VObj (clientOptions h (VObj [(js "apiKey", VStr key)])) in
  Seclai_constructor h seclaiOpts = None ->
  Seclai_method h (js "deleteAgentRun") [VStr runId] = Ret VUndefined ->
  runCli h (invocation (Some key) [js "runs"; js "delete"; runId] []) rt w
  = (Ret 0%Z,
     record_exit 0%Z (set_observed 0%Z
       (emit_out (js "undefined" ++ LF)
          (record_call (js "deleteAgentRun") [VStr runId]
             (record_construction seclaiOpts (set_observed 0%Z w))))))
  /\ JSON_parse (js "undefined" ++ LF) = None.
Proof.
  cbv zeta. intros Hc Hm. split; [|reflexivity].
  erewrite runCli_leaf; [| reflexivity | reflexivity | solve [frame]].
  change (program_opts (invocation (Some key) _ _)) with (VObj [(js "apiKey", VStr key)]).
  unfold bind at 1. rewrite createClient_eq, Hc.
  unfold bind at 1. unfold invoke at 1.
  change (parameter 0 _) with (VStr runId). rewrite Hm. reflexivity.
Qed.

(** Parsing reads the help flag and the options of an invocation, not
    its operands. *)
Lemma parseCommand_given words : forall path c inv inv',
  helpFlag inv = helpFlag inv' -> given inv = given inv' ->
  parseCommand h path c inv words = parseCommand h path c inv' words.
Proof.
  induction words as [|word rest IH]; intros path c inv inv' Hh Hg;
    destruct c as [n als regs opts act subs after];
    cbn [parseCommand actionHandler commands]; destruct act as [l|];
    try (unfold parseLeaf; rewrite Hh, Hg; reflexivity).
  destruct (findCommand word subs) as [sub|]; [apply IH; assumption|].
  rewrite Hh. reflexivity.
Qed.

Lemma runCli_parse argv argv' w :
  parse h createProgram argv = parse h createProgram argv' ->
  apiKey argv = apiKey argv' ->
  runCli h argv rt w = runCli h argv' rt w.
Proof.
  intros Hp Hk. unfold runCli, parseAsync, program_opts. rewrite Hp, Hk. reflexivity.
Qed.

(** X16.  The aliases: an invocation that begins with [source] behaves
    as the same invocation with [sources], and one that begins with
    [agent-runs] as the same with [runs], whatever follows. *)
Theorem aliases_select_the_same_commands (argv : Invocation) (rest : list jsstring)
  (w : world) :
  runCli h (with_operands argv (js "source" :: rest)) rt w
  = runCli h (with_operands argv (js "sources" :: rest)) rt w /\
  runCli h (with_operands argv (js "agent-runs" :: rest)) rt w
  = runCli h (with_operands argv (js "runs" :: rest)) rt w.
Proof.
  split; (apply runCli_parse; [|reflexivity]); unfold parse;
    cbn [versionFlag with_operands operands]; destruct (versionFlag argv); try reflexivity.
  - etransitivity;
      [apply (parseCommand_given _ _ _ _ (with_operands argv (js "sources" :: rest)));
       reflexivity|].
    reflexivity.
  - etransitivity;
      [apply (parseCommand_given _ _ _ _ (with_operands argv (js "runs" :: rest)));
       reflexivity|].
    reflexivity.
Qed.

(** X17.  [getCliVersion] on a package file that holds the rendering of
    an object, followed by any whitespace, is the [version] of that
    object when it is a string, and ["0.0.0"] otherwise. *)
Theorem getCliVersion_reads_package (props : list (jsstring * value)) (t ws : jsstring) :
  JSONSerializable (VObj props) ->
  JSON_stringify (VObj props) = Text t ->
  forallb is_ws ws = true ->
  getCliVersion (Ret (t ++ ws))
  = match lookup (js "version") props with
    | Some (VStr version) => version
    | _ => js "0.0.0"
    end.
Proof.
  intros Hser Et Hws. unfold getCliVersion.
  rewrite (stringify_parse _ t ws Hser Et Hws). cbn [get].
  destruct (lookup (js "version") props) as [[]|]; reflexivity.
Qed.

Lemma runCli_returns argv w : exists code w', runCli h argv rt w = (Ret code, w').
Proof.
  pose proof (parseAsync_result h argv (set_observed 0%Z w)) as Hesc.
  unfold runCli, bind, try_catch. cbn [setObserved fst snd].
  destruct (parseAsync h wrapped createProgram argv (set_observed 0%Z w)) as [[[]|e] w1];
    cbn [fst] in Hesc.
  - eexists _, _; reflexivity.
  - destruct e; try contradiction.
    + rewrite printError_JsError. eexists _, _. reflexivity.
    + eexists _, _. reflexivity.
Qed.

(** X18.  The entry-point guard runs the command line at most once.  It
    runs it when the real path of [process.argv[1]] is the real path of
    the module, whatever the two paths are; and when the real path of
    [process.argv[1]] cannot be had, it runs it exactly when the URL of
    the module is the URL of that argument. *)
Theorem entrypoint_runs_cli_at_most_once (p : Process) (argv : Invocation) (w : world) :
  (snd (entrypoint h p argv w) = w \/
   snd (entrypoint h p argv w) = snd (runCli h argv rt w)) /\
  (forall path self real,
     argv1 p = Some path -> path <> [] ->
     realpathSync p path = Ret real ->
     fileURLToPath p (import_meta_url p) = Ret self ->
     realpathSync p self = Ret real ->
     entrypoint h p argv w = (Ret tt, snd (runCli h argv rt w))) /\
  (forall path e href,
     argv1 p = Some path -> path <> [] ->
     realpathSync p path = Throw e ->
     pathToFileURL_href p path = Ret href ->
     entrypoint h p argv w
     = (Ret tt, if jsstring_eqb (import_meta_url p) href
                then snd (runCli h argv rt w) else w)).
Proof.
  destruct (runCli_returns argv w) as (code & w' & Hrun).
  unfold entrypoint. split; [|split].
  - destruct (argv1 p) as [[|c s]|]; try (left; reflexivity).
    unfold try_catch, bind, lift, ret.
    destruct (realpathSync p (c :: s)) as [entryReal|e];
      [destruct (fileURLToPath p (import_meta_url p)) as [selfPath|e];
       [destruct (realpathSync p selfPath) as [selfReal|e];
        [destruct (jsstring_eqb entryReal selfReal)|]|]|];
      try (destruct (pathToFileURL_href p (c :: s)) as [href|e'];
           [destruct (jsstring_eqb (import_meta_url p) href)|]);
      rewrite ?Hrun; cbn [fst snd]; auto.
  - intros path self real Ha Hne He Hs Hr. rewrite Ha.
    destruct path as [|c s]; [congruence|].
    unfold try_catch, bind, lift, ret. rewrite He, Hs, Hr.
    assert (jsstring_eqb real real = true) as -> by (apply jsstring_eqb_eq; reflexivity).
    rewrite Hrun. reflexivity.
  - intros path e href Ha Hne He Hu. rewrite Ha.
    destruct path as [|c s]; [congruence|].
    unfold try_catch, bind, lift, ret. rewrite He, Hu.
    destruct (jsstring_eqb (import_meta_url p) href); [rewrite Hrun|]; reflexivity.
Qed.

(** X19.  The version on the generated page is [process.env.VERSION]
    when that is set, even to the empty string; otherwise it is the
    version the command line itself reports for the same package
    file. *)
Theorem docsVersion_agrees_with_cli (VERSION : option jsstring)
  (package_json : result jsstring) :
  docsVersion VERSION package_json
  = match VERSION with
    | Some v => v
    | None => getCliVersion package_json
    end.
Proof.
  destruct VERSION as [v|]; [reflexivity|].
  unfold docsVersion, readPackageVersion, getCliVersion.
  destruct package_json as [raw|e]; [|reflexivity].
  destruct (JSON_parse raw) as [parsed|]; [|reflexivity].
  destruct parsed; try reflexivity;
    match goal with |- context [get ?o "version"] => destruct (get o "version") end;
    reflexivity.
Qed.

(** X25.  Every entry of [sections] names a command of the tree of
    [createProgram]: its title is the command words, and run with its
    arguments the command line writes the help of that command to the
    output sink (for the Overview, the program itself, followed by the
    Environment and Examples text added after its help) and returns
    0. *)
Theorem sections_are_commands (w : world) :
  Forall
    (fun section =>
       let words := map js (removelast (snd section)) in
       (fst section = "Overview" \/ js (fst section) = join (js " ") words) /\
       runCli h (section_invocation (snd section)) rt w
       = (Ret 0%Z,
          record_exit 0%Z (set_observed 0%Z
            (emit_each emit_out
               (helpInformation h words
                :: match words with
                   | [] => [environment_and_examples ++ LF]
                   | _ :: _ => []
                   end)
               (set_observed 0%Z w)))))
    sections.
Proof.
  unfold sections.
  repeat (constructor; [split; [first [left; reflexivity | right; reflexivity] | reflexivity]|]).
  constructor.
Qed.

Lemma readStdinText_events_data chunks : forall data tail,
  readStdinText_events data (map data_event chunks ++ tail)
  = readStdinText_events (data ++ List.concat chunks) tail.
Proof.
  induction chunks as [|chunk chunks IH]; intros data tail; cbn [map app List.concat].
  - rewrite app_nil_r. reflexivity.
  - cbn [readStdinText_events]. rewrite IH, app_assoc. reflexivity.
Qed.

(** X26.  [readStdinText] resolves with the chunks received before the
    first [end], concatenated in order, whatever the stream emits
    afterwards; it rejects with the first [error] that comes before an
    [end]; and it stays pending on a stream that neither ends nor
    fails. *)
Theorem readStdinText_collects_chunks (chunks : list jsstring)
  (later : list StreamEvent) (e : thrown) :
  readStdinText_events [] (map data_event chunks ++ end_event :: later)
  = Some (Ret (List.concat chunks)) /\
  readStdinText_events [] (map data_event chunks ++ error_event e :: later)
  = Some (Throw e) /\
  readStdinText_events [] (map data_event chunks) = None.
Proof.
  split; [|split].
  - rewrite readStdinText_events_data. reflexivity.
  - rewrite readStdinText_events_data. reflexivity.
  - rewrite <- (app_nil_r (map data_event chunks)), readStdinText_events_data. reflexivity.
Qed.

(** X27.  When [listSources] rejects with an API status error,
    [sources list] writes the error's name and message, its status and
    its URL to the error sink, then the response text when there is
    one, and nothing to the output sink; the exit code is set to 1 by
    [run] and again by [runCli], which returns 1. *)
Theorem sources_list_reports_api_status_error (key name message url : jsstring)
  (statusCode : number) (responseText : option jsstring) (w : world) :
  let seclaiOpts := VObj (clientOptions h (VObj [(js "apiKey", VStr key)])) in
  let options := VObj [(js "page", VUndefined); (js "limit", VUndefined);
                       (js "sort", VUndefined); (js "order", VUndefined);
                       (js "accountId", VUndefined)] in
  let r := runCli h (invocation (Some key) [js "sources"; js "list"] []) rt w in
  Seclai_constructor h seclaiOpts = None ->
  Seclai_method h (js "listSources") [options]
  = Throw (SeclaiAPIStatusError name message statusCode url responseText) ->
  fst r = Ret 1%Z /\
  out (snd r) = out w /\
  err (snd r)
  = err w ++
    [name ++ js ": " ++ message ++ LF;
     js "status: " ++ Number_toString statusCode ++ LF;
     js "url: " ++ url ++ LF]
    ++ (if truthy_text responseText
        then [js "response: " ++ match responseText with Some t => t | None => [] end ++ LF]
        else []) /\
  exitCodes (snd r) = exitCodes w ++ [1%Z; 1%Z] /\
  calls (snd r) = calls w ++ [(js "listSources", [options])].
Proof.
  cbv zeta. intros Hc Hm.
  assert (parse h createProgram (invocation (Some key) [js "sources"; js "list"] [])
          = callAction sources_list [VObj []; VCommand]) as Hparse by reflexivity.
  assert (runCli h (invocation (Some key) [js "sources"; js "list"] []) rt w
          = (Ret 1%Z,
             record_exit 1%Z (set_observed 1%Z (record_exit 1%Z (set_observed 1%Z
               (snd (printError h wrapped
                       (SeclaiAPIStatusError name message statusCode url responseText)
                       (record_call (js "listSources")
                          [VObj [(js "page", VUndefined); (js "limit", VUndefined);
                                 (js "sort", VUndefined); (js "order", VUndefined);
                                 (js "accountId", VUndefined)]]
                          (record_construction
                             (VObj (clientOptions h (VObj [(js "apiKey", VStr key)])))
                             (set_observed 0%Z w))))))))))
    as ->.
  { erewrite runCli_leaf; [| exact Hparse | reflexivity | solve [frame]].
    change (program_opts (invocation (Some key) _ _)) with (VObj [(js "apiKey", VStr key)]).
    unfold bind at 1. rewrite createClient_eq, Hc.
    unfold bind at 1. unfold invoke at 1.
    change (get (parameter 0 _) _) with (@VUndefined JSN).
    rewrite Hm. cbn [printError]. unfold bind.
    cbn [writeErr wrappedRt defaultRuntime fst snd].
    destruct (truthy_text responseText); reflexivity. }
  cbn [printError]. unfold bind. cbn [writeErr wrappedRt defaultRuntime fst snd].
  destruct (truthy_text responseText); cbn; rewrite <- ?app_assoc; repeat split; reflexivity.
Qed.

End CliCoverage.

(** ** The command reference *)

Section DocsProofs.
Variable toLowerCase : jsstring -> jsstring.

Lemma replaceAll_unit c r s :
  replaceAll [c] r s = flat_map (fun x => if (c =? x)%N then r else [x]) s.
Proof.
  unfold replaceAll. induction s as [|x s IH]; [reflexivity|].
  cbn [replaceAll_from strip_prefix flat_map List.length Nat.sub].
  destruct (c =? x)%N; rewrite IH; reflexivity.
Qed.

Lemma flat_map_bind {A B C} (f : A -> list B) (g : B -> list C) l :
  flat_map g (flat_map f l) = flat_map (fun x => flat_map g (f x)) l.
Proof.
  induction l as [|x l IH]; [reflexivity|].
  cbn [flat_map]. rewrite flat_map_app, IH. reflexivity.
Qed.

Lemma escapeHtml_units s : escapeHtml s = flat_map entity s.
Proof.
  unfold escapeHtml.
  change (js "'") with [39%N]. change (js ">") with [62%N].
  change (js "<") with [60%N]. change (js "&") with [38%N].
  rewrite !replaceAll_unit, !flat_map_bind.
  apply flat_map_ext. intros c. unfold entity, QUOTE.
  destruct (N.eqb_spec c 38) as [->|H1]; [reflexivity|].
  destruct (N.eqb_spec c 60) as [->|H2]; [reflexivity|].
  destruct (N.eqb_spec c 62) as [->|H3]; [reflexivity|].
  destruct (N.eqb_spec c 34) as [->|H4]; [reflexivity|].
  destruct (N.eqb_spec c 39) as [->|H5]; [reflexivity|].
  assert (forall k, c <> k -> (k =? c)%N = false) as Hne
    by (intros k Hk; apply N.eqb_neq; congruence).
  rewrite (Hne 38%N H1). cbn [flat_map app].
  rewrite (Hne 60%N H2). cbn [flat_map app].
  rewrite (Hne 62%N H3). cbn [flat_map app].
  rewrite (Hne 34%N H4). cbn [flat_map app].
  rewrite (Hne 39%N H5). reflexivity.
Qed.

(** X20.  The chain of replacements of [escapeHtml] renders every code
    unit once, by itself: the ampersands of the entities it introduces
    are not escaped again, and the escape of a concatenation is the
    concatenation of the escapes. *)
Theorem escapeHtml_renders_each_unit_once (a b : jsstring) :
  escapeHtml a = flat_map entity a /\
  escapeHtml (a ++ b) = escapeHtml a ++ escapeHtml b.
Proof.
  split; [apply escapeHtml_units|].
  rewrite !escapeHtml_units. apply flat_map_app.
Qed.

Lemma entity_no_markup c : forallb (fun x => negb (is_markup x)) (entity c) = true.
Proof.
  unfold entity, is_markup, QUOTE.
  destruct (N.eqb_spec c 38); [reflexivity|].
  destruct (N.eqb_spec c 60); [reflexivity|].
  destruct (N.eqb_spec c 62); [reflexivity|].
  destruct (N.eqb_spec c 34); [reflexivity|].
  destruct (N.eqb_spec c 39); [reflexivity|].
  cbn [forallb].
  repeat match goal with
  | H : c <> ?k |- context [(c =? ?k)%N] => rewrite (proj2 (N.eqb_neq c k) H)
  end.
  reflexivity.
Qed.

(** X21.  The output of [escapeHtml] contains no [<], no [>], no double
    quote and no single quote. *)
Theorem escapeHtml_leaves_no_markup (s : jsstring) :
  forallb (fun c => negb (is_markup c)) (escapeHtml s) = true.
Proof.
  rewrite escapeHtml_units. induction s as [|c s IH]; [reflexivity|].
  cbn [flat_map]. rewrite forallb_app, entity_no_markup, IH. reflexivity.
Qed.

Lemma entity_cases c :
  (c = 38%N /\ entity c = js "&amp;") \/ (c = 60%N /\ entity c = js "&lt;") \/
  (c = 62%N /\ entity c = js "&gt;") \/ (c = 34%N /\ entity c = js "&quot;") \/
  (c = 39%N /\ entity c = js "&#39;") \/ (c <> 38%N /\ entity c = [c]).
Proof.
  unfold entity, QUOTE.
  destruct (N.eqb_spec c 38); [auto|].
  destruct (N.eqb_spec c 60); [auto|].
  destruct (N.eqb_spec c 62); [auto 6|].
  destruct (N.eqb_spec c 34); [auto 6|].
  destruct (N.eqb_spec c 39); [auto 7|].
  auto 10.
Qed.

(** X22.  [escapeHtml] loses nothing: two texts with the same escape
    are the same text. *)
Theorem escapeHtml_injective (a b : jsstring) :
  escapeHtml a = escapeHtml b -> a = b.
Proof.
  rewrite !escapeHtml_units. revert b.
  induction a as [|x a IH]; intros [|y b] H; cbn [flat_map] in H.
  - reflexivity.
  - exfalso. destruct (entity_cases y) as [[_ E]|[[_ E]|[[_ E]|[[_ E]|[[_ E]|[_ E]]]]]];
      rewrite E in H; discriminate.
  - exfalso. destruct (entity_cases x) as [[_ E]|[[_ E]|[[_ E]|[[_ E]|[[_ E]|[_ E]]]]]];
      rewrite E in H; discriminate.
  - destruct (entity_cases x) as [[Hx E]|[[Hx E]|[[Hx E]|[[Hx E]|[[Hx E]|[Hx E]]]]]];
      destruct (entity_cases y) as [[Hy F]|[[Hy F]|[[Hy F]|[[Hy F]|[[Hy F]|[Hy F]]]]]];
      rewrite E, F in H; cbn [js list_ascii_of_string map app] in H;
      try discriminate;
      try (injection H as H; subst; f_equal; apply IH; assumption);
      try (injection H as H0 H; congruence).
Qed.

Lemma dash_not_slug_unit : is_slug_unit 45 = false.
Proof. reflexivity. Qed.

Lemma spaced_dash_runs s : forall in_run, spaced in_run (dash_runs in_run s) = true.
Proof.
  induction s as [|c s IH]; intros in_run; [reflexivity|].
  cbn [dash_runs]. destruct (is_slug_unit c) eqn:E.
  - cbn [spaced]. rewrite E. apply IH.
  - destruct in_run; [apply IH|].
    cbn [spaced]. rewrite dash_not_slug_unit. cbn. apply IH.
Qed.

Lemma drop_final_dash_cons c d s :
  drop_final_dash (c :: d :: s) = c :: drop_final_dash (d :: s).
Proof. reflexivity. Qed.

Lemma slug_tail_drop_final_dash s : forall after_dash,
  spaced after_dash s = true ->
  if after_dash
  then s = [] \/ slug_tail true (drop_final_dash s) = true
  else slug_tail false (drop_final_dash s) = true.
Proof.
  induction s as [|c s IH]; intros after_dash H.
  - destruct after_dash; auto.
  - cbn [spaced] in H. destruct (is_slug_unit c) eqn:E.
    + pose proof (IH false H) as IHf. cbn beta iota in IHf.
      assert (slug_tail after_dash (drop_final_dash (c :: s)) = true) as Hs.
      { destruct s as [|d s].
        - cbn [drop_final_dash].
          assert ((c =? 45)%N = false) as ->.
          { destruct (N.eqb_spec c 45) as [->|]; [discriminate E | reflexivity]. }
          cbn [slug_tail]. rewrite E. reflexivity.
        - rewrite drop_final_dash_cons. cbn [slug_tail]. rewrite E. exact IHf. }
      destruct after_dash; auto.
    + destruct (c =? 45)%N eqn:Ec; [|discriminate H].
      destruct after_dash; [discriminate H|]. cbn [andb negb] in H.
      apply N.eqb_eq in Ec. subst c.
      destruct s as [|d s]; [reflexivity|].
      rewrite drop_final_dash_cons. cbn [slug_tail]. rewrite dash_not_slug_unit. cbn [N.eqb Pos.eqb andb negb].
      destruct (IH true H) as [Hnil|Hs]; [discriminate Hnil | exact Hs].
Qed.

Lemma is_slug_trim_dashes s : spaced false s = true -> is_slug (trim_dashes s) = true.
Proof.
  intros H. unfold trim_dashes.
  assert (spaced true match s with
                      | c :: rest => if (c =? 45)%N then rest else s
                      | [] => []
                      end = true) as Hs.
  { destruct s as [|c s]; [reflexivity|].
    destruct (N.eqb_spec c 45) as [->|Hc].
    - cbn [spaced] in H. rewrite dash_not_slug_unit in H. exact H.
    - cbn [spaced] in H |- *. destruct (is_slug_unit c); [exact H|].
      apply N.eqb_neq in Hc. rewrite Hc in H. discriminate H. }
  destruct (slug_tail_drop_final_dash _ true Hs) as [-> | Ht]; [reflexivity|].
  unfold is_slug. destruct (drop_final_dash _); [reflexivity | exact Ht].
Qed.

(** X23.  Whatever the input, and whatever [toLowerCase] does, the slug
    is empty or made of runs of lowercase letters and digits separated
    by single dashes. *)
Theorem slugify_is_slug (input : jsstring) : is_slug (slugify toLowerCase input) = true.
Proof. apply is_slug_trim_dashes, spaced_dash_runs. Qed.

Lemma slug_tail_units s : forall after_dash,
  slug_tail after_dash s = true ->
  forallb (fun c => is_slug_unit c || (c =? 45)%N) s = true.
Proof.
  induction s as [|c s IH]; intros after_dash H; [reflexivity|].
  cbn [slug_tail] in H. cbn [forallb].
  destruct (is_slug_unit c); cbn [orb andb]; [eapply IH, H|].
  destruct (c =? 45)%N; [|discriminate H]. cbn [andb].
  destruct after_dash; [discriminate H|]. eapply IH, H.
Qed.

Lemma entity_slug_unit c : is_slug_unit c || (c =? 45)%N = true -> entity c = [c].
Proof.
  unfold is_slug_unit, is_digit, entity, QUOTE. intros H.
  repeat rewrite orb_true_iff in H. repeat rewrite andb_true_iff in H.
  repeat rewrite N.leb_le in H. rewrite N.eqb_eq in H.
  repeat match goal with
  | |- context [(c =? ?k)%N] =>
      destruct (N.eqb_spec c k); [exfalso; lia|]
  end.
  reflexivity.
Qed.

Lemma slugify_is_slug_units input :
  forallb (fun c => is_slug_unit c || (c =? 45)%N) (slugify toLowerCase input) = true.
Proof.
  pose proof (is_slug_trim_dashes _ (spaced_dash_runs (toLowerCase (trim input)) false)) as H.
  fold (slugify toLowerCase input) in H. unfold is_slug in H.
  destruct (slugify toLowerCase input) as [|c s] eqn:E; [reflexivity|].
  eapply slug_tail_units, H.
Qed.

(** X24.  A slug needs no escaping: the anchor and the [href] written
    for a section are the slug itself. *)
Theorem escapeHtml_keeps_slugs (input : jsstring) :
  escapeHtml (slugify toLowerCase input) = slugify toLowerCase input.
Proof.
  pose proof (slugify_is_slug_units input) as H.
  rewrite escapeHtml_units. induction (slugify toLowerCase input) as [|c s IH]; [reflexivity|].
  cbn [forallb] in H. apply andb_true_iff in H. destruct H as [Hc Hs].
  cbn [flat_map]. rewrite (entity_slug_unit c Hc), (IH Hs). reflexivity.
Qed.

End DocsProofs.

(** ** The integer model

    Every integer is a serializable number of the integer model. *)

Ltac expose_digit d :=
  match goal with
  | |- context [numerals (?D d)] =>
      let c := eval vm_compute in (hd 0%N (numerals (D Decimal.Nil))) in
      change (numerals (D d)) with (c :: numerals d)
  end.

Ltac digit_step :=
  cbn [digits_value];
  match goal with |- context [is_digit ?c] =>
    let b := eval vm_compute in (is_digit c) in change (is_digit c) with b end;
  cbv iota;
  match goal with |- context [Z.of_N (?c - 48)] =>
    let b := eval vm_compute in (Z.of_N (c - 48)) in change (Z.of_N (c - 48)) with b end.

Lemma digits_value_acc d : forall acc : positive,
  digits_value (Z.pos acc) (numerals d) = Some (Z.pos (Pos.of_uint_acc d acc)).
Proof.
  induction d; intros acc; cbn [Pos.of_uint_acc]; try reflexivity;
    expose_digit d; digit_step; rewrite <- IHd; f_equal; lia.
Qed.

Lemma nzhead_no_leading_zero d : leading_zero (Decimal.nzhead d) = false.
Proof. induction d; cbn; auto. Qed.

Lemma to_uint_no_leading_zero p : leading_zero (Pos.to_uint p) = false.
Proof.
  pose proof (DecimalPos.Unsigned.to_of (Pos.to_uint p)) as H.
  rewrite DecimalPos.Unsigned.of_to in H. cbn [N.to_uint] in H.
  unfold Decimal.unorm in H.
  pose proof (nzhead_no_leading_zero (Pos.to_uint p)) as Hz.
  destruct (Decimal.nzhead (Pos.to_uint p)) eqn:E; cbn in Hz; try discriminate;
    try (rewrite H; reflexivity).
  exfalso. apply (DecimalPos.Unsigned.to_uint_nonzero p). exact H.
Qed.

Lemma numerals_digits d : forallb is_digit (numerals d) = true.
Proof.
  induction d; try reflexivity; expose_digit d; cbn [forallb]; rewrite IHd; reflexivity.
Qed.

Lemma digit_numchar c : is_digit c = true -> is_numchar c = true.
Proof. intros H. unfold is_numchar. rewrite H. reflexivity. Qed.

Lemma numerals_numchars d : forallb is_numchar (numerals d) = true.
Proof.
  pose proof (numerals_digits d) as H. rewrite forallb_forall in *.
  intros c Hc. apply digit_numchar, H, Hc.
Qed.

Lemma json_digits_to_uint p :
  json_digits (numerals (Pos.to_uint p)) = Some (Z.pos p).
Proof.
  pose proof (to_uint_no_leading_zero p) as Hz.
  pose proof (DecimalPos.Unsigned.of_to p) as Hof.
  destruct (Pos.to_uint p) as [|d|d|d|d|d|d|d|d|d|d]; try discriminate;
    cbn [Pos.of_uint] in Hof; injection Hof as <-;
    expose_digit d; unfold json_digits;
    (destruct (numerals d) eqn:En;
     [ destruct d; try discriminate En; reflexivity
     | rewrite <- En; cbn [N.eqb Pos.eqb]; digit_step; apply digits_value_acc ]).
Qed.

Lemma to_uint_first_digit p :
  exists c r, numerals (Pos.to_uint p) = c :: r /\ is_digit c = true.
Proof.
  pose proof (DecimalPos.Unsigned.to_uint_nonnil p) as Hnil.
  pose proof (numerals_digits (Pos.to_uint p)) as Hd.
  destruct (Pos.to_uint p) as [|d|d|d|d|d|d|d|d|d|d]; try congruence;
    expose_digit d; eexists _, _; (split; [reflexivity | reflexivity]).
Qed.

Lemma render_pos p :
  js (NilZero.string_of_uint (Pos.to_uint p)) = numerals (Pos.to_uint p).
Proof.
  pose proof (DecimalPos.Unsigned.to_uint_nonnil p) as Hnil.
  destruct (Pos.to_uint p); try congruence; reflexivity.
Qed.

Lemma integers_serializable (z : Z) : JSONSerializable (VNum (ZInt z)).
Proof.
  constructor; [reflexivity | |].
  - destruct z as [|p|p]; [reflexivity | |];
      cbn [Number_toString ZNumber integer_toString Z.to_int NilZero.string_of_int].
    + rewrite render_pos. destruct (to_uint_first_digit p) as (c & r & E & Hc).
      unfold numeral. pose proof (numerals_numchars (Pos.to_uint p)) as Hn.
      rewrite E in *. rewrite Hc, Hn, orb_true_r. reflexivity.
    + change (js (String "-" (NilZero.string_of_uint (Pos.to_uint p))))
        with (45%N :: js (NilZero.string_of_uint (Pos.to_uint p))).
      rewrite render_pos. unfold numeral. cbn [forallb].
      rewrite numerals_numchars. reflexivity.
  - destruct z as [|p|p]; [reflexivity | |];
      cbn [Number_toString JSON_number ZNumber integer_toString Z.to_int
           NilZero.string_of_int].
    + rewrite render_pos. destruct (to_uint_first_digit p) as (c & r & E & Hc).
      unfold json_integer. rewrite E.
      assert ((c =? 45)%N = false) as ->.
      { unfold is_digit in Hc. apply andb_true_iff in Hc. rewrite !N.leb_le in Hc.
        apply N.eqb_neq. lia. }
      rewrite <- E, json_digits_to_uint. reflexivity.
    + change (js (String "-" (NilZero.string_of_uint (Pos.to_uint p))))
        with (45%N :: js (NilZero.string_of_uint (Pos.to_uint p))).
      rewrite render_pos. unfold json_integer. cbn [N.eqb Pos.eqb].
      rewrite json_digits_to_uint. reflexivity.
Qed.

(** ** The development at work on concrete invocations *)

Lemma list_commands_pass_unsupplied_keys_witness :
  Seclai_constructor demo_host (VObj (clientOptions demo_host demo_global)) = None /\
  sdk_calls demo_host sources_list_bare initial_world
  = [(js "listSources",
      [VObj [(js "page", VUndefined); (js "limit", VUndefined);
             (js "sort", VUndefined); (js "order", VUndefined);
             (js "accountId", VUndefined)]])].
Proof.
  split; [reflexivity|].
  apply (list_commands_pass_unsupplied_keys demo_host demo_key (js "cv") initial_world).
  reflexivity.
Defined.

Lemma printError_validation_detail_witness :
  ToBoolean demo_detail = true /\
  JSON_stringify (VObj [(js "validationError", demo_detail)]) = Text demo_detail_text /\
  out (snd (printError demo_host (defaultRuntime demo_host)
              demo_validation_failure initial_world))
  = [demo_detail_text ++ LF].
Proof.
  split; [reflexivity|]. split; [reflexivity|].
  apply (printError_validation_detail demo_host
           (js "SeclaiAPIValidationError") (js "Unprocessable Entity")
           (js "https://api.seclai.com/sources") (ZInt 422) None demo_detail
           demo_detail_text initial_world); reflexivity.
Defined.

Lemma agents_runs_get_drops_run_id_witness :
  Seclai_constructor demo_host (VObj (clientOptions demo_host demo_global)) = None /\
  sdk_calls demo_host
    (invocation (Some demo_key)
       [js "agents"; js "runs"; js "get"; js "agent-1"; js "run-1"] [])
    initial_world
  = [(js "getAgentRun", [VObj []; VUndefined])].
Proof.
  split; [reflexivity|].
  apply (agents_runs_get_drops_run_id demo_host demo_key (js "agent-1") (js "run-1")
           initial_world).
  reflexivity.
Defined.

Lemma agents_run_both_inputs_witness :
  parse demo_host createProgram agents_run_both
  = callAction agents_run
      [VStr (js "agent-1");
       VObj [(js "json", VStr (js "-")); (js "jsonFile", VStr (js "-"))];
       VCommand] /\
  calls (snd (runCli demo_host agents_run_both (defaultRuntime demo_host) initial_world)) = [] /\
  stdinReads (snd (runCli demo_host agents_run_both (defaultRuntime demo_host) initial_world)) = 0 /\
  fst (runCli demo_host agents_run_both (defaultRuntime demo_host) initial_world) = Ret 1%Z.
Proof.
  split; [reflexivity|].
  destruct (agents_run_both_inputs demo_host agents_run_both (VStr (js "agent-1"))
              [(js "json", VStr (js "-")); (js "jsonFile", VStr (js "-"))]
              (js "-") (js "-") initial_world eq_refl eq_refl eq_refl)
    as (_ & Hcalls & Hstdin & Hrun).
  split; [exact Hcalls|]. split; [exact Hstdin|].
  rewrite (Hrun eq_refl). reflexivity.
Defined.

(** C4 as stated fails: given both [--json] and [--json-file], the run
    has invoked the client constructor. *)
Lemma both_inputs_still_construct_the_client :
  constructed (snd (runCli demo_host agents_run_both (defaultRuntime demo_host)
                      initial_world))
  = [VObj [(js "apiKey", VStr demo_key);
           (js "baseUrl", VStr (js "https://api.seclai.com"))]].
Proof. vm_compute. reflexivity. Qed.



Lemma demo_value_serializable : JSONSerializable demo_value.
Proof.
  unfold demo_value. constructor.
  - repeat constructor; cbn; intuition discriminate.
  - repeat constructor; cbn; intuition discriminate.
Defined.

Lemma printJson_round_trip_witness :
  JSONSerializable demo_value /\
  JSON_stringify demo_value = Text demo_value_text /\
  printJson demo_host (defaultRuntime demo_host) demo_value initial_world
  = (Ret tt, emit_out (demo_value_text ++ LF) initial_world) /\
  JSON_parse (demo_value_text ++ LF) = Some demo_value.
Proof.
  split; [exact demo_value_serializable|].
  exact (printJson_round_trip demo_host demo_value initial_world demo_value_serializable).
Defined.

Lemma numeric_options_pass_NaN_witness :
  Number_of_string (js "abc") = NaN /\
  Seclai_constructor demo_host (VObj (clientOptions demo_host demo_global)) = None /\
  has_runStreamingAgentAndWait demo_host = true /\
  sdk_calls demo_host
    (invocation (Some demo_key) [js "sources"; js "list"] [(js "--page", Some (js "abc"))])
    initial_world
  = [(js "listSources",
      [VObj [(js "page", VNum NaN); (js "limit", VUndefined);
             (js "sort", VUndefined); (js "order", VUndefined);
             (js "accountId", VUndefined)]])].
Proof.
  split; [reflexivity|]. split; [reflexivity|]. split; [reflexivity|].
  apply (numeric_options_pass_NaN demo_host demo_key (js "cv") (js "abc") initial_world);
    reflexivity.
Defined.

(** ** The test suite of the repository, run on the embedding *)

(** "sources list calls SDK with mapped options". *)
Example test_sources_list_mapped_options :
  runCli demo_host test_sources_list (defaultRuntime demo_host) initial_world
  = (Ret 0%Z,
     {| out := [js "{" ++ LF ++ js "  " ++ quoted "ok" ++ js ": true" ++ LF ++ js "}" ++ LF];
        err := [];
        exitCodes := [0%Z];
        observedExitCode := 0%Z;
        stdinReads := 0;
        constructed := [VObj [(js "apiKey", VStr demo_key);
                              (js "baseUrl", VStr (js "https://api.seclai.com"))]];
        calls := [(js "listSources",
                   [VObj [(js "page", VNum (ZInt 2)); (js "limit", VNum (ZInt 10));
                          (js "sort", VStr (js "created_at"));
                          (js "order", VStr (js "asc"));
                          (js "accountId",
                           VStr (js "9f3c2a7d-2d4a-4c8e-9d1d-3f7a2f1c0b5e"))]])] |}).
Proof. vm_compute. reflexivity. Qed.

(** "agents run --stream uses streaming endpoint and waits". *)
Example test_agents_run_stream_waits :
  sdk_calls demo_host test_agents_run_stream initial_world
  = [(js "runStreamingAgentAndWait",
      [VStr (js "6b9e2a1c-4d5f-4a7b-9c0d-1e2f3a4b5c6d");
       VObj [(js "input", VStr (js "hello")); (js "metadata", VObj [])];
       VObj [(js "timeoutMs", VNum (ZInt 1234))]])].
Proof. vm_compute. reflexivity. Qed.

(** "runs get calls SDK with run id" and "runs get --include-step-outputs
    passes option". *)
Example test_runs_get_run_id :
  sdk_calls demo_host (test_runs_get []) initial_world
  = [(js "getAgentRun", [VStr (js "run_1"); VUndefined])]
  /\
  sdk_calls demo_host (test_runs_get [(js "--include-step-outputs", None)]) initial_world
  = [(js "getAgentRun",
      [VStr (js "run_1"); VObj [(js "includeStepOutputs", VBool true)]])].
Proof. split; vm_compute; reflexivity. Qed.

(** "missing api key produces configuration error and exit code 1". *)
Example test_missing_api_key_fails :
  let r := runCli demo_host test_missing_api_key (defaultRuntime demo_host) initial_world in
  fst r = Ret 1%Z /\
  err (snd r) = [js "SeclaiConfigurationError: Missing API key" ++ LF] /\
  out (snd r) = [] /\
  calls (snd r) = [].
Proof. vm_compute. repeat split; reflexivity. Qed.

(** "API status errors are printed with status and url". *)
Example test_api_status_error_printed :
  let r := runCli unauthorized_host sources_list_bare (defaultRuntime unauthorized_host)
             initial_world in
  fst r = Ret 1%Z /\
  err (snd r) = [js "SeclaiAPIStatusError: Unauthorized" ++ LF;
                 js "status: 401" ++ LF;
                 js "url: https://example.invalid/api/sources/" ++ LF;
                 js "response: nope" ++ LF] /\
  out (snd r) = [].
Proof. vm_compute. repeat split; reflexivity. Qed.

(** "--version prints package version". *)
Example test_version_prints :
  runCli demo_host
    {| versionFlag := true; helpFlag := false; apiKey := None;
       operands := []; given := [] |}
    (defaultRuntime demo_host) initial_world
  = (Ret 0%Z,
     record_exit 0%Z (set_observed 0%Z (emit_out (js "1.0.0" ++ LF) initial_world))).
Proof. vm_compute. reflexivity. Qed.

(** [seclai --help]: the help of the program, then the Environment and
    Examples text, both on the output sink. *)
Example test_help_prints :
  let r := runCli demo_host
             {| versionFlag := false; helpFlag := true; apiKey := None;
                operands := []; given := [] |}
             (defaultRuntime demo_host) initial_world in
  fst r = Ret 0%Z /\
  out (snd r) = [helpInformation demo_host []; environment_and_examples ++ LF] /\
  err (snd r) = [] /\
  exitCodes (snd r) = [0%Z].
Proof. vm_compute. repeat split; reflexivity. Qed.

(** [seclai] alone: the same two texts, on the error sink, and exit
    code 1. *)
Example test_bare_seclai :
  let r := runCli demo_host (invocation None [] []) (defaultRuntime demo_host)
             initial_world in
  fst r = Ret 1%Z /\
  err (snd r) = [helpInformation demo_host []; environment_and_examples ++ LF] /\
  out (snd r) = [] /\
  exitCodes (snd r) = [1%Z].
Proof. vm_compute. repeat split; reflexivity. Qed.

(** [seclai sources --help]: the help of the group alone. *)
Example test_group_help_prints :
  let r := runCli demo_host
             {| versionFlag := false; helpFlag := true; apiKey := None;
                operands := [js "sources"]; given := [] |}
             (defaultRuntime demo_host) initial_world in
  fst r = Ret 0%Z /\
  out (snd r) = [helpInformation demo_host [js "sources"]] /\
  err (snd r) = [].
Proof. vm_compute. repeat split; reflexivity. Qed.

(** ** More concrete runs *)

Lemma configuration_error_stops_every_command_witness :
  parse demo_host createProgram test_missing_api_key
  = callAction sources_list [VObj []; VCommand] /\
  Seclai_constructor demo_host (VObj (clientOptions demo_host (program_opts test_missing_api_key)))
  = Some (SeclaiConfigurationError (js "SeclaiConfigurationError") (js "Missing API key")) /\
  runCli demo_host test_missing_api_key (defaultRuntime demo_host) initial_world
  = (Ret 1%Z,
     {| out := [];
        err := [js "SeclaiConfigurationError: Missing API key" ++ LF];
        exitCodes := [1%Z; 1%Z];
        observedExitCode := 1%Z;
        stdinReads := 0;
        constructed := [VObj [(js "baseUrl", VStr (js "https://api.seclai.com"))]];
        calls := [] |}).
Proof.
  split; [reflexivity|]. split; [reflexivity|].
  apply (configuration_error_stops_every_command demo_host test_missing_api_key
           sources_list [VObj []; VCommand]
           (js "SeclaiConfigurationError") (js "Missing API key") initial_world);
    reflexivity.
Defined.

Lemma sources_list_maps_options_witness :
  Seclai_constructor demo_host (VObj (clientOptions demo_host demo_global)) = None /\
  sdk_calls demo_host
    (invocation (Some demo_key) [js "sources"; js "list"]
       [(js "--limit", Some (js "10")); (js "--order", Some (js "asc"))])
    initial_world
  = [(js "listSources",
      [VObj [(js "page", VUndefined); (js "limit", VNum (ZInt 10));
             (js "sort", VUndefined); (js "order", VStr (js "asc"));
             (js "accountId", VUndefined)]])].
Proof.
  split; [reflexivity|].
  apply (sources_list_maps_options demo_host demo_key None (Some (js "10")) None
           (Some (js "asc")) None initial_world).
  reflexivity.
Defined.

Lemma paginated_commands_map_options_witness :
  Seclai_constructor demo_host (VObj (clientOptions demo_host demo_global)) = None /\
  sdk_calls demo_host
    (invocation (Some demo_key) [js "agents"; js "runs"; js "list"; js "agent-1"]
       [(js "--page", Some (js "2"))])
    initial_world
  = [(js "listAgentRuns",
      [VStr (js "agent-1"); VObj [(js "page", VNum (ZInt 2)); (js "limit", VUndefined)]])].
Proof.
  split; [reflexivity|].
  apply (paginated_commands_map_options demo_host demo_key (js "agent-1")
           (Some (js "2")) None initial_world).
  reflexivity.
Defined.

Lemma sources_upload_passes_supplied_keys_witness :
  Seclai_constructor demo_host (VObj (clientOptions demo_host demo_global)) = None /\
  readFile_bytes demo_host (js "hello.txt") = Ret (js "hello") /\
  sdk_calls demo_host
    (invocation (Some demo_key) [js "sources"; js "upload"; js "sc-1"]
       [(js "--file", Some (js "hello.txt")); (js "--title", Some (js "Notes"))])
    initial_world
  = [(js "uploadFileToSource",
      [VStr (js "sc-1");
       VObj [(js "file", VBytes (js "hello")); (js "title", VStr (js "Notes"))]])].
Proof.
  split; [reflexivity|]. split; [reflexivity|].
  apply (sources_upload_passes_supplied_keys demo_host demo_key (js "sc-1") (js "hello.txt")
           (js "hello") (Some (js "Notes")) None None initial_world); reflexivity.
Defined.

Lemma sources_upload_unreadable_file_witness :
  Seclai_constructor demo_host (VObj (clientOptions demo_host demo_global)) = None /\
  readFile_bytes demo_host (js "missing.pdf")
  = Throw (JsError (js "Error") (js "ENOENT: no such file or directory")) /\
  runCli demo_host
    (invocation (Some demo_key) [js "sources"; js "upload"; js "sc-1"]
       [(js "--file", Some (js "missing.pdf"))])
    (defaultRuntime demo_host) initial_world
  = (Ret 1%Z,
     {| out := [];
        err := [js "Error: ENOENT: no such file or directory" ++ LF];
        exitCodes := [1%Z; 1%Z];
        observedExitCode := 1%Z;
        stdinReads := 0;
        constructed := [VObj [(js "apiKey", VStr demo_key);
                              (js "baseUrl", VStr (js "https://api.seclai.com"))]];
        calls := [] |}).
Proof.
  split; [reflexivity|]. split; [reflexivity|].
  apply (sources_upload_unreadable_file demo_host demo_key (js "sc-1") (js "missing.pdf")
           (js "Error") (js "ENOENT: no such file or directory") None None None
           initial_world); reflexivity.
Defined.

Lemma agents_run_selects_method_witness :
  JSON_parse (JSN := ZNumber) (js "null") = Some VNull /\
  jsstring_eqb (js "null") (js "-") = false /\
  Seclai_constructor demo_host (VObj (clientOptions demo_host demo_global)) = None /\
  has_runStreamingAgentAndWait demo_host = true /\
  sdk_calls demo_host
    (invocation (Some demo_key) [js "agents"; js "run"; js "agent-1"]
       [(js "--json", Some (js "null")); (js "--timeout-ms", Some (js "1234"))])
    initial_world
  = [(js "runAgent", [VStr (js "agent-1"); VNull])].
Proof.
  split; [reflexivity|]. split; [reflexivity|]. split; [reflexivity|]. split; [reflexivity|].
  apply (agents_run_selects_method demo_host demo_key (js "agent-1") (js "null") (js "0")
           VNull (Some (js "1234")) initial_world);
    reflexivity.
Defined.


Lemma agents_run_rejects_bad_input_witness :
  Seclai_constructor demo_host (VObj (clientOptions demo_host demo_global)) = None /\
  JSON_parse (js "{") = None /\
  jsstring_eqb (js "{") (js "-") = false /\
  runCli demo_host
    (invocation (Some demo_key) [js "agents"; js "run"; js "agent-1"]
       [(js "--json", Some (js "{"))])
    (defaultRuntime demo_host) initial_world
  = (Ret 1%Z,
     {| out := [];
        err := [js "SyntaxError: Unexpected token in JSON" ++ LF];
        exitCodes := [1%Z; 1%Z];
        observedExitCode := 1%Z;
        stdinReads := 0;
        constructed := [VObj [(js "apiKey", VStr demo_key);
                              (js "baseUrl", VStr (js "https://api.seclai.com"))]];
        calls := [] |}).
Proof.
  split; [reflexivity|]. split; [reflexivity|]. split; [reflexivity|].
  apply (agents_run_rejects_bad_input demo_host demo_key (js "agent-1") (js "{")
           initial_world); reflexivity.
Defined.

Lemma piped_value_serializable : JSONSerializable piped_value.
Proof.
  unfold piped_value. constructor.
  - repeat constructor; cbn; intuition discriminate.
  - repeat constructor.
Defined.

Lemma agents_run_reads_what_printJson_writes_witness :
  JSONSerializable piped_value /\
  JSON_stringify piped_value = Text piped_text /\
  stdin_stream piped_host = Ret (piped_text ++ LF) /\
  Seclai_constructor piped_host (VObj (clientOptions piped_host demo_global)) = None /\
  sdk_calls piped_host
    (invocation (Some demo_key) [js "agents"; js "run"; js "agent-1"]
       [(js "--json-file", Some (js "-"))])
    initial_world
  = [(js "runAgent", [VStr (js "agent-1"); piped_value])].
Proof.
  split; [exact piped_value_serializable|]. split; [reflexivity|].
  split; [reflexivity|]. split; [reflexivity|].
  apply (agents_run_reads_what_printJson_writes piped_host demo_key (js "agent-1")
           piped_value piped_text initial_world piped_value_serializable);
    reflexivity.
Defined.

Lemma run_commands_pass_the_run_id_witness :
  Seclai_constructor demo_host (VObj (clientOptions demo_host demo_global)) = None /\
  sdk_calls demo_host
    (invocation (Some demo_key) [js "agents"; js "runs"; js "delete"; js "run_1"] [])
    initial_world
  = [(js "deleteAgentRun", [VStr (js "run_1")])].
Proof.
  split; [reflexivity|].
  apply (run_commands_pass_the_run_id demo_host demo_key (js "run_1") initial_world).
  reflexivity.
Defined.

Lemma contents_delete_prints_ok_witness :
  Seclai_constructor silent_host (VObj (clientOptions silent_host demo_global)) = None /\
  Seclai_method silent_host (js "deleteContent") [VStr (js "cv-1")] = Ret VUndefined /\
  runCli silent_host (invocation (Some demo_key) [js "contents"; js "delete"; js "cv-1"] [])
    (defaultRuntime silent_host) initial_world
  = (Ret 0%Z,
     {| out := [ok_text ++ LF];
        err := [];
        exitCodes := [0%Z];
        observedExitCode := 0%Z;
        stdinReads := 0;
        constructed := [VObj [(js "apiKey", VStr demo_key);
                              (js "baseUrl", VStr (js "https://api.seclai.com"))]];
        calls := [(js "deleteContent", [VStr (js "cv-1")])] |}).
Proof.
  split; [reflexivity|]. split; [reflexivity|].
  apply (contents_delete_prints_ok silent_host demo_key (js "cv-1") VUndefined
           initial_world); reflexivity.
Defined.

Lemma undefined_result_is_not_printed_as_JSON_witness :
  Seclai_constructor silent_host (VObj (clientOptions silent_host demo_global)) = None /\
  Seclai_method silent_host (js "deleteAgentRun") [VStr (js "run_1")] = Ret VUndefined /\
  out (snd (runCli silent_host
              (invocation (Some demo_key) [js "runs"; js "delete"; js "run_1"] [])
              (defaultRuntime silent_host) initial_world))
  = [js "undefined" ++ LF].
Proof.
  split; [reflexivity|]. split; [reflexivity|].
  destruct (undefined_result_is_not_printed_as_JSON silent_host demo_key (js "run_1")
              initial_world eq_refl eq_refl) as [Hrun _].
  rewrite Hrun. reflexivity.
Defined.

Lemma getCliVersion_reads_package_witness :
  JSONSerializable (VObj demo_package) /\
  JSON_stringify (VObj demo_package) = Text demo_package_text /\
  forallb is_ws LF = true /\
  getCliVersion (Ret (demo_package_text ++ LF)) = js "1.2.3".
Proof.
  assert (JSONSerializable (VObj demo_package)) as Hser.
  { unfold demo_package. constructor.
    - repeat constructor; cbn; intuition discriminate.
    - repeat constructor. }
  split; [exact Hser|]. split; [reflexivity|]. split; [reflexivity|].
  apply (getCliVersion_reads_package demo_package demo_package_text LF Hser);
    reflexivity.
Defined.

Lemma escapeHtml_injective_witness :
  escapeHtml (js "a<b") = escapeHtml (js "a<b") /\ js "a<b" = js "a<b".
Proof.
  split; [reflexivity|].
  apply (escapeHtml_injective (js "a<b") (js "a<b")). reflexivity.
Defined.

Lemma sources_list_reports_api_status_error_witness :
  Seclai_constructor unauthorized_host
    (VObj (clientOptions unauthorized_host demo_global)) = None /\
  Seclai_method unauthorized_host (js "listSources")
    [VObj [(js "page", VUndefined); (js "limit", VUndefined);
           (js "sort", VUndefined); (js "order", VUndefined);
           (js "accountId", VUndefined)]]
  = Throw unauthorized /\
  err (snd (runCli unauthorized_host sources_list_bare (defaultRuntime unauthorized_host)
              initial_world))
  = [js "SeclaiAPIStatusError: Unauthorized" ++ LF;
     js "status: 401" ++ LF;
     js "url: https://example.invalid/api/sources/" ++ LF;
     js "response: nope" ++ LF].
Proof.
  split; [reflexivity|]. split; [reflexivity|].
  destruct (sources_list_reports_api_status_error unauthorized_host demo_key
              (js "SeclaiAPIStatusError") (js "Unauthorized")
              (js "https://example.invalid/api/sources/") (ZInt 401) (Some (js "nope"))
              initial_world eq_refl eq_refl) as (_ & _ & Herr & _).
  exact Herr.
Defined.

(** The entry-point guard on a symbolic link. *)
Example entrypoint_through_symlink :
  entrypoint demo_host linked_process sources_list_bare initial_world
  = (Ret tt, snd (runCli demo_host sources_list_bare (defaultRuntime demo_host) initial_world)).
Proof. vm_compute. reflexivity. Qed.

(** The anchors of the generated page. *)
Example slugify_titles :
  map (fun section => slugify ascii_toLowerCase (js (fst section))) sections
  = map js ["overview"; "sources"; "sources-list"; "sources-upload"; "agents";
            "agents-run"; "agents-runs"; "agents-runs-list"; "agents-runs-get";
            "agents-runs-delete"; "contents"; "contents-get"; "contents-delete";
            "contents-embeddings"].
Proof. vm_compute. reflexivity. Qed.
